(** * Constant-velocity path execution under partial hallway knowledge

    A shallow embedding of [pyrobosim/navigation/execution.py]
    ([ConstantVelocityExecutor]): the main trajectory loop of [execute], the
    two background loops it starts ([validate_remaining_path] and
    [detect_closed_hallway]) and the configuration record of [to_dict].

    Numbers: Python floats are modelled by exact rationals ([Q]); rounding is
    not modelled.  Comparisons are the boolean ones the code performs.

    Concurrency: the three loops share the executor and the robot.  The main
    loop is a function; each background loop is a small machine stepped by an
    explicit schedule that says, for every program point of [execute] where
    the other actors may run, which of them take a step there. *)

From Stdlib Require Import QArith Qabs.
From stdpp Require Import gmap strings list.

(** ** Numbers *)

(** [a < b] on floats. *)
Definition Qltb (a b : Q) : bool := negb (Qle_bool b a).

(** ** Data model *)

(** A pose: position and heading.  [get_yaw] is the accessor the tracker
    calls. *)
Record Pose := mkPose { pose_x : Q; pose_y : Q; pose_yaw : Q }.

Definition get_yaw (p : Pose) : Q := pose_yaw p.

(** [Path.poses]; [num_poses] is its length. *)
Abbreviation Path := (list Pose).

Definition num_poses (path : Path) : nat := length path.

(** A trajectory: timestamped poses.  [t_pts] and [poses] are the two
    parallel sequences of the Python object. *)
Abbreviation Trajectory := (list (Q * Pose)).

Definition t_pts (tr : Trajectory) : list Q := map fst tr.
Definition poses (tr : Trajectory) : list Pose := map snd tr.
Definition num_points (tr : Trajectory) : nat := length tr.

Inductive ExecutionStatus :=
| SUCCESS
| CANCELED
| EXECUTION_FAILURE
| PRECONDITION_FAILURE.

Record ExecutionResult := mkResult {
  status : ExecutionStatus;
  message : string
}.

(** A polygon is represented by its point-membership test, which is all the
    tracker asks of it. *)
Definition Polygon := Q -> Q -> bool.

Definition intersects_xy (poly : Polygon) (x y : Q) : bool := poly x y.

(** A hallway: [hallway_id] stands for the identity of the Python object,
    which is what membership in [recorded_closed_hallways] compares. *)
Record Hallway := mkHallway {
  hallway_id : nat;
  name : string;
  is_open : bool;
  internal_collision_polygon : Polygon
}.

Record World := mkWorld { hallways : list Hallway }.

Record Lidar2D := mkLidar { angles : list Q; max_range_m : Q }.

Inductive Sensor :=
| SensorLidar2D (lidar : Lidar2D)
| SensorOther.

Inductive PathPlanner :=
| PRMPlanner
| AStarPlanner
| RRTPlanner
| WorldGraphPlanner.

(** The robot, as far as the executor reads or writes it.  [logger] keeps the
    messages logged through [robot.logger], oldest first; [planner_resets]
    counts the calls of [reset_path_planner]; [manipulated_object] is the
    pose of the held object, when there is one. *)
Record Robot := mkRobot {
  pose : Pose;
  battery_level : Q;
  manipulated_object : option Pose;
  world : option World;
  fog_hallways : bool;
  recorded_closed_hallways : gset nat;
  sensors : gmap string Sensor;
  path_planner : option PathPlanner;
  planner_resets : nat;
  logger : list string;
  last_nav_result : option ExecutionResult
}.

(** The constructor arguments of the executor. *)
Record Config := mkConfig {
  dt : Q;
  linear_velocity : Q;
  max_angular_velocity : option Q;
  validate_during_execution : bool;
  validation_dt : Q;
  validation_step_dist : Q;
  lidar_sensor_name : option string;
  lidar_sensor_measurement_dt : Q
}.

(** The execution state that [reset_state] owns. *)
Record ExecState := mkExecState {
  current_traj_time : Q;
  following_path : bool;
  abort_execution : bool;
  cancel_execution : bool;
  hallway_states_updated : bool
}.

(** Control state of a path-validator thread.  [VAbortPending]: the collision
    check of the current iteration has failed and the write of
    [abort_execution] is still to come. *)
Inductive ValidatorThread :=
| VStart
| VLoop
| VAbortPending
| VDone.

(** Control state of a hallway-tracker thread.  [LScan lidar pts]: the points
    of the current measurement that are still to be tested. *)
Inductive TrackerThread :=
| LStart
| LLoop (lidar : Lidar2D)
| LScan (lidar : Lidar2D) (pts : list (Q * Q))
| LDone.

(** The executor object.  A thread attribute is [None] until a thread has
    been created; afterwards it holds that thread. *)
Record Executor := mkExecutor {
  config : Config;
  state : ExecState;
  traj : option Trajectory;
  validation_timer : option ValidatorThread;
  lidar_sensor_timer : option TrackerThread
}.

(** An executor with a robot attached: what all three loops work on. *)
Record Run := mkRun { self : Executor; robot : Robot }.

(** The capabilities of collaborators whose code is outside this module. *)
Class Collaborators := {
  (** [np.cos], [np.sin] *)
  np_cos : Q -> Q;
  np_sin : Q -> Q;
  (** [Pose.get_linear_distance] *)
  get_linear_distance : Pose -> Pose -> Q;
  (** [utils.trajectory.get_constant_speed_trajectory path linear_velocity
      max_angular_velocity] *)
  get_constant_speed_trajectory : Path -> Q -> option Q -> option Trajectory;
  (** [utils.trajectory.interpolate_trajectory traj dt] *)
  interpolate_trajectory : Trajectory -> Q -> option Trajectory;
  (** [World.is_path_collision_free path step_dist fog_hallways
      recorded_closed_hallways] *)
  is_path_collision_free : World -> Path -> Q -> bool -> gset nat -> bool;
  (** [Lidar2D.get_measurement], which depends on the world and on where the
      robot is *)
  get_measurement : Lidar2D -> World -> Pose -> list Q
}.

(** ** Field updates *)

Definition set_state (f : ExecState -> ExecState) (s : Run) : Run :=
  let e := self s in
  mkRun (mkExecutor (config e) (f (state e)) (traj e) (validation_timer e)
           (lidar_sensor_timer e))
        (robot s).

Definition set_current_traj_time (t : Q) : Run -> Run :=
  set_state (fun st => mkExecState t (following_path st) (abort_execution st)
                         (cancel_execution st) (hallway_states_updated st)).

Definition set_following_path (b : bool) : Run -> Run :=
  set_state (fun st => mkExecState (current_traj_time st) b (abort_execution st)
                         (cancel_execution st) (hallway_states_updated st)).

Definition set_abort_execution (b : bool) : Run -> Run :=
  set_state (fun st => mkExecState (current_traj_time st) (following_path st) b
                         (cancel_execution st) (hallway_states_updated st)).

Definition set_cancel_execution (b : bool) : Run -> Run :=
  set_state (fun st => mkExecState (current_traj_time st) (following_path st)
                         (abort_execution st) b (hallway_states_updated st)).

Definition set_hallway_states_updated (b : bool) : Run -> Run :=
  set_state (fun st => mkExecState (current_traj_time st) (following_path st)
                         (abort_execution st) (cancel_execution st) b).

Definition set_validation_timer (th : option ValidatorThread) (s : Run) : Run :=
  let e := self s in
  mkRun (mkExecutor (config e) (state e) (traj e) th (lidar_sensor_timer e))
        (robot s).

Definition set_lidar_sensor_timer (th : option TrackerThread) (s : Run) : Run :=
  let e := self s in
  mkRun (mkExecutor (config e) (state e) (traj e) (validation_timer e) th)
        (robot s).

Definition set_pose (p : Pose) (s : Run) : Run :=
  let r := robot s in
  mkRun (self s)
        (mkRobot p (battery_level r) (manipulated_object r) (world r)
           (fog_hallways r) (recorded_closed_hallways r) (sensors r)
           (path_planner r) (planner_resets r) (logger r) (last_nav_result r)).

Definition set_battery_level (b : Q) (s : Run) : Run :=
  let r := robot s in
  mkRun (self s)
        (mkRobot (pose r) b (manipulated_object r) (world r)
           (fog_hallways r) (recorded_closed_hallways r) (sensors r)
           (path_planner r) (planner_resets r) (logger r) (last_nav_result r)).

Definition set_manipulated_object (o : option Pose) (s : Run) : Run :=
  let r := robot s in
  mkRun (self s)
        (mkRobot (pose r) (battery_level r) o (world r)
           (fog_hallways r) (recorded_closed_hallways r) (sensors r)
           (path_planner r) (planner_resets r) (logger r) (last_nav_result r)).

Definition set_recorded_closed_hallways (c : gset nat) (s : Run) : Run :=
  let r := robot s in
  mkRun (self s)
        (mkRobot (pose r) (battery_level r) (manipulated_object r) (world r)
           (fog_hallways r) c (sensors r)
           (path_planner r) (planner_resets r) (logger r) (last_nav_result r)).

Definition set_last_nav_result (res : ExecutionResult) (s : Run) : Run :=
  let r := robot s in
  mkRun (self s)
        (mkRobot (pose r) (battery_level r) (manipulated_object r) (world r)
           (fog_hallways r) (recorded_closed_hallways r) (sensors r)
           (path_planner r) (planner_resets r) (logger r) (Some res)).

(** [robot.logger.info] and [robot.logger.warning]. *)
Definition log (msg : string) (s : Run) : Run :=
  let r := robot s in
  mkRun (self s)
        (mkRobot (pose r) (battery_level r) (manipulated_object r) (world r)
           (fog_hallways r) (recorded_closed_hallways r) (sensors r)
           (path_planner r) (planner_resets r) (logger r ++ [msg])
           (last_nav_result r)).

(** [robot.reset_path_planner()]: the call is counted. *)
Definition reset_path_planner (s : Run) : Run :=
  let r := robot s in
  mkRun (self s)
        (mkRobot (pose r) (battery_level r) (manipulated_object r) (world r)
           (fog_hallways r) (recorded_closed_hallways r) (sensors r)
           (path_planner r) (S (planner_resets r)) (logger r)
           (last_nav_result r)).

(** Readers for the executor's attributes on a run. *)
Definition flags (s : Run) : ExecState := state (self s).
Definition cfg (s : Run) : Config := config (self s).

Section Loops.

Context {ext : Collaborators}.

(** ** The hallway tracker: [detect_closed_hallway] *)

(** The beams of one measurement that hit something, as world-frame points:
    the loop over [zip(measured_angles, measured_lengths)] that fills
    [analyse_pose]. *)
Fixpoint analyse_pose (cur_pose : Pose) (max_range : Q)
    (measured_angles measured_lengths : list Q) : list (Q * Q) :=
  match measured_angles, measured_lengths with
  | angle :: angles', length :: lengths' =>
      let rest := analyse_pose cur_pose max_range angles' lengths' in
      if Qltb length max_range then
        let adjusted_angle := (angle + get_yaw cur_pose)%Q in
        let x := (pose_x cur_pose + length * np_cos adjusted_angle)%Q in
        let y := (pose_y cur_pose + length * np_sin adjusted_angle)%Q in
        (x, y) :: rest
      else rest
  | _, _ => []
  end.

Definition added_message (hallway : Hallway) : string :=
  "Added " +:+ name hallway +:+ " into closed knowledge.".

Definition removed_message (hallway : Hallway) : string :=
  "Removed " +:+ name hallway +:+ " from closed knowledge.".

(** The inner loop over [world.hallways] for one point; each [break] is a
    branch that does not recurse. *)
Fixpoint scan_hallways (hs : list Hallway) (pt : Q * Q) (s : Run) : Run :=
  match hs with
  | [] => s
  | hallway :: hs' =>
      let recorded := recorded_closed_hallways (robot s) in
      if intersects_xy (internal_collision_polygon hallway) pt.1 pt.2 then
        if negb (is_open hallway) then
          if negb (bool_decide (hallway_id hallway ∈ recorded)) then
            let s := set_recorded_closed_hallways
                       (recorded ∪ {[hallway_id hallway]}) s in
            let s := log (added_message hallway) s in
            set_hallway_states_updated true s
          else scan_hallways hs' pt s
        else
          if bool_decide (hallway_id hallway ∈ recorded) then
            let s := set_recorded_closed_hallways
                       (recorded ∖ {[hallway_id hallway]}) s in
            let s := log (removed_message hallway) s in
            set_hallway_states_updated true s
          else scan_hallways hs' pt s
      else scan_hallways hs' pt s
  end.

(** The condition of both background [while] loops. *)
Definition loop_condition (s : Run) : bool :=
  following_path (flags s) && negb (abort_execution (flags s)).

(** One step of a tracker thread.  [LStart] runs the checks before the loop;
    [LLoop] tests the loop condition and takes a measurement; [LScan] tests
    one point against the hallways.  A thread that would raise (the world has
    gone) ends. *)
Definition tracker_step (th : TrackerThread) (s : Run) : TrackerThread * Run :=
  match th with
  | LStart =>
      match world (robot s) with
      | None => (LDone, s)
      | Some _ =>
          match lidar_sensor_name (cfg s) with
          | None =>
              (LDone,
               log "No lidar sensor name provided. Cannot detect closed hallway." s)
          | Some sensor_name =>
              match sensors (robot s) !! sensor_name with
              | Some (SensorLidar2D lidar_sensor) => (LLoop lidar_sensor, s)
              | _ =>
                  (LDone,
                   log "Lidar sensor is not a 2D lidar. Cannot detect closed hallway." s)
              end
          end
      end
  | LLoop lidar_sensor =>
      if loop_condition s then
        match world (robot s) with
        | None => (LDone, s)
        | Some w =>
            let cur_pose := pose (robot s) in
            let measured_lengths := get_measurement lidar_sensor w cur_pose in
            (LScan lidar_sensor
               (analyse_pose cur_pose (max_range_m lidar_sensor)
                  (angles lidar_sensor) measured_lengths), s)
        end
      else (LDone, s)
  | LScan lidar_sensor [] => (LLoop lidar_sensor, s)
  | LScan lidar_sensor (pt :: pts) =>
      match world (robot s) with
      | None => (LDone, s)
      | Some w => (LScan lidar_sensor pts, scan_hallways (hallways w) pt s)
      end
  | LDone => (LDone, s)
  end.

(** ** The path validator: [validate_remaining_path] *)

(** [for idx, t in enumerate(t_pts): if t >= cur_time: break], returning the
    value [idx] is left with.  On an empty sequence [idx] is never bound. *)
Fixpoint enumerate_break (cur_time : Q) (idx : nat) (ts : list Q) : option nat :=
  match ts with
  | [] => None
  | t :: ts' =>
      if Qle_bool cur_time t then Some idx
      else match ts' with
           | [] => Some idx
           | _ :: _ => enumerate_break cur_time (S idx) ts'
           end
  end.

(** What one iteration of the validator decides. *)
Inductive Validation :=
| ValidationExit
| ValidationChecked (remaining_path : Path) (collision_free : bool)
| ValidationSkipped.

(** The body of the validator's loop up to the collision check.
    [ValidationChecked] records the path handed to
    [is_path_collision_free] and its answer. *)
Definition validate_iteration (tr : Trajectory) (s : Run) : Validation :=
  let cur_pose := pose (robot s) in
  let cur_time := current_traj_time (flags s) in
  match enumerate_break cur_time 0 (t_pts tr) with
  | None => ValidationExit
  | Some idx =>
      if idx =? num_points tr - 1 then ValidationExit
      else
        let remaining := cur_pose :: drop idx (poses tr) in
        if 2 <? length remaining then
          match world (robot s) with
          | None => ValidationSkipped
          | Some w =>
              ValidationChecked remaining
                (is_path_collision_free w remaining
                   (validation_step_dist (cfg s)) (fog_hallways (robot s))
                   (recorded_closed_hallways (robot s)))
          end
        else ValidationSkipped
  end.

Definition collision_message : string :=
  "Remaining path is in collision. Aborting execution.".

(** One step of a validator thread.  [VStart] is the check before the loop;
    [VLoop] tests the loop condition and runs one iteration up to the
    collision check; [VAbortPending] logs and writes [abort_execution]. *)
Definition validator_step (th : ValidatorThread) (s : Run)
    : ValidatorThread * Run :=
  match th with
  | VStart =>
      match traj (self s) with
      | None => (VDone, s)
      | Some _ => (VLoop, s)
      end
  | VLoop =>
      if loop_condition s then
        match traj (self s) with
        | None => (VDone, s)
        | Some tr =>
            match validate_iteration tr s with
            | ValidationExit => (VDone, s)
            | ValidationChecked _ false => (VAbortPending, s)
            | ValidationChecked _ true => (VLoop, s)
            | ValidationSkipped => (VLoop, s)
            end
        end
      else (VDone, s)
  | VAbortPending =>
      (VLoop, set_abort_execution true (log collision_message s))
  | VDone => (VDone, s)
  end.

(** ** Actors and schedules *)

(** Who may run while the main loop is between two of its own steps: the two
    background threads, and a user who requests cancellation. *)
Inductive Actor := Validator | Tracker | User.

Definition act (a : Actor) (s : Run) : Run :=
  match a with
  | Validator =>
      match validation_timer (self s) with
      | None => s
      | Some th =>
          let '(th', s') := validator_step th s in
          set_validation_timer (Some th') s'
      end
  | Tracker =>
      match lidar_sensor_timer (self s) with
      | None => s
      | Some th =>
          let '(th', s') := tracker_step th s in
          set_lidar_sensor_timer (Some th') s'
      end
  | User => set_cancel_execution true s
  end.

Definition interfere (acts : list Actor) (s : Run) : Run :=
  fold_left (fun s a => act a s) acts s.

(** The places of [execute] where the other actors get to run; [i] is the
    index of the tick. *)
Inductive Point :=
| AtStart
| BeforeAbortCheck (i : nat)
| DuringJoinValidator (i : nat)
| DuringJoinTracker (i : nat)
| BeforeCancelCheck (i : nat)
| DuringSleep (i : nat)
| AfterLoop
| BeforeFinalReset
| DuringGrace.

Definition Schedule := Point -> list Actor.

(** ** Joining a thread *)

Definition finished (a : Actor) (s : Run) : bool :=
  match a with
  | Validator =>
      match validation_timer (self s) with Some VDone => true | _ => false end
  | Tracker =>
      match lidar_sensor_timer (self s) with Some LDone => true | _ => false end
  | User => true
  end.

(** The thread runs on its own until it has ended, for at most [fuel]
    steps. *)
Fixpoint run_alone (a : Actor) (fuel : nat) (s : Run) : bool * Run :=
  if finished a s then (true, s)
  else match fuel with
       | O => (false, s)
       | S fuel' => run_alone a fuel' (act a s)
       end.

(** Steps after which a thread running on its own has either ended or is
    back at its loop head with the loop condition true, from where it goes
    round for ever: nobody else writes the two flags of the condition. *)
Definition join_fuel (a : Actor) (s : Run) : nat :=
  match a with
  | Tracker =>
      match lidar_sensor_timer (self s) with
      | Some (LScan _ pts) => length pts + 3
      | _ => 3
      end
  | _ => 3
  end.

(** [thread.join()]: the caller waits while the others run ([acts]), and
    goes on once the thread has ended.  [false]: the caller waits for ever. *)
Definition join (a : Actor) (acts : list Actor) (s : Run) : bool * Run :=
  let s := interfere acts s in
  run_alone a (join_fuel a s) s.

(** ** The main loop of [execute] *)

Definition reset_state : Run -> Run :=
  set_state (fun _ => mkExecState 0 false false false false).

Inductive TickOutcome :=
| Continue
| Break (st : ExecutionStatus) (msg : string)
| Blocked.

(** The head of a tick: time and pose of sample [i] are written. *)
Definition push_sample (smp : Q * Pose) (s : Run) : Run :=
  let cur_pose := smp.2 in
  let s := set_current_traj_time smp.1 s in
  let s := set_pose cur_pose s in
  match manipulated_object (robot s) with
  | Some _ => set_manipulated_object (Some cur_pose) s
  | None => s
  end.

(** The state in which tick [i] reads [abort_execution]. *)
Definition at_abort_check (sched : Schedule) (i : nat) (smp : Q * Pose)
    (s : Run) : Run :=
  interfere (sched (BeforeAbortCheck i)) (push_sample smp s).

(** The state in which tick [i] reads [cancel_execution], when it gets
    there. *)
Definition at_cancel_check (sched : Schedule) (i : nat) (smp : Q * Pose)
    (s : Run) : Run :=
  interfere (sched (BeforeCancelCheck i)) (at_abort_check sched i smp s).

(** The two joins of the abort branch. *)
Definition join_threads (sched : Schedule) (i : nat) (s : Run) : bool * Run :=
  let '(ok, s) :=
    if validate_during_execution (cfg s)
       && bool_decide (is_Some (validation_timer (self s)))
    then join Validator (sched (DuringJoinValidator i)) s
    else (true, s) in
  if ok then
    if fog_hallways (robot s)
       && bool_decide (is_Some (lidar_sensor_timer (self s)))
    then join Tracker (sched (DuringJoinTracker i)) s
    else (true, s)
  else (false, s).

(** The message of a run that meets no stop condition: the empty string. *)
Definition no_message : string := EmptyString.

Definition aborted_message : string := "Trajectory execution aborted.".
Definition canceled_message : string := "Trajectory execution canceled by user.".
Definition depleted_message : string := "Battery depleted while navigating.".

(** One iteration of [for i in range(traj_interp.num_points())]. *)
Definition tick (sched : Schedule) (battery_usage : Q) (i : nat)
    (prev_pose : Pose) (smp : Q * Pose) (s : Run) : TickOutcome * Run :=
  let cur_pose := smp.2 in
  let s := at_abort_check sched i smp s in
  if abort_execution (flags s) then
    let '(ok, s) := join_threads sched i s in
    if ok then (Break EXECUTION_FAILURE aborted_message, log aborted_message s)
    else (Blocked, s)
  else
    let s := interfere (sched (BeforeCancelCheck i)) s in
    if cancel_execution (flags s) then
      let s := set_cancel_execution false s in
      (Break CANCELED canceled_message, log canceled_message s)
    else
      let s := set_battery_level
                 (battery_level (robot s)
                  - battery_usage * get_linear_distance cur_pose prev_pose)%Q s in
      if Qle_bool (battery_level (robot s)) 0 then
        let s := set_battery_level 0 s in
        (Break EXECUTION_FAILURE depleted_message, log depleted_message s)
      else (Continue, interfere (sched (DuringSleep i)) s).

(** The [for] loop from tick [i] on; [Continue] means it ran off the end. *)
Fixpoint main_loop (sched : Schedule) (battery_usage : Q) (i : nat)
    (prev_pose : Pose) (samples : Trajectory) (s : Run) : TickOutcome * Run :=
  match samples with
  | [] => (Continue, s)
  | smp :: rest =>
      match tick sched battery_usage i prev_pose smp s with
      | (Continue, s') => main_loop sched battery_usage (S i) smp.2 rest s'
      | stop => stop
      end
  end.

Definition is_graph_planner (p : option PathPlanner) : bool :=
  match p with
  | Some PRMPlanner | Some AStarPlanner => true
  | _ => false
  end.

(** The state in which [execute] reads [hallway_states_updated] after the
    loop. *)
Definition at_planner_check (sched : Schedule) (s : Run) : Run :=
  interfere (sched AfterLoop) s.

(** Lines 185-190: the planner is reset when hallway knowledge has changed
    and the planner is a PRM or an A* planner. *)
Definition check_planner (s : Run) : Run :=
  if hallway_states_updated (flags s) then
    if is_graph_planner (path_planner (robot s)) then reset_path_planner s
    else s
  else s.

(** The state right after the final [reset_state]. *)
Definition at_final_reset (sched : Schedule) (s : Run) : Run :=
  reset_state
    (interfere (sched BeforeFinalReset)
       (check_planner (at_planner_check sched s))).

(** What follows the loop: the planner check, the final [reset_state], the
    grace period and the result. *)
Definition finalize (sched : Schedule) (st : ExecutionStatus) (msg : string)
    (s : Run) : ExecutionResult * Run :=
  let s := at_final_reset sched s in
  let s := interfere (sched DuringGrace) s in
  let res := mkResult st msg in
  (res, set_last_nav_result res s).

(** ** [execute] *)

(** The executor and the robot attached to it, if any. *)
Record System := mkSystem { sys_self : Executor; sys_robot : option Robot }.

Definition attach (s : Run) : System := mkSystem (self s) (Some (robot s)).

Inductive Outcome :=
| Returned (res : ExecutionResult)
| Raised (exn : string)
| Hang.

Definition set_traj (tr : option Trajectory) (s : Run) : Run :=
  let e := self s in
  mkRun (mkExecutor (config e) (state e) tr (validation_timer e)
           (lidar_sensor_timer e))
        (robot s).

(** Lines 127-137: the first [reset_state] and the start of the threads.
    An attribute is rebound to the thread that is started; the model follows
    the thread an attribute holds, so a thread of an earlier call that is
    still running when its attribute is rebound is outside it. *)
Definition start_run (s : Run) : Run :=
  let s := reset_state s in
  let s := set_following_path true s in
  let s :=
    if validate_during_execution (cfg s)
       && bool_decide (is_Some (world (robot s)))
    then set_validation_timer (Some VStart) s
    else s in
  if fog_hallways (robot s) then set_lidar_sensor_timer (Some LStart) s else s.

Definition precondition_failure (msg : string) (s : Run) : Outcome * System :=
  (Returned (mkResult PRECONDITION_FAILURE msg), attach (log msg s)).

(** From the point where both threads may run to the return: the main loop
    and what follows it.  [dt / realtime_factor] raises on a zero factor, and
    [traj_interp.poses[0]] on an empty trajectory.  [time.sleep] is taken to
    return: a sleep time beyond the range of the clock of the platform, for
    which it raises, is outside the model. *)
Definition follow (sched : Schedule) (realtime_factor battery_usage : Q)
    (traj_interp : Trajectory) (s : Run) : Outcome * System :=
  let s := interfere (sched AtStart) s in
  if Qeq_bool realtime_factor 0 then (Raised "ZeroDivisionError", attach s)
  else
    match traj_interp with
    | [] => (Raised "IndexError", attach s)
    | smp0 :: _ =>
        match main_loop sched battery_usage 0 smp0.2 traj_interp s with
        | (Blocked, s) => (Hang, attach s)
        | (Break st msg, s) =>
            let '(res, s) := finalize sched st msg s in
            (Returned res, attach s)
        | (Continue, s) =>
            let '(res, s) := finalize sched SUCCESS no_message s in
            (Returned res, attach s)
        end
    end.

(** [execute].  The warning for a missing robot goes to the global logger,
    which is not part of the model; the other warnings go to the logger of
    the robot. *)
Definition execute (sched : Schedule) (path : Path)
    (realtime_factor battery_usage : Q) (w : System) : Outcome * System :=
  match sys_robot w with
  | None =>
      (Returned (mkResult PRECONDITION_FAILURE
                   "No robot attached to execute the trajectory."), w)
  | Some r =>
      let s := mkRun (sys_self w) r in
      if num_poses path <? 2 then
        precondition_failure "Not enough waypoints in path to execute." s
      else
        let s := set_traj (get_constant_speed_trajectory path
                             (linear_velocity (cfg s))
                             (max_angular_velocity (cfg s))) s in
        match traj (self s) with
        | None => precondition_failure "Failed to get trajectory from path." s
        | Some tr =>
            match interpolate_trajectory tr (dt (cfg s)) with
            | None => precondition_failure "Failed to interpolate trajectory." s
            | Some traj_interp =>
                follow sched realtime_factor battery_usage traj_interp
                  (start_run s)
            end
        end
  end.

(** ** Vocabulary for the statements *)

(** The interpolated trajectory and the state in which the threads have just
    been started, for a call that passes the precondition checks. *)
Definition prepared (path : Path) (w : System) : option (Trajectory * Run) :=
  match sys_robot w with
  | None => None
  | Some r =>
      if num_poses path <? 2 then None
      else
        let c := config (sys_self w) in
        match get_constant_speed_trajectory path (linear_velocity c)
                (max_angular_velocity c) with
        | None => None
        | Some tr =>
            match interpolate_trajectory tr (dt c) with
            | None => None
            | Some traj_interp =>
                Some (traj_interp,
                      start_run (set_traj (Some tr) (mkRun (sys_self w) r)))
            end
        end
  end.

(** [prev_pose] as tick [i] finds it: the first pose at tick 0, the pose of
    the sample before otherwise. *)
Definition prev_pose_at (traj_interp : Trajectory) (i : nat) : option Pose :=
  snd <$> traj_interp !! pred i.

(** The state in which tick [i] starts, when the loop gets that far: the
    ticks before it have all run to their end.  [s] is the state in which the
    threads have just been started. *)
Definition tick_entry (sched : Schedule) (battery_usage : Q)
    (traj_interp : Trajectory) (s : Run) (i : nat) : option Run :=
  match traj_interp with
  | [] => None
  | smp0 :: _ =>
      match main_loop sched battery_usage 0 smp0.2 (take i traj_interp)
              (interfere (sched AtStart) s) with
      | (Continue, s_i) => Some s_i
      | _ => None
      end
  end.

(** The threads held by the two attributes. *)
Definition threads (s : Run) : option ValidatorThread * option TrackerThread :=
  (validation_timer (self s), lidar_sensor_timer (self s)).

(** The battery level a tick computes before it compares it with 0. *)
Definition drained (sched : Schedule) (bu : Q) (i : nat) (prev : Pose)
    (smp : Q * Pose) (s : Run) : Q :=
  (battery_level (robot (at_cancel_check sched i smp s))
   - bu * get_linear_distance smp.2 prev)%Q.

(** [prev_pose] after the samples [done] have been run through. *)
Definition pose_after (prev : Pose) (done : Trajectory) : Pose :=
  default prev (snd <$> last done).

(** What only the main loop writes on the robot. *)
Definition body (s : Run) : Pose * Q * option Pose :=
  (pose (robot s), battery_level (robot s), manipulated_object (robot s)).

(** How many steps a thread needs to end once [abort_execution] is set. *)
Definition validator_steps_left (th : ValidatorThread) : nat :=
  match th with
  | VDone => 0
  | VLoop => 1
  | VStart | VAbortPending => 2
  end.

Definition tracker_steps_left (th : TrackerThread) : nat :=
  match th with
  | LDone => 0
  | LLoop _ => 1
  | LStart => 2
  | LScan _ pts => length pts + 2
  end.

(** The baseline of the execution state. *)
Definition baseline : ExecState := mkExecState 0 false false false false.

(** A thread attribute that holds no running thread. *)
Definition validator_stopped (s : Run) : Prop :=
  validation_timer (self s) = None \/ validation_timer (self s) = Some VDone.

Definition tracker_stopped (s : Run) : Prop :=
  lidar_sensor_timer (self s) = None \/ lidar_sensor_timer (self s) = Some LDone.

(** What the other actors leave alone, and the three flags they only ever
    raise. *)
Record frame (s s' : Run) : Prop := mkFrame {
  frame_pose : pose (robot s') = pose (robot s);
  frame_battery : battery_level (robot s') = battery_level (robot s);
  frame_object : manipulated_object (robot s') = manipulated_object (robot s);
  frame_world : world (robot s') = world (robot s);
  frame_fog : fog_hallways (robot s') = fog_hallways (robot s);
  frame_sensors : sensors (robot s') = sensors (robot s);
  frame_planner : path_planner (robot s') = path_planner (robot s);
  frame_resets : planner_resets (robot s') = planner_resets (robot s);
  frame_result : last_nav_result (robot s') = last_nav_result (robot s);
  frame_config : cfg s' = cfg s;
  frame_traj : traj (self s') = traj (self s);
  frame_time : current_traj_time (flags s') = current_traj_time (flags s);
  frame_following : following_path (flags s') = following_path (flags s);
  frame_abort :
    abort_execution (flags s) = true -> abort_execution (flags s') = true;
  frame_cancel :
    cancel_execution (flags s) = true -> cancel_execution (flags s') = true;
  frame_updated :
    hallway_states_updated (flags s) = true ->
    hallway_states_updated (flags s') = true
}.

(** What no step of a run changes before the loop has ended, whoever takes
    it; a thread attribute that holds a thread keeps holding one. *)
Record steady (s s' : Run) : Prop := mkSteady {
  steady_config : cfg s' = cfg s;
  steady_traj : traj (self s') = traj (self s);
  steady_world : world (robot s') = world (robot s);
  steady_fog : fog_hallways (robot s') = fog_hallways (robot s);
  steady_sensors : sensors (robot s') = sensors (robot s);
  steady_planner : path_planner (robot s') = path_planner (robot s);
  steady_resets : planner_resets (robot s') = planner_resets (robot s);
  steady_result : last_nav_result (robot s') = last_nav_result (robot s);
  steady_validator :
    is_Some (validation_timer (self s)) ->
    is_Some (validation_timer (self s'));
  steady_tracker :
    is_Some (lidar_sensor_timer (self s)) ->
    is_Some (lidar_sensor_timer (self s'));
  steady_validator_stopped : validator_stopped s -> validator_stopped s';
  steady_tracker_stopped : tracker_stopped s -> tracker_stopped s'
}.

(** The points of [execute] that come after the last flag check of the
    loop. *)
Definition late_point (p : Point) : bool :=
  match p with
  | DuringJoinValidator _ | DuringJoinTracker _
  | AfterLoop | BeforeFinalReset | DuringGrace => true
  | _ => false
  end.

(** The points that come after the last flag check of a loop over [n]
    samples, whichever way it ends: those, and the sleep of the last tick. *)
Definition after_last_check (n : nat) (p : Point) : bool :=
  match p with
  | DuringSleep i => bool_decide (S i = n)
  | _ => late_point p
  end.

(** What a call that fails its precondition checks leaves as it was: the
    execution state, the configuration, the threads, and on the robot the
    pose, the battery level, the held object, the hallway knowledge, the
    planner and the last navigation result. *)
Definition untouched (w w' : System) : Prop :=
  state (sys_self w') = state (sys_self w)
  /\ config (sys_self w') = config (sys_self w)
  /\ validation_timer (sys_self w') = validation_timer (sys_self w)
  /\ lidar_sensor_timer (sys_self w') = lidar_sensor_timer (sys_self w)
  /\ match sys_robot w, sys_robot w' with
     | None, None => True
     | Some r, Some r' =>
         pose r' = pose r
         /\ battery_level r' = battery_level r
         /\ manipulated_object r' = manipulated_object r
         /\ recorded_closed_hallways r' = recorded_closed_hallways r
         /\ planner_resets r' = planner_resets r
         /\ last_nav_result r' = last_nav_result r
     | _, _ => False
     end.

(** *** The tracker in the words of its description *)

(** A beam that hit something: its range is below the maximum. *)
Definition beam_in_range (max_range : Q) (beam : Q * Q) : bool :=
  Qltb beam.2 max_range.

(** The world-frame point of a beam (angle, range) seen from [cur_pose]. *)
Definition world_frame_point (cur_pose : Pose) (beam : Q * Q) : Q * Q :=
  ((pose_x cur_pose + beam.2 * np_cos (beam.1 + get_yaw cur_pose))%Q,
   (pose_y cur_pose + beam.2 * np_sin (beam.1 + get_yaw cur_pose))%Q).

(** Ground truth and record disagree: closed and not recorded, or open and
    recorded. *)
Definition state_disagrees (recorded : gset nat) (h : Hallway) : bool :=
  if is_open h then bool_decide (hallway_id h ∈ recorded)
  else negb (bool_decide (hallway_id h ∈ recorded)).

(** The first hallway that contains the point and whose state disagrees with
    the record. *)
Definition first_disagreeing_hallway (hs : list Hallway) (pt : Q * Q)
    (recorded : gset nat) : option Hallway :=
  List.find (fun h => intersects_xy (internal_collision_polygon h) pt.1 pt.2
                      && state_disagrees recorded h) hs.

(** The record after the update of hallway [h]. *)
Definition updated_record (h : Hallway) (recorded : gset nat) : gset nat :=
  if is_open h then recorded ∖ {[hallway_id h]}
  else recorded ∪ {[hallway_id h]}.

Definition update_message (h : Hallway) : string :=
  if is_open h then removed_message h else added_message h.

(** *** Vocabulary for further properties *)

(** The distance the loop charges for: from [prev] through the samples. *)
Fixpoint travelled (prev : Pose) (samples : Trajectory) : Q :=
  match samples with
  | [] => 0%Q
  | smp :: rest =>
      (get_linear_distance smp.2 prev + travelled smp.2 rest)%Q
  end.

(** Every result [execute] has a [return] for. *)
Definition possible_results : list ExecutionResult :=
  [ mkResult PRECONDITION_FAILURE "No robot attached to execute the trajectory.";
    mkResult PRECONDITION_FAILURE "Not enough waypoints in path to execute.";
    mkResult PRECONDITION_FAILURE "Failed to get trajectory from path.";
    mkResult PRECONDITION_FAILURE "Failed to interpolate trajectory.";
    mkResult SUCCESS no_message;
    mkResult EXECUTION_FAILURE aborted_message;
    mkResult CANCELED canceled_message;
    mkResult EXECUTION_FAILURE depleted_message ].

(** What the main loop itself never writes: between [s] and [s'] only the
    trajectory time, the cancel flag, the pose, the held object, the battery
    level and the log may differ. *)
Record main_write (s s' : Run) : Prop := mkMainWrite {
  mw_threads : threads s' = threads s;
  mw_config : cfg s' = cfg s;
  mw_traj : traj (self s') = traj (self s);
  mw_following : following_path (flags s') = following_path (flags s);
  mw_abort : abort_execution (flags s') = abort_execution (flags s);
  mw_updated :
    hallway_states_updated (flags s') = hallway_states_updated (flags s);
  mw_world : world (robot s') = world (robot s);
  mw_fog : fog_hallways (robot s') = fog_hallways (robot s);
  mw_sensors : sensors (robot s') = sensors (robot s);
  mw_recorded :
    recorded_closed_hallways (robot s') = recorded_closed_hallways (robot s);
  mw_planner : path_planner (robot s') = path_planner (robot s);
  mw_resets : planner_resets (robot s') = planner_resets (robot s);
  mw_result : last_nav_result (robot s') = last_nav_result (robot s)
}.

(** The set-up of a run: what [execute] only reads. *)
Definition same_setup (s s' : Run) : Prop :=
  cfg s' = cfg s
  /\ world (robot s') = world (robot s)
  /\ fog_hallways (robot s') = fog_hallways (robot s)
  /\ sensors (robot s') = sensors (robot s)
  /\ path_planner (robot s') = path_planner (robot s).

(** The lidar the checks before the tracker's loop let through, if any. *)
Definition usable_lidar (s : Run) : option Lidar2D :=
  match world (robot s), lidar_sensor_name (cfg s) with
  | Some _, Some sensor_name =>
      match sensors (robot s) !! sensor_name with
      | Some (SensorLidar2D lidar_sensor) => Some lidar_sensor
      | _ => None
      end
  | _, _ => None
  end.

(** A tracker thread that will never take a measurement: there is none, it
    has ended, or it is about to fail its checks. *)
Definition tracker_idle (s : Run) : Prop :=
  match lidar_sensor_timer (self s) with
  | None | Some LDone => True
  | Some LStart => usable_lidar s = None
  | Some _ => False
  end.

(** The tracker will never measure, the knowledge is [recorded0] and its
    flag is clear. *)
Definition idle_with (recorded0 : gset nat) (s : Run) : Prop :=
  tracker_idle s
  /\ recorded_closed_hallways (robot s) = recorded0
  /\ hallway_states_updated (flags s) = false.

(** The hallways that contain the point and disagree with the record. *)
Definition disagreeing_hallways (hs : list Hallway) (pt : Q * Q)
    (recorded : gset nat) : list Hallway :=
  List.filter (fun h => intersects_xy (internal_collision_polygon h) pt.1 pt.2
                        && state_disagrees recorded h) hs.

(** The hallways of the world of the robot: what the tracker iterates on. *)
Definition world_hallways (r : Robot) : list Hallway :=
  match world r with
  | Some w => hallways w
  | None => []
  end.

(** Between two records, every hallway that came in is a closed hallway of
    [hs] and every hallway that went out is an open one. *)
Definition moved_towards_truth (hs : list Hallway) (before after : gset nat)
    : Prop :=
  (forall i, i ∈ after -> i ∉ before ->
     exists h, h ∈ hs /\ hallway_id h = i /\ is_open h = false)
  /\ (forall i, i ∈ before -> i ∉ after ->
       exists h, h ∈ hs /\ hallway_id h = i /\ is_open h = true).

(** The same point tested [n] times in a row. *)
Fixpoint scan_repeatedly (n : nat) (hs : list Hallway) (pt : Q * Q) (s : Run)
    : Run :=
  match n with
  | O => s
  | S n' => scan_repeatedly n' hs pt (scan_hallways hs pt s)
  end.

End Loops.

(** ** The configuration record: [__init__] and [to_dict] *)

(** The values a configuration record holds. *)
Inductive Value :=
| VFloat (q : Q)
| VBool (b : bool)
| VStr (s : string)
| VNone.

Definition float_or_none (o : option Q) : Value :=
  match o with Some q => VFloat q | None => VNone end.

Definition str_or_none (o : option string) : Value :=
  match o with Some s => VStr s | None => VNone end.

(** [__init__]: the eight arguments are stored, no thread exists and the
    execution state is reset. *)
Definition init (dt linear_velocity : Q) (max_angular_velocity : option Q)
    (validate_during_execution : bool) (validation_dt validation_step_dist : Q)
    (lidar_sensor_name : option string) (lidar_sensor_measurement_dt : Q)
    : Executor :=
  mkExecutor
    (mkConfig dt linear_velocity max_angular_velocity validate_during_execution
       validation_dt validation_step_dist lidar_sensor_name
       lidar_sensor_measurement_dt)
    (mkExecState 0 false false false false) None None None.

(** The default arguments of [__init__]. *)
Definition default_config : Config :=
  mkConfig (1 # 10) 1 None false (1 # 2) (1 # 40) None (1 # 4).

Definition to_dict (e : Executor) : gmap string Value :=
  let c := config e in
  list_to_map
    [ ("type", VStr "constant_velocity");
      ("dt", VFloat (dt c));
      ("linear_velocity", VFloat (linear_velocity c));
      ("max_angular_velocity", float_or_none (max_angular_velocity c));
      ("validate_during_execution", VBool (validate_during_execution c));
      ("validation_dt", VFloat (validation_dt c));
      ("validation_step_dist", VFloat (validation_step_dist c));
      ("lidar_sensor_name", str_or_none (lidar_sensor_name c));
      ("lidar_sensor_measurement_dt", VFloat (lidar_sensor_measurement_dt c)) ].

(** The field names of the record. *)
Definition config_fields : gset string :=
  {[ "type"; "dt"; "linear_velocity"; "max_angular_velocity";
     "validate_during_execution"; "validation_dt"; "validation_step_dist";
     "lidar_sensor_name"; "lidar_sensor_measurement_dt" ]}.

Definition float_field (d : gmap string Value) (k : string) (default : Q)
    : option Q :=
  match d !! k with
  | None => Some default
  | Some (VFloat q) => Some q
  | Some _ => None
  end.

Definition optional_float_field (d : gmap string Value) (k : string)
    : option (option Q) :=
  match d !! k with
  | None | Some VNone => Some None
  | Some (VFloat q) => Some (Some q)
  | Some _ => None
  end.

Definition bool_field (d : gmap string Value) (k : string) (default : bool)
    : option bool :=
  match d !! k with
  | None => Some default
  | Some (VBool b) => Some b
  | Some _ => None
  end.

Definition optional_str_field (d : gmap string Value) (k : string)
    : option (option string) :=
  match d !! k with
  | None | Some VNone => Some None
  | Some (VStr s) => Some (Some s)
  | Some _ => None
  end.

(** Modelled from the spec: the deserializer of the configuration record is
    not in this module.  The record names the variant in [type]; its other
    fields are the keyword arguments of [__init__], an absent one taking the
    constructor's default. *)
Definition from_dict (d : gmap string Value) : option Executor :=
  match d !! "type" with
  | Some (VStr "constant_velocity") =>
      dt ← float_field d "dt" (dt default_config);
      lv ← float_field d "linear_velocity" (linear_velocity default_config);
      mav ← optional_float_field d "max_angular_velocity";
      vde ← bool_field d "validate_during_execution"
              (validate_during_execution default_config);
      vdt ← float_field d "validation_dt" (validation_dt default_config);
      vsd ← float_field d "validation_step_dist"
              (validation_step_dist default_config);
      lsn ← optional_str_field d "lidar_sensor_name";
      lsd ← float_field d "lidar_sensor_measurement_dt"
              (lidar_sensor_measurement_dt default_config);
      Some (init dt lv mav vde vdt vsd lsn lsd)
  | _ => None
  end.

(** ** Plotting: [plot_path_planner] and [plot_scan_poses] *)

(** [navigation/visualization.py].  An artist is represented by what was
    asked of the plotting library for it: the data, and the colour where it
    is an argument; the other keyword arguments are constants of the code and
    are named in the comments.  The axes are the list of the artists drawn on
    them, oldest first. *)

Inductive Color :=
| NamedColor (c : string)
| RGBColor (rgb : list Q).

Record Node := mkNode { node_pose : Pose }.

Record Edge := mkEdge { nodeA : Node; nodeB : Node }.

(** A search graph, with its nodes and edges in the order they are iterated. *)
Record SearchGraph := mkSearchGraph {
  nodes : list Node;
  edges : list Edge;
  color : Color;
  color_alpha : Q
}.

Inductive Artist :=
(** [axes.plot(xs, ys, color=c, alpha=a, linestyle="", marker="o",
    markersize=3, zorder=1)] *)
| GraphMarkers (xs ys : list Q) (c : Color) (a : Q)
(** [LineCollection(segments, color=c, alpha=a, linewidth=0.5,
    linestyle="--", zorder=1)] *)
| GraphEdges (segments : list ((Q * Q) * (Q * Q))) (c : Color) (a : Q)
(** [axes.plot(xs, ys, linestyle="-", color=c, linewidth=3, alpha=0.5,
    zorder=1)] *)
| PathLine (xs ys : list Q) (c : Color)
(** [axes.plot(x, y, "go", zorder=2)] *)
| StartMarker (x y : Q)
(** [axes.plot(x, y, "rx", zorder=2)] *)
| GoalMarker (x y : Q)
(** [axes.plot(xs, ys, color='y', marker='1', linestyle='', markersize=3,
    zorder=1)] *)
| ScanMarkers (xs ys : list Q).

Abbreviation Axes := (list Artist).

Definition edge_coords (e : Edge) : (Q * Q) * (Q * Q) :=
  ((pose_x (node_pose (nodeA e)), pose_y (node_pose (nodeA e))),
   (pose_x (node_pose (nodeB e)), pose_y (node_pose (nodeB e)))).

(** The loop [for graph in graphs]: two artists per graph, drawn and
    appended to [graph_artists]. *)
Fixpoint plot_graphs (axes : Axes) (graph_artists : list Artist)
    (graphs : list SearchGraph) : Axes * list Artist :=
  match graphs with
  | [] => (axes, graph_artists)
  | graph :: rest =>
      let markers :=
        GraphMarkers (map (fun n => pose_x (node_pose n)) (nodes graph))
          (map (fun n => pose_y (node_pose n)) (nodes graph))
          (color graph) (color_alpha graph) in
      let axes := axes ++ [markers] in
      let graph_artists := graph_artists ++ [markers] in
      let line_segments :=
        GraphEdges (map edge_coords (edges graph)) (color graph)
          (color_alpha graph) in
      let axes := axes ++ [line_segments] in
      let graph_artists := graph_artists ++ [line_segments] in
      plot_graphs axes graph_artists rest
  end.

(** The branch [if path and path.num_poses > 0]: the line, the start marker
    at [x[0], y[0]] and the goal marker at [x[-1], y[-1]]. *)
Definition plot_path (axes : Axes) (path : option Path) (path_color : Color)
    : Axes * list Artist :=
  match path with
  | None => (axes, [])
  | Some path_poses =>
      if 0 <? num_poses path_poses then
        let x := map pose_x path_poses in
        let y := map pose_y path_poses in
        match head x, head y, last x, last y with
        | Some x0, Some y0, Some xl, Some yl =>
            let path_line := PathLine x y path_color in
            let start := StartMarker x0 y0 in
            let goal := GoalMarker xl yl in
            (axes ++ [path_line] ++ [start] ++ [goal],
             [path_line; start; goal])
        | _, _, _, _ => (axes, [])
        end
      else (axes, [])
  end.

Definition is_empty {A} (l : list A) : bool :=
  match l with [] => true | _ => false end.

(** [plot_path_planner]: the dictionary returned, and the axes after the
    call. *)
Definition plot_path_planner (axes : Axes) (graphs : list SearchGraph)
    (path : option Path) (path_color : Color)
    : gmap string (list Artist) * Axes :=
  let '(axes, graph_artists) := plot_graphs axes [] graphs in
  let '(axes, path_artists) := plot_path axes path path_color in
  let artists : gmap string (list Artist) := ∅ in
  let artists :=
    if is_empty graph_artists then artists
    else <["graph" := graph_artists]> artists in
  let artists :=
    if is_empty path_artists then artists
    else <["path" := path_artists]> artists in
  (artists, axes).

(** [plot_scan_poses]. *)
Definition plot_scan_poses (axes : Axes) (scan_poses : list Pose)
    : gmap string (list Artist) * Axes :=
  let markers := ScanMarkers (map pose_x scan_poses) (map pose_y scan_poses) in
  let axes := axes ++ [markers] in
  let poses_artists := [] ++ [markers] in
  let artists : gmap string (list Artist) := ∅ in
  let artists :=
    if is_empty poses_artists then artists
    else <["poses" := poses_artists]> artists in
  (artists, axes).

(** The two artists of one graph: its nodes and its edges. *)
Definition graph_artists_of (graph : SearchGraph) : list Artist :=
  [ GraphMarkers (map (fun n => pose_x (node_pose n)) (nodes graph))
      (map (fun n => pose_y (node_pose n)) (nodes graph))
      (color graph) (color_alpha graph);
    GraphEdges (map edge_coords (edges graph)) (color graph)
      (color_alpha graph) ].

(** ** A small world to run the model on *)

Module Demo.

(** The robot drives along the x axis and its lidar has one beam, straight
    ahead: distances are differences of x, and the two trigonometric
    functions are only asked at angle 0. *)
Definition cos0 (a : Q) : Q := if Qeq_bool a 0 then 1%Q else 0%Q.
Definition sin0 (a : Q) : Q := 0%Q.
Definition distance_x (p q : Pose) : Q := Qabs (pose_x p - pose_x q).

(** Timestamps at speed [v], starting from time [t] at pose [prev]. *)
Fixpoint stamps (v t : Q) (prev : Pose) (rest : Path) : Trajectory :=
  match rest with
  | [] => []
  | p :: rest' =>
      let t' := Qred (t + distance_x p prev / v) in
      (t', p) :: stamps v t' p rest'
  end.

Definition constant_speed (path : Path) (v : Q) (w : option Q)
    : option Trajectory :=
  match path with
  | p0 :: (_ :: _) as rest =>
      if Qle_bool v 0 then None else Some ((0%Q, p0) :: stamps v 0 p0 rest)
  | _ => None
  end.

(** Resampling that adds no sample. *)
Definition resample (tr : Trajectory) (dt : Q) : option Trajectory :=
  if length tr <? 2 then None else Some tr.

(** Every path runs through every hallway: it is free when no hallway is
    believed closed (under fog) or none is closed. *)
Definition collision_free (w : World) (path : Path) (step_dist : Q)
    (fog : bool) (recorded : gset nat) : bool :=
  if fog then bool_decide (recorded = ∅) else forallb is_open (hallways w).

(** Each beam returns range 1. *)
Definition measurement (lidar : Lidar2D) (w : World) (p : Pose) : list Q :=
  map (fun _ => 1%Q) (angles lidar).

#[export] Instance collaborators : Collaborators := {
  np_cos := cos0;
  np_sin := sin0;
  get_linear_distance := distance_x;
  get_constant_speed_trajectory := constant_speed;
  interpolate_trajectory := resample;
  is_path_collision_free := collision_free;
  get_measurement := measurement
}.

(** One closed hallway, covering x in [1/2, 5/2]. *)
Definition hall : Hallway :=
  mkHallway 7 "hall" false
    (fun x y => Qle_bool (1 # 2) x && Qle_bool x (5 # 2)).

Definition the_world : World := mkWorld [hall].

Definition lidar : Lidar2D := mkLidar [0%Q] 5.

Definition origin : Pose := mkPose 0 0 0.

Definition robot0 : Robot :=
  mkRobot origin 100 None (Some the_world) true ∅
    {["lidar" := SensorLidar2D lidar]} (Some PRMPlanner) 0 [] None.

(** An executor that validates during execution and tracks hallways. *)
Definition executor0 : Executor :=
  init (1 # 10) 1 None true (1 # 2) (1 # 40) (Some "lidar") (1 # 4).

Definition system0 : System := mkSystem executor0 (Some robot0).

(** The same, with the hallway already believed closed. *)
Definition robot1 : Robot :=
  mkRobot origin 100 None (Some the_world) true {[7]}
    {["lidar" := SensorLidar2D lidar]} (Some PRMPlanner) 0 [] None.

Definition system1 : System := mkSystem executor0 (Some robot1).

(** Three waypoints on the x axis, and the trajectory through them at
    speed 1. *)
Definition path3 : Path := [origin; mkPose 1 0 0; mkPose 2 0 0].

Definition traj3 : Trajectory :=
  [(0%Q, origin); (1%Q, mkPose 1 0 0); (2%Q, mkPose 2 0 0)].

(** The two systems when their threads have just been started on [path3]. *)
Definition run0 : Run :=
  start_run (set_traj (Some traj3) (mkRun executor0 robot0)).

Definition run1 : Run :=
  start_run (set_traj (Some traj3) (mkRun executor0 robot1)).

(** Nobody else runs. *)
Definition quiet : Schedule := fun _ => [].

(** The user cancels while tick 1 sleeps before its flag checks. *)
Definition cancel_at_1 : Schedule :=
  fun p => match p with BeforeCancelCheck 1 => [User] | _ => [] end.

(** The validator finds the collision at once and the main loop sees the
    flag at tick 1; the tracker is in the middle of a scan. *)
Definition abort_at_1 : Schedule :=
  fun p => match p with
           | AtStart => [Validator; Validator; Tracker; Tracker]
           | BeforeAbortCheck 1 => [Validator]
           | _ => []
           end.

(** The validator finds the collision at once, but writes the flag only
    while the last tick sleeps. *)
Definition late_abort : Schedule :=
  fun p => match p with
           | AtStart => [Validator; Validator]
           | DuringSleep 2 => [Validator]
           | _ => []
           end.

(** The tracker records the closed hallway between the planner check and the
    final reset. *)
Definition late_update : Schedule :=
  fun p => match p with
           | AtStart => [Tracker; Tracker]
           | BeforeFinalReset => [Tracker]
           | _ => []
           end.

(** The tracker records the closed hallway during the first tick. *)
Definition update_at_0 : Schedule :=
  fun p => match p with
           | AtStart => [Tracker; Tracker]
           | BeforeAbortCheck 0 => [Tracker]
           | _ => []
           end.

(** The user cancels during the grace period. *)
Definition late_cancel : Schedule :=
  fun p => match p with DuringGrace => [User] | _ => [] end.

(** The user cancels between the loop and the final reset. *)
Definition cancel_before_reset : Schedule :=
  fun p => match p with BeforeFinalReset => [User] | _ => [] end.

(** The user cancels while the last tick of [traj3] sleeps. *)
Definition cancel_in_last_sleep : Schedule :=
  fun p => match p with DuringSleep 2 => [User] | _ => [] end.

(** The same collaborators in a world where every path is free. *)
Definition open_collaborators : Collaborators := {|
  np_cos := cos0;
  np_sin := sin0;
  get_linear_distance := distance_x;
  get_constant_speed_trajectory := constant_speed;
  interpolate_trajectory := resample;
  is_path_collision_free := fun _ _ _ _ _ => true;
  get_measurement := measurement
|}.

(** The validator runs at every point of the loop. *)
Definition busy_validator : Schedule :=
  fun p => match p with
           | AtStart | BeforeAbortCheck _ | DuringSleep _ =>
               [Validator; Validator]
           | _ => []
           end.

(** The tracker runs at every point of the loop. *)
Definition busy_tracker : Schedule :=
  fun p => match p with
           | AtStart | BeforeAbortCheck _ | DuringSleep _ => [Tracker; Tracker]
           | _ => []
           end.

(** The validator's abort and the user's request both arrive before tick 1
    reads the flags. *)
Definition abort_and_cancel_at_1 : Schedule :=
  fun p => match p with
           | AtStart => [Validator; Validator]
           | BeforeAbortCheck 1 => [Validator; User]
           | _ => []
           end.

(** An executor with neither validation nor a lidar, and a robot out of the
    fog. *)
Definition executor_plain : Executor :=
  init (1 # 10) 1 None false (1 # 2) (1 # 40) None (1 # 4).

Definition robot_clear : Robot :=
  mkRobot origin 100 None (Some the_world) false ∅
    {["lidar" := SensorLidar2D lidar]} (Some PRMPlanner) 0 [] None.

Definition system_plain : System := mkSystem executor_plain (Some robot_clear).

(** A robot in the fog whose executor names no lidar. *)
Definition system_no_lidar : System := mkSystem executor_plain (Some robot0).

(** An executor at speed 0, for which no trajectory can be generated, that
    still holds the trajectory of an earlier call. *)
Definition executor_still : Executor :=
  mkExecutor (mkConfig (1 # 10) 0 None true (1 # 2) (1 # 40) (Some "lidar") (1 # 4))
    (mkExecState 0 false false false false) (Some traj3) None None.

Definition system_still : System := mkSystem executor_still (Some robot0).

(** A second hallway over the same stretch, open, and believed closed. *)
Definition hall2 : Hallway :=
  mkHallway 9 "hall2" true
    (fun x y => Qle_bool (1 # 2) x && Qle_bool x (5 # 2)).

(** A graph with two nodes and the edge between them. *)
Definition graph2 : SearchGraph :=
  mkSearchGraph [mkNode origin; mkNode (mkPose 1 0 0)]
    [mkEdge (mkNode origin) (mkNode (mkPose 1 0 0))] (NamedColor "k") (1 # 2).

End Demo.

(** * Properties *)

Lemma Qltb_lt (a b : Q) : Qltb a b = true <-> (a < b)%Q.
Proof.
  unfold Qltb. rewrite negb_true_iff, <- not_true_iff_false, Qle_bool_iff.
  split; [apply Qnot_le_lt | apply Qlt_not_le].
Qed.

Lemma Qle_bool_false (a b : Q) : Qle_bool a b = false <-> (b < a)%Q.
Proof.
  rewrite <- not_true_iff_false, Qle_bool_iff.
  split; [apply Qnot_le_lt | apply Qlt_not_le].
Qed.

Create HintDb frame.

(** Splits conjunctions, and nothing else. *)
Ltac split_ands := repeat match goal with |- _ /\ _ => split end.

Ltac destruct_run s :=
  let c := fresh "c" in let st := fresh "st" in let tr := fresh "tr" in
  let vt := fresh "vt" in let lt := fresh "lt" in let r := fresh "r" in
  destruct s as [[c st tr vt lt] r].

(** Closes a [frame] goal between a state and an explicit update of it. *)
Ltac frame_by_computation :=
  constructor; cbn; try reflexivity; auto.

Lemma updated_record_changes_one h (recorded : gset nat) :
  state_disagrees recorded h = true ->
  (updated_record h recorded ∖ recorded) ∪ (recorded ∖ updated_record h recorded)
  = {[hallway_id h]}.
Proof.
  unfold state_disagrees, updated_record. destruct (is_open h).
  - intros I%bool_decide_eq_true. apply set_eq. intros x. set_unfold.
    destruct (decide (x = hallway_id h)); subst; intuition congruence.
  - intros I%negb_true_iff%bool_decide_eq_false. apply set_eq. intros x.
    set_unfold.
    destruct (decide (x = hallway_id h)); subst; intuition congruence.
Qed.

Lemma unchanged_record_changes_none (recorded : gset nat) :
  (recorded ∖ recorded) ∪ (recorded ∖ recorded) = ∅.
Proof. apply set_eq. intros x. set_unfold. tauto. Qed.

Section Properties.

Context {ext : Collaborators}.

Lemma frame_refl s : frame s s.
Proof. constructor; auto. Qed.

Lemma frame_trans s1 s2 s3 : frame s1 s2 -> frame s2 s3 -> frame s1 s3.
Proof.
  intros [] []. constructor; try congruence; auto.
Qed.

Lemma frame_set_timer_v th s : frame s (set_validation_timer th s).
Proof. destruct_run s. frame_by_computation. Qed.

Lemma frame_set_timer_l th s : frame s (set_lidar_sensor_timer th s).
Proof. destruct_run s. frame_by_computation. Qed.

Lemma frame_log msg s : frame s (log msg s).
Proof. destruct_run s. destruct r. frame_by_computation. Qed.

Lemma frame_set_recorded c s : frame s (set_recorded_closed_hallways c s).
Proof. destruct_run s. destruct r. frame_by_computation. Qed.

Lemma frame_raise_updated s : frame s (set_hallway_states_updated true s).
Proof. destruct_run s. destruct st. frame_by_computation. Qed.

Lemma frame_raise_abort s : frame s (set_abort_execution true s).
Proof. destruct_run s. destruct st. frame_by_computation. Qed.

Lemma frame_raise_cancel s : frame s (set_cancel_execution true s).
Proof. destruct_run s. destruct st. frame_by_computation. Qed.

#[local] Hint Resolve frame_refl frame_set_timer_v frame_set_timer_l frame_log
  frame_set_recorded frame_raise_updated frame_raise_abort frame_raise_cancel
  : frame.

Lemma scan_hallways_frame hs pt s : frame s (scan_hallways hs pt s).
Proof.
  induction hs as [|h hs IH]; cbn [scan_hallways]; [apply frame_refl|].
  repeat case_match; try exact IH;
    (eapply frame_trans; [|apply frame_raise_updated]);
    (eapply frame_trans; [|apply frame_log]); apply frame_set_recorded.
Qed.

Lemma tracker_step_frame th s : frame s (tracker_step th s).2.
Proof.
  destruct th as [|l|l [|pt pts]|]; cbn [tracker_step];
    repeat case_match; cbn [snd]; auto using scan_hallways_frame with frame.
Qed.

Lemma validator_step_frame th s : frame s (validator_step th s).2.
Proof.
  destruct th; cbn [validator_step]; repeat case_match; cbn [snd];
    auto with frame.
  eapply frame_trans; [apply frame_log | apply frame_raise_abort].
Qed.

Lemma act_frame a s : frame s (act a s).
Proof.
  destruct a; cbn [act]; auto with frame.
  - destruct (validation_timer (self s)) as [th|]; [|apply frame_refl].
    pose proof (validator_step_frame th s) as F.
    destruct (validator_step th s) as [th' s']. cbn [snd] in F.
    eapply frame_trans; [exact F | apply frame_set_timer_v].
  - destruct (lidar_sensor_timer (self s)) as [th|]; [|apply frame_refl].
    pose proof (tracker_step_frame th s) as F.
    destruct (tracker_step th s) as [th' s']. cbn [snd] in F.
    eapply frame_trans; [exact F | apply frame_set_timer_l].
Qed.

Lemma interfere_frame acts s : frame s (interfere acts s).
Proof.
  revert s. induction acts as [|a acts IH]; intros s; cbn; [apply frame_refl|].
  eapply frame_trans; [apply act_frame | apply IH].
Qed.

(** *** Threads under the steps of the actors *)

Lemma threads_set_state f s : threads (set_state f s) = threads s.
Proof. reflexivity. Qed.

Lemma threads_log msg s : threads (log msg s) = threads s.
Proof. reflexivity. Qed.

Lemma scan_hallways_threads hs pt s : threads (scan_hallways hs pt s) = threads s.
Proof.
  induction hs as [|h hs IH]; cbn [scan_hallways]; [reflexivity|].
  repeat case_match; try exact IH; reflexivity.
Qed.

Lemma tracker_step_threads th s : threads (tracker_step th s).2 = threads s.
Proof.
  destruct th as [|l|l [|pt pts]|]; cbn [tracker_step];
    repeat case_match; cbn [snd]; auto using scan_hallways_threads.
Qed.

Lemma validator_step_threads th s : threads (validator_step th s).2 = threads s.
Proof.
  destruct th; cbn [validator_step]; repeat case_match; reflexivity.
Qed.

Lemma act_validator_timer s th :
  validation_timer (self s) = Some th ->
  validation_timer (self (act Validator s)) = Some (validator_step th s).1
  /\ lidar_sensor_timer (self (act Validator s)) = lidar_sensor_timer (self s).
Proof.
  intros E. cbn [act]. rewrite E.
  pose proof (validator_step_threads th s) as T.
  destruct (validator_step th s) as [th' s']. cbn [fst snd] in *.
  injection T as T1 T2. split; [reflexivity | exact T2].
Qed.

Lemma act_tracker_timer s th :
  lidar_sensor_timer (self s) = Some th ->
  lidar_sensor_timer (self (act Tracker s)) = Some (tracker_step th s).1
  /\ validation_timer (self (act Tracker s)) = validation_timer (self s).
Proof.
  intros E. cbn [act]. rewrite E.
  pose proof (tracker_step_threads th s) as T.
  destruct (tracker_step th s) as [th' s']. cbn [fst snd] in *.
  injection T as T1 T2. split; [reflexivity | exact T1].
Qed.

Lemma act_validator_none s :
  validation_timer (self s) = None -> act Validator s = s.
Proof. intros E. cbn [act]. now rewrite E. Qed.

Lemma act_tracker_none s :
  lidar_sensor_timer (self s) = None -> act Tracker s = s.
Proof. intros E. cbn [act]. now rewrite E. Qed.

(** What a step of one actor does to the thread of the validator. *)
Lemma act_validation_timer a s :
  validation_timer (self (act a s)) =
  match a, validation_timer (self s) with
  | Validator, Some th => Some (validator_step th s).1
  | _, vt => vt
  end.
Proof.
  destruct a.
  - destruct (validation_timer (self s)) as [th|] eqn:E.
    + apply act_validator_timer, E.
    + now rewrite act_validator_none.
  - destruct (lidar_sensor_timer (self s)) as [th|] eqn:E.
    + rewrite (proj2 (act_tracker_timer s th E)). now destruct (validation_timer _).
    + rewrite act_tracker_none by exact E. now destruct (validation_timer _).
  - cbn. now destruct (validation_timer _).
Qed.

(** What a step of one actor does to the thread of the tracker. *)
Lemma act_lidar_sensor_timer a s :
  lidar_sensor_timer (self (act a s)) =
  match a, lidar_sensor_timer (self s) with
  | Tracker, Some th => Some (tracker_step th s).1
  | _, lt => lt
  end.
Proof.
  destruct a.
  - destruct (validation_timer (self s)) as [th|] eqn:E.
    + rewrite (proj2 (act_validator_timer s th E)). now destruct (lidar_sensor_timer _).
    + rewrite act_validator_none by exact E. now destruct (lidar_sensor_timer _).
  - destruct (lidar_sensor_timer (self s)) as [th|] eqn:E.
    + apply act_tracker_timer, E.
    + now rewrite act_tracker_none.
  - cbn. now destruct (lidar_sensor_timer _).
Qed.

(** A thread that has ended, or was never created, stays so. *)
Lemma act_validator_stopped a s :
  validator_stopped s -> validator_stopped (act a s).
Proof.
  unfold validator_stopped. rewrite act_validation_timer.
  intros [E|E]; rewrite E; destruct a; auto.
Qed.

Lemma act_tracker_stopped a s :
  tracker_stopped s -> tracker_stopped (act a s).
Proof.
  unfold tracker_stopped. rewrite act_lidar_sensor_timer.
  intros [E|E]; rewrite E; destruct a; auto.
Qed.

Lemma interfere_validator_stopped acts s :
  validator_stopped s -> validator_stopped (interfere acts s).
Proof.
  revert s. induction acts as [|a acts IH]; intros s S; cbn; [exact S|].
  apply IH, act_validator_stopped, S.
Qed.

Lemma interfere_tracker_stopped acts s :
  tracker_stopped s -> tracker_stopped (interfere acts s).
Proof.
  revert s. induction acts as [|a acts IH]; intros s S; cbn; [exact S|].
  apply IH, act_tracker_stopped, S.
Qed.

(** A thread attribute that holds a thread goes on holding one. *)
Lemma act_validator_created a s :
  is_Some (validation_timer (self s)) ->
  is_Some (validation_timer (self (act a s))).
Proof.
  rewrite act_validation_timer. intros [th E]. rewrite E.
  destruct a; eauto.
Qed.

Lemma act_tracker_created a s :
  is_Some (lidar_sensor_timer (self s)) ->
  is_Some (lidar_sensor_timer (self (act a s))).
Proof.
  rewrite act_lidar_sensor_timer. intros [th E]. rewrite E.
  destruct a; eauto.
Qed.

Lemma interfere_validator_created acts s :
  is_Some (validation_timer (self s)) ->
  is_Some (validation_timer (self (interfere acts s))).
Proof.
  revert s. induction acts as [|a acts IH]; intros s S; cbn; [exact S|].
  apply IH, act_validator_created, S.
Qed.

Lemma interfere_tracker_created acts s :
  is_Some (lidar_sensor_timer (self s)) ->
  is_Some (lidar_sensor_timer (self (interfere acts s))).
Proof.
  revert s. induction acts as [|a acts IH]; intros s S; cbn; [exact S|].
  apply IH, act_tracker_created, S.
Qed.

(** *** Joining a thread once [abort_execution] is set *)

Lemma loop_condition_aborted s :
  abort_execution (flags s) = true -> loop_condition s = false.
Proof. unfold loop_condition. intros ->. apply andb_false_r. Qed.

Lemma validator_step_aborted th s :
  abort_execution (flags s) = true -> th <> VDone ->
  validator_steps_left (validator_step th s).1 < validator_steps_left th.
Proof.
  intros A N. destruct th; cbn [validator_step]; try congruence.
  - destruct (traj (self s)); cbn; lia.
  - rewrite (loop_condition_aborted s A). cbn. lia.
  - cbn. lia.
Qed.

Lemma tracker_step_aborted th s :
  abort_execution (flags s) = true -> th <> LDone ->
  tracker_steps_left (tracker_step th s).1 < tracker_steps_left th.
Proof.
  intros A N. destruct th as [|l|l [|pt pts]|]; cbn [tracker_step]; try congruence.
  - repeat case_match; cbn; lia.
  - rewrite (loop_condition_aborted s A). cbn. lia.
  - cbn. lia.
  - destruct (world (robot s)); cbn; lia.
Qed.

Lemma run_alone_frame a n s : frame s (run_alone a n s).2.
Proof.
  revert s. induction n as [|n IH]; intros s; cbn [run_alone];
    destruct (finished a s); cbn [snd]; try apply frame_refl.
  eapply frame_trans; [apply act_frame | apply IH].
Qed.

Lemma run_alone_validator_stopped a n s :
  validator_stopped s -> validator_stopped (run_alone a n s).2.
Proof.
  revert s. induction n as [|n IH]; intros s S; cbn [run_alone];
    destruct (finished a s); cbn [snd]; auto using act_validator_stopped.
Qed.

Lemma run_alone_tracker_stopped a n s :
  tracker_stopped s -> tracker_stopped (run_alone a n s).2.
Proof.
  revert s. induction n as [|n IH]; intros s S; cbn [run_alone];
    destruct (finished a s); cbn [snd]; auto using act_tracker_stopped.
Qed.

Lemma run_alone_tracker_created a n s :
  is_Some (lidar_sensor_timer (self s)) ->
  is_Some (lidar_sensor_timer (self (run_alone a n s).2)).
Proof.
  revert s. induction n as [|n IH]; intros s S; cbn [run_alone];
    destruct (finished a s); cbn [snd]; auto using act_tracker_created.
Qed.

Lemma validator_ends n s th :
  abort_execution (flags s) = true ->
  validation_timer (self s) = Some th ->
  validator_steps_left th <= n ->
  (run_alone Validator n s).1 = true
  /\ validation_timer (self (run_alone Validator n s).2) = Some VDone.
Proof.
  revert s th. induction n as [|n IH]; intros s th A E L.
  - destruct th; cbn in L; try lia. cbn. rewrite E. auto.
  - assert (D : th = VDone \/ th <> VDone)
      by (destruct th; auto; right; discriminate).
    destruct D as [->|N].
    + cbn. rewrite E. auto.
    + cbn [run_alone].
      replace (finished Validator s) with false
        by (cbn; rewrite E; now destruct th).
      destruct (act_validator_timer s th E) as [T _].
      apply (IH _ _ (frame_abort _ _ (act_frame Validator s) A) T).
      pose proof (validator_step_aborted th s A N). lia.
Qed.

Lemma tracker_ends n s th :
  abort_execution (flags s) = true ->
  lidar_sensor_timer (self s) = Some th ->
  tracker_steps_left th <= n ->
  (run_alone Tracker n s).1 = true
  /\ lidar_sensor_timer (self (run_alone Tracker n s).2) = Some LDone.
Proof.
  revert s th. induction n as [|n IH]; intros s th A E L.
  - destruct th; cbn in L; try lia. cbn. rewrite E. auto.
  - destruct th as [|l|l pts|] eqn:Eth.
    4: { cbn. rewrite E. auto. }
    all: cbn [run_alone];
      replace (finished Tracker s) with false by (cbn; now rewrite E);
      destruct (act_tracker_timer s _ E) as [T _];
      apply (IH _ _ (frame_abort _ _ (act_frame Tracker s) A) T);
      match goal with
      | |- tracker_steps_left (tracker_step ?t ?s0).1 <= _ =>
          pose proof (tracker_step_aborted t s0 A ltac:(discriminate))
      end; lia.
Qed.

(** With [abort_execution] set, joining a thread that was created returns,
    and the thread has ended. *)
Lemma join_validator_returns acts s :
  abort_execution (flags s) = true ->
  is_Some (validation_timer (self s)) ->
  (join Validator acts s).1 = true
  /\ validation_timer (self (join Validator acts s).2) = Some VDone.
Proof.
  intros A C. unfold join.
  pose proof (frame_abort _ _ (interfere_frame acts s) A) as A'.
  destruct (interfere_validator_created acts s C) as [th E].
  apply (validator_ends _ _ th A' E). destruct th; cbn; lia.
Qed.

Lemma join_tracker_returns acts s :
  abort_execution (flags s) = true ->
  is_Some (lidar_sensor_timer (self s)) ->
  (join Tracker acts s).1 = true
  /\ lidar_sensor_timer (self (join Tracker acts s).2) = Some LDone.
Proof.
  intros A C. unfold join.
  pose proof (frame_abort _ _ (interfere_frame acts s) A) as A'.
  destruct (interfere_tracker_created acts s C) as [th E].
  apply (tracker_ends _ _ th A' E).
  cbn [join_fuel]. rewrite E. destruct th; cbn; lia.
Qed.

Lemma join_frame a acts s : frame s (join a acts s).2.
Proof.
  unfold join. eapply frame_trans; [apply interfere_frame | apply run_alone_frame].
Qed.

Lemma join_validator_stopped a acts s :
  validator_stopped s -> validator_stopped (join a acts s).2.
Proof.
  intros S. apply run_alone_validator_stopped, interfere_validator_stopped, S.
Qed.

Lemma join_tracker_stopped a acts s :
  tracker_stopped s -> tracker_stopped (join a acts s).2.
Proof.
  intros S. apply run_alone_tracker_stopped, interfere_tracker_stopped, S.
Qed.

(** After the two joins of the abort branch, every thread the branch waits
    for has ended, and the branch goes on. *)
Lemma join_threads_returns sched i s :
  abort_execution (flags s) = true ->
  (join_threads sched i s).1 = true
  /\ frame s (join_threads sched i s).2
  /\ (validate_during_execution (cfg s) = true \/ validator_stopped s ->
      validator_stopped (join_threads sched i s).2)
  /\ (fog_hallways (robot s) = true \/ tracker_stopped s ->
      tracker_stopped (join_threads sched i s).2).
Proof.
  intros A. unfold join_threads.
  set (jv := if validate_during_execution (cfg s)
                && bool_decide (is_Some (validation_timer (self s)))
             then join Validator (sched (DuringJoinValidator i)) s
             else (true, s)).
  assert (Jv : jv.1 = true /\ frame s jv.2
               /\ (validate_during_execution (cfg s) = true \/ validator_stopped s ->
                   validator_stopped jv.2)
               /\ (tracker_stopped s -> tracker_stopped jv.2)
               /\ (is_Some (lidar_sensor_timer (self s)) ->
                   is_Some (lidar_sensor_timer (self jv.2)))).
  { subst jv. destruct (validate_during_execution (cfg s)) eqn:V; cbn [andb].
    - case_bool_decide as C.
      + destruct (join_validator_returns (sched (DuringJoinValidator i)) s A C)
          as [J1 J2].
        split_ands; auto using join_frame, join_tracker_stopped.
        * intros _. right. exact J2.
        * intros C'. unfold join.
          apply run_alone_tracker_created, interfere_tracker_created, C'.
      + cbn [fst snd]. split_ands; auto using frame_refl.
        intros _. left. destruct (validation_timer (self s)); [|reflexivity].
        exfalso. eauto.
    - cbn [fst snd]. split_ands; auto using frame_refl.
      intros [?|?]; [discriminate | assumption]. }
  destruct jv as [ok s1]. cbn [fst snd] in Jv.
  destruct Jv as (-> & F1 & Sv & St & Ct).
  pose proof (frame_abort _ _ F1 A) as A1.
  destruct (fog_hallways (robot s1)) eqn:Fg; cbn [andb].
  - case_bool_decide as C.
    + destruct (join_tracker_returns (sched (DuringJoinTracker i)) s1 A1 C)
        as [J1 J2].
      split_ands; auto.
      * eapply frame_trans; [exact F1 | apply join_frame].
      * intros S. apply join_validator_stopped, Sv, S.
      * intros _. right. exact J2.
    + cbn [fst snd]. split_ands; auto.
      intros _. left. destruct (lidar_sensor_timer (self s1)); [|reflexivity].
      exfalso. eauto.
  - cbn [fst snd]. split_ands; auto.
    intros [Fg'|S]; [|auto].
    rewrite (frame_fog _ _ F1) in Fg. congruence.
Qed.

(** *** The head of a tick *)

Lemma push_sample_spec smp s :
  let s' := push_sample smp s in
  pose (robot s') = smp.2
  /\ current_traj_time (flags s') = smp.1
  /\ manipulated_object (robot s')
     = (fun _ => smp.2) <$> manipulated_object (robot s)
  /\ battery_level (robot s') = battery_level (robot s)
  /\ abort_execution (flags s') = abort_execution (flags s)
  /\ cancel_execution (flags s') = cancel_execution (flags s)
  /\ hallway_states_updated (flags s') = hallway_states_updated (flags s)
  /\ following_path (flags s') = following_path (flags s)
  /\ recorded_closed_hallways (robot s') = recorded_closed_hallways (robot s)
  /\ logger (robot s') = logger (robot s)
  /\ threads s' = threads s.
Proof.
  destruct_run s. destruct r as [p b [o|] ? ? ? ? ? ? ? ?]; cbn;
    split_ands; reflexivity.
Qed.

Lemma steady_refl s : steady s s.
Proof. constructor; auto. Qed.

Lemma steady_trans s1 s2 s3 : steady s1 s2 -> steady s2 s3 -> steady s1 s3.
Proof. intros [] []. constructor; try congruence; auto. Qed.

Lemma push_sample_steady smp s : steady s (push_sample smp s).
Proof.
  destruct_run s. destruct r as [p b [o|] ? ? ? ? ? ? ? ?];
    constructor; cbn; auto.
Qed.

Lemma act_steady a s : steady s (act a s).
Proof.
  destruct (act_frame a s).
  constructor; auto using act_validator_created, act_tracker_created,
    act_validator_stopped, act_tracker_stopped.
Qed.

Lemma interfere_steady acts s : steady s (interfere acts s).
Proof.
  revert s. induction acts as [|a acts IH]; intros s; cbn; [apply steady_refl|].
  eapply steady_trans; [apply act_steady | apply IH].
Qed.

Lemma run_alone_steady a n s : steady s (run_alone a n s).2.
Proof.
  revert s. induction n as [|n IH]; intros s; cbn [run_alone];
    destruct (finished a s); cbn [snd]; try apply steady_refl.
  eapply steady_trans; [apply act_steady | apply IH].
Qed.

Lemma join_steady a acts s : steady s (join a acts s).2.
Proof.
  unfold join. eapply steady_trans; [apply interfere_steady | apply run_alone_steady].
Qed.

Lemma join_threads_steady sched i s : steady s (join_threads sched i s).2.
Proof.
  unfold join_threads.
  destruct (validate_during_execution (cfg s)
            && bool_decide (is_Some (validation_timer (self s)))).
  - pose proof (join_steady Validator (sched (DuringJoinValidator i)) s) as S1.
    destruct (join Validator (sched (DuringJoinValidator i)) s) as [[] s1];
      cbn [snd] in *; [|exact S1].
    destruct (fog_hallways (robot s1)
              && bool_decide (is_Some (lidar_sensor_timer (self s1))));
      [|exact S1].
    eapply steady_trans; [exact S1 | apply join_steady].
  - destruct (fog_hallways (robot s)
              && bool_decide (is_Some (lidar_sensor_timer (self s))));
      [apply join_steady | apply steady_refl].
Qed.

Lemma log_steady msg s : steady s (log msg s).
Proof. destruct_run s. destruct r. constructor; cbn; auto. Qed.

Lemma set_state_steady f s : steady s (set_state f s).
Proof. destruct_run s. constructor; cbn; auto. Qed.

Lemma set_battery_level_steady b s : steady s (set_battery_level b s).
Proof. destruct_run s. destruct r. constructor; cbn; auto. Qed.

(** *** The three ways through a tick *)

Lemma tick_abort sched bu i prev smp s :
  abort_execution (flags (at_abort_check sched i smp s)) = true ->
  tick sched bu i prev smp s
  = (Break EXECUTION_FAILURE aborted_message,
     log aborted_message (join_threads sched i (at_abort_check sched i smp s)).2).
Proof.
  intros A. unfold tick. rewrite A.
  destruct (join_threads_returns sched i _ A) as [J _].
  destruct (join_threads sched i (at_abort_check sched i smp s)) as [ok s1].
  cbn [fst snd] in *. now rewrite J.
Qed.

Lemma tick_cancel sched bu i prev smp s :
  abort_execution (flags (at_abort_check sched i smp s)) = false ->
  cancel_execution (flags (at_cancel_check sched i smp s)) = true ->
  tick sched bu i prev smp s
  = (Break CANCELED canceled_message,
     log canceled_message
       (set_cancel_execution false (at_cancel_check sched i smp s))).
Proof.
  intros A C. unfold tick. rewrite A.
  fold (at_cancel_check sched i smp s). now rewrite C.
Qed.

Lemma tick_battery sched bu i prev smp s :
  abort_execution (flags (at_abort_check sched i smp s)) = false ->
  cancel_execution (flags (at_cancel_check sched i smp s)) = false ->
  tick sched bu i prev smp s
  = if Qle_bool (drained sched bu i prev smp s) 0 then
      (Break EXECUTION_FAILURE depleted_message,
       log depleted_message
         (set_battery_level 0
            (set_battery_level (drained sched bu i prev smp s)
               (at_cancel_check sched i smp s))))
    else
      (Continue,
       interfere (sched (DuringSleep i))
         (set_battery_level (drained sched bu i prev smp s)
            (at_cancel_check sched i smp s))).
Proof.
  intros A C. unfold tick. rewrite A.
  fold (at_cancel_check sched i smp s). rewrite C.
  unfold drained. destruct (at_cancel_check sched i smp s) as [e r].
  destruct r. reflexivity.
Qed.

(** The battery level at the flag checks is the one the tick started with. *)
Lemma at_cancel_check_frame sched i smp s :
  frame (push_sample smp s) (at_cancel_check sched i smp s).
Proof.
  unfold at_cancel_check, at_abort_check.
  eapply frame_trans; apply interfere_frame.
Qed.

Lemma at_abort_check_frame sched i smp s :
  frame (push_sample smp s) (at_abort_check sched i smp s).
Proof. apply interfere_frame. Qed.

Lemma at_cancel_check_battery sched i smp s :
  battery_level (robot (at_cancel_check sched i smp s)) = battery_level (robot s).
Proof.
  rewrite (frame_battery _ _ (at_cancel_check_frame sched i smp s)).
  apply push_sample_spec.
Qed.

Lemma tick_steady sched bu i prev smp s :
  steady s (tick sched bu i prev smp s).2.
Proof.
  assert (Sa : steady s (at_abort_check sched i smp s)).
  { eapply steady_trans; [apply push_sample_steady | apply interfere_steady]. }
  assert (Sc : steady s (at_cancel_check sched i smp s)).
  { eapply steady_trans; [exact Sa | apply interfere_steady]. }
  destruct (abort_execution (flags (at_abort_check sched i smp s))) eqn:A.
  - rewrite tick_abort by exact A. cbn [snd].
    eapply steady_trans; [exact Sa|].
    eapply steady_trans; [apply join_threads_steady | apply log_steady].
  - destruct (cancel_execution (flags (at_cancel_check sched i smp s))) eqn:C.
    + rewrite tick_cancel by assumption. cbn [snd].
      eapply steady_trans; [exact Sc|].
      eapply steady_trans; [apply set_state_steady | apply log_steady].
    + rewrite tick_battery by assumption.
      destruct (Qle_bool _ _); cbn [snd]; (eapply steady_trans; [exact Sc|]).
      * eapply steady_trans; [apply set_battery_level_steady|].
        eapply steady_trans; [apply set_battery_level_steady | apply log_steady].
      * eapply steady_trans; [apply set_battery_level_steady | apply interfere_steady].
Qed.

Lemma main_loop_steady sched bu i prev samples s :
  steady s (main_loop sched bu i prev samples s).2.
Proof.
  revert i prev s. induction samples as [|smp rest IH]; intros i prev s;
    cbn [main_loop]; [apply steady_refl|].
  pose proof (tick_steady sched bu i prev smp s) as T.
  destruct (tick sched bu i prev smp s) as [[| |] s']; cbn [snd] in *; auto.
  eapply steady_trans; [exact T | apply IH].
Qed.

(** *** The loop, cut at a tick *)

Lemma pose_after_cons prev smp done :
  pose_after prev (smp :: done) = pose_after smp.2 done.
Proof.
  unfold pose_after. destruct done as [|smp' done]; [reflexivity|].
  rewrite last_cons_cons.
  destruct (last (smp' :: done)) eqn:E; [reflexivity|].
  apply last_None in E. discriminate.
Qed.

Lemma main_loop_app sched bu i prev l1 l2 s :
  main_loop sched bu i prev (l1 ++ l2) s
  = match main_loop sched bu i prev l1 s with
    | (Continue, s') =>
        main_loop sched bu (i + length l1) (pose_after prev l1) l2 s'
    | stop => stop
    end.
Proof.
  revert i prev s. induction l1 as [|smp l1 IH]; intros i prev s.
  - cbn. now rewrite Nat.add_0_r.
  - cbn [app main_loop].
    destruct (tick sched bu i prev smp s) as [[| |] s']; try reflexivity.
    rewrite IH, pose_after_cons. cbn [length].
    now replace (S i + length l1) with (i + S (length l1)) by lia.
Qed.

Lemma pose_after_take (ti : Trajectory) smp0 i smp :
  ti !! 0 = Some smp0 -> ti !! i = Some smp ->
  Some (pose_after smp0.2 (take i ti)) = prev_pose_at ti i.
Proof.
  intros E0 Ei. unfold pose_after, prev_pose_at.
  destruct i as [|i]; cbn [pred].
  - rewrite take_0, E0. reflexivity.
  - assert (L : S i < length ti) by (eapply lookup_lt_Some; eauto).
    rewrite last_lookup, length_take, Nat.min_l by lia. cbn [pred].
    rewrite lookup_take_lt by lia.
    destruct (lookup_lt_is_Some_2 ti i ltac:(lia)) as [q E].
    now rewrite E.
Qed.

(** The loop from tick [i] on, in a run that gets to tick [i]. *)
Lemma main_loop_from_tick sched bu ti s0 i smp s_i prev :
  tick_entry sched bu ti s0 i = Some s_i ->
  ti !! i = Some smp ->
  prev_pose_at ti i = Some prev ->
  exists smp0, ti !! 0 = Some smp0
  /\ main_loop sched bu 0 smp0.2 ti (interfere (sched AtStart) s0)
     = main_loop sched bu i prev (drop i ti) s_i.
Proof.
  unfold tick_entry. intros E Ei Ep.
  destruct ti as [|smp0 rest] eqn:Eti; [discriminate|]. rewrite <- Eti in *.
  assert (E0 : ti !! 0 = Some smp0) by now rewrite Eti.
  exists smp0. split; [exact E0|].
  rewrite <- (take_drop i ti) at 1. rewrite main_loop_app.
  destruct (main_loop sched bu 0 smp0.2 (take i ti) _) as [[| |] s'];
    try discriminate.
  injection E as ->.
  assert (L : i < length ti) by (eapply lookup_lt_Some; eauto).
  rewrite length_take, Nat.min_l by lia. cbn [Nat.add].
  pose proof (pose_after_take ti smp0 i smp E0 Ei) as P.
  rewrite Ep in P. now injection P as ->.
Qed.

(** *** After the loop *)

Lemma frame_body s s' : frame s s' -> body s' = body s.
Proof. intros []. unfold body. congruence. Qed.

Lemma body_eq s s' :
  body s' = body s ->
  pose (robot s') = pose (robot s)
  /\ battery_level (robot s') = battery_level (robot s)
  /\ manipulated_object (robot s') = manipulated_object (robot s).
Proof. unfold body. intros [= ? ? ?]. auto. Qed.

Lemma check_planner_spec s :
  let s' := check_planner s in
  planner_resets (robot s')
  = planner_resets (robot s)
    + (if hallway_states_updated (flags s)
          && is_graph_planner (path_planner (robot s)) then 1 else 0)
  /\ body s' = body s /\ threads s' = threads s /\ flags s' = flags s.
Proof.
  unfold check_planner.
  destruct (hallway_states_updated (flags s));
    destruct (is_graph_planner (path_planner (robot s))); cbn [andb];
    destruct_run s; destruct r; cbn; split_ands; auto; lia.
Qed.

Lemma check_planner_stopped s :
  (validator_stopped s -> validator_stopped (check_planner s))
  /\ (tracker_stopped s -> tracker_stopped (check_planner s)).
Proof.
  destruct (check_planner_spec s) as (_ & _ & T & _).
  unfold validator_stopped, tracker_stopped.
  injection T as -> ->. auto.
Qed.

Lemma at_final_reset_spec sched s :
  let s' := at_final_reset sched s in
  flags s' = baseline
  /\ body s' = body s
  /\ planner_resets (robot s')
     = planner_resets (robot s)
       + (if hallway_states_updated (flags (at_planner_check sched s))
             && is_graph_planner (path_planner (robot s)) then 1 else 0)
  /\ (validator_stopped s -> validator_stopped s')
  /\ (tracker_stopped s -> tracker_stopped s')
  /\ (is_Some (validation_timer (self s)) ->
      is_Some (validation_timer (self s')))
  /\ (is_Some (lidar_sensor_timer (self s)) ->
      is_Some (lidar_sensor_timer (self s'))).
Proof.
  unfold at_final_reset, at_planner_check.
  pose proof (interfere_frame (sched AfterLoop) s) as F1.
  pose proof (interfere_steady (sched AfterLoop) s) as S1.
  set (s1 := interfere (sched AfterLoop) s) in *.
  destruct (check_planner_spec s1) as (R & B & T & _).
  destruct (check_planner_stopped s1) as [Cv Ct].
  set (s2 := check_planner s1) in *.
  pose proof (interfere_frame (sched BeforeFinalReset) s2) as F3.
  pose proof (interfere_steady (sched BeforeFinalReset) s2) as S3.
  set (s3 := interfere (sched BeforeFinalReset) s2) in *.
  cbn zeta. split_ands.
  - reflexivity.
  - change (body (reset_state s3)) with (body s3).
    now rewrite (frame_body _ _ F3), B, (frame_body _ _ F1).
  - change (planner_resets (robot (reset_state s3)))
      with (planner_resets (robot s3)).
    rewrite (frame_resets _ _ F3), R, (frame_resets _ _ F1).
    now rewrite (frame_planner _ _ F1).
  - intros V. apply (steady_validator_stopped _ _ S3), Cv,
      (steady_validator_stopped _ _ S1), V.
  - intros V. apply (steady_tracker_stopped _ _ S3), Ct,
      (steady_tracker_stopped _ _ S1), V.
  - intros V. apply (steady_validator _ _ S3).
    injection T as T1 T2. rewrite T1.
    apply (steady_validator _ _ S1), V.
  - intros V. apply (steady_tracker _ _ S3).
    injection T as T1 T2. rewrite T2.
    apply (steady_tracker _ _ S1), V.
Qed.

Lemma finalize_spec sched st msg s :
  let out := finalize sched st msg s in
  out.1 = mkResult st msg
  /\ body out.2 = body s
  /\ planner_resets (robot out.2)
     = planner_resets (robot s)
       + (if hallway_states_updated (flags (at_planner_check sched s))
             && is_graph_planner (path_planner (robot s)) then 1 else 0)
  /\ last_nav_result (robot out.2) = Some (mkResult st msg)
  /\ flags out.2
     = flags (interfere (sched DuringGrace) (at_final_reset sched s))
  /\ (validator_stopped s -> validator_stopped out.2)
  /\ (tracker_stopped s -> tracker_stopped out.2)
  /\ (is_Some (validation_timer (self s)) ->
      is_Some (validation_timer (self out.2)))
  /\ (is_Some (lidar_sensor_timer (self s)) ->
      is_Some (lidar_sensor_timer (self out.2))).
Proof.
  unfold finalize. cbn zeta. cbn [fst snd].
  destruct (at_final_reset_spec sched s) as (_ & B & R & Sv & St & Cv & Ct).
  pose proof (interfere_frame (sched DuringGrace) (at_final_reset sched s)) as F.
  pose proof (interfere_steady (sched DuringGrace) (at_final_reset sched s)) as S.
  set (s4 := interfere (sched DuringGrace) (at_final_reset sched s)) in *.
  assert (E : forall res, body (set_last_nav_result res s4) = body s4
                 /\ planner_resets (robot (set_last_nav_result res s4))
                    = planner_resets (robot s4)
                 /\ last_nav_result (robot (set_last_nav_result res s4)) = Some res
                 /\ self (set_last_nav_result res s4) = self s4).
  { intros res. destruct s4 as [e r]. destruct r. cbn. auto. }
  destruct (E (mkResult st msg)) as (E1 & E2 & E3 & E4).
  split_ands; auto.
  - now rewrite E1, (frame_body _ _ F), B.
  - now rewrite E2, (frame_resets _ _ F), R.
  - intros V. unfold validator_stopped. rewrite E4.
    apply (steady_validator_stopped _ _ S), Sv, V.
  - intros V. unfold tracker_stopped. rewrite E4.
    apply (steady_tracker_stopped _ _ S), St, V.
  - intros V. rewrite E4. apply (steady_validator _ _ S), Cv, V.
  - intros V. rewrite E4. apply (steady_tracker _ _ S), Ct, V.
Qed.

(** *** From [execute] to a tick *)

Lemma execute_prepared sched path rf bu w ti s0 :
  prepared path w = Some (ti, s0) ->
  execute sched path rf bu w = follow sched rf bu ti s0.
Proof.
  unfold prepared, execute. destruct (sys_robot w) as [r|]; [|discriminate].
  destruct (num_poses path <? 2); [discriminate|].
  cbn [set_traj traj self cfg config].
  destruct (get_constant_speed_trajectory _ _ _) as [tr|]; [|discriminate].
  destruct (interpolate_trajectory _ _) as [traj_interp|]; [|discriminate].
  now intros [= <- <-].
Qed.

Lemma start_run_spec s :
  let s' := start_run s in
  cfg s' = cfg s
  /\ flags s' = mkExecState 0 true false false false
  /\ robot s' = robot s
  /\ traj (self s') = traj (self s)
  /\ validation_timer (self s')
     = (if validate_during_execution (cfg s)
           && bool_decide (is_Some (world (robot s)))
        then Some VStart else validation_timer (self s))
  /\ lidar_sensor_timer (self s')
     = (if fog_hallways (robot s) then Some LStart
        else lidar_sensor_timer (self s)).
Proof.
  destruct_run s. destruct r as [? ? ? w fog ? ? ? ? ? ?].
  destruct c as [? ? ? v ? ? ? ?]. unfold start_run. cbn.
  destruct v; cbn; [destruct (bool_decide (is_Some w))|]; destruct fog; cbn;
    split_ands; reflexivity.
Qed.

(** The state in which the threads have just been started. *)
Lemma prepared_start path w ti s0 :
  prepared path w = Some (ti, s0) ->
  exists r, sys_robot w = Some r
  /\ cfg s0 = config (sys_self w)
  /\ flags s0 = mkExecState 0 true false false false
  /\ robot s0 = r
  /\ validation_timer (self s0)
     = (if validate_during_execution (config (sys_self w))
           && bool_decide (is_Some (world r))
        then Some VStart else validation_timer (sys_self w))
  /\ lidar_sensor_timer (self s0)
     = (if fog_hallways r then Some LStart
        else lidar_sensor_timer (sys_self w)).
Proof.
  unfold prepared. destruct (sys_robot w) as [r|]; [|discriminate].
  destruct (num_poses path <? 2); [discriminate|].
  destruct (get_constant_speed_trajectory _ _ _) as [tr|]; [|discriminate].
  destruct (interpolate_trajectory _ _) as [traj_interp|]; [|discriminate].
  intros [= <- <-]. exists r.
  destruct (start_run_spec (set_traj (Some tr) (mkRun (sys_self w) r)))
    as (C & F & R & _ & V & L).
  split_ands; auto.
Qed.

Lemma tick_entry_steady sched bu ti s0 i s_i :
  tick_entry sched bu ti s0 i = Some s_i -> steady s0 s_i.
Proof.
  unfold tick_entry. destruct ti as [|smp0 rest]; [discriminate|].
  pose proof (main_loop_steady sched bu 0 smp0.2 (take i (smp0 :: rest))
                (interfere (sched AtStart) s0)) as S.
  destruct (main_loop _ _ _ _ _ _) as [[| |] s']; try discriminate.
  intros [= <-]. eapply steady_trans; [apply interfere_steady | exact S].
Qed.

Lemma tick_not_blocked sched bu i prev smp s :
  (tick sched bu i prev smp s).1 <> Blocked.
Proof.
  destruct (abort_execution (flags (at_abort_check sched i smp s))) eqn:A.
  - now rewrite tick_abort.
  - destruct (cancel_execution (flags (at_cancel_check sched i smp s))) eqn:C.
    + now rewrite tick_cancel.
    + rewrite tick_battery by assumption. now destruct (Qle_bool _ _).
Qed.

Lemma main_loop_not_blocked sched bu i prev samples s :
  (main_loop sched bu i prev samples s).1 <> Blocked.
Proof.
  revert i prev s. induction samples as [|smp rest IH]; intros i prev s;
    cbn [main_loop]; [discriminate|].
  pose proof (tick_not_blocked sched bu i prev smp s) as T.
  destruct (tick sched bu i prev smp s) as [[| |] s']; cbn [fst] in *;
    auto; discriminate.
Qed.

(** A tick that breaks decides the call. *)
Lemma follow_break sched rf bu ti s0 i smp s_i prev st msg s' :
  Qeq_bool rf 0 = false ->
  tick_entry sched bu ti s0 i = Some s_i ->
  ti !! i = Some smp ->
  prev_pose_at ti i = Some prev ->
  tick sched bu i prev smp s_i = (Break st msg, s') ->
  follow sched rf bu ti s0
  = (Returned (finalize sched st msg s').1, attach (finalize sched st msg s').2).
Proof.
  intros R E Ei Ep T.
  destruct (main_loop_from_tick sched bu ti s0 i smp s_i prev E Ei Ep)
    as (smp0 & E0 & L).
  unfold follow. rewrite R.
  destruct ti as [|smp0' rest] eqn:Eti; [discriminate|]. rewrite <- Eti in *.
  assert (smp0' = smp0) as -> by (rewrite Eti in E0; now injection E0).
  rewrite L, (drop_S _ _ _ Ei). cbn [main_loop]. rewrite T.
  now destruct (finalize sched st msg s').
Qed.

Lemma prev_pose_at_is_Some (ti : Trajectory) i smp :
  ti !! i = Some smp -> is_Some (prev_pose_at ti i).
Proof.
  intros E. unfold prev_pose_at.
  destruct (lookup_lt_is_Some_2 ti (pred i)) as [q Eq].
  - apply lookup_lt_Some in E. lia.
  - rewrite Eq. cbn. eauto.
Qed.

Lemma validator_stopped_created s :
  validator_stopped s -> is_Some (validation_timer (self s)) ->
  validation_timer (self s) = Some VDone.
Proof. intros [E|E] [th E']; congruence. Qed.

Lemma tracker_stopped_created s :
  tracker_stopped s -> is_Some (lidar_sensor_timer (self s)) ->
  lidar_sensor_timer (self s) = Some LDone.
Proof. intros [E|E] [th E']; congruence. Qed.

(** ** The abort path *)

(** ** Cancellation *)

Lemma body_log msg s : body (log msg s) = body s.
Proof. destruct s as [e r]. now destruct r. Qed.

Lemma body_set_state f s : body (set_state f s) = body s.
Proof. reflexivity. Qed.

Lemma at_abort_check_body sched i smp s :
  let sa := at_abort_check sched i smp s in
  pose (robot sa) = smp.2
  /\ battery_level (robot sa) = battery_level (robot s)
  /\ manipulated_object (robot sa)
     = (fun _ => smp.2) <$> manipulated_object (robot s).
Proof.
  destruct (at_abort_check_frame sched i smp s).
  destruct (push_sample_spec smp s) as (P & _ & O & B & _).
  cbn zeta. split_ands; congruence.
Qed.

Lemma at_cancel_check_body sched i smp s :
  let sc := at_cancel_check sched i smp s in
  pose (robot sc) = smp.2
  /\ battery_level (robot sc) = battery_level (robot s)
  /\ manipulated_object (robot sc)
     = (fun _ => smp.2) <$> manipulated_object (robot s).
Proof.
  destruct (at_cancel_check_frame sched i smp s).
  destruct (push_sample_spec smp s) as (P & _ & O & B & _).
  cbn zeta. split_ands; congruence.
Qed.

(** A tick that finds one of the two flags set: how it leaves the loop. *)
Lemma tick_flag_stop sched bu i prev smp s :
  let sa := at_abort_check sched i smp s in
  let sc := at_cancel_check sched i smp s in
  let out := tick sched bu i prev smp s in
  abort_execution (flags sa) = true \/ cancel_execution (flags sc) = true ->
  (exists st msg, out.1 = Break st msg)
  /\ pose (robot out.2) = smp.2
  /\ manipulated_object (robot out.2)
     = (fun _ => smp.2) <$> manipulated_object (robot s)
  /\ current_traj_time (flags out.2) = smp.1
  /\ battery_level (robot out.2) = battery_level (robot s).
Proof.
  cbn zeta. intros O.
  destruct (at_abort_check_body sched i smp s) as (Ba1 & Ba2 & Ba3).
  destruct (at_cancel_check_body sched i smp s) as (Bc1 & Bc2 & Bc3).
  pose proof (at_abort_check_frame sched i smp s) as Fa.
  pose proof (at_cancel_check_frame sched i smp s) as Fc.
  destruct (push_sample_spec smp s) as (_ & T & _).
  pose proof (frame_time _ _ Fa) as Ta. rewrite T in Ta.
  pose proof (frame_time _ _ Fc) as Tc. rewrite T in Tc.
  destruct (abort_execution (flags (at_abort_check sched i smp s))) eqn:A.
  - rewrite tick_abort by exact A. cbn [fst snd].
    destruct (join_threads_returns sched i _ A) as (_ & Fj & _).
    pose proof (frame_body _ _ Fj) as Bj.
    rewrite <- (body_log aborted_message) in Bj.
    destruct (body_eq _ _ Bj) as (Bj1 & Bj2 & Bj3).
    split_ands; eauto; try congruence.
    change (current_traj_time (flags (log aborted_message ?x)))
      with (current_traj_time (flags x)).
    now rewrite (frame_time _ _ Fj).
  - destruct O as [O|C]; [discriminate|].
    rewrite tick_cancel by assumption. cbn [fst snd].
    set (sc := at_cancel_check sched i smp s) in *.
    assert (Bx : body (log canceled_message (set_cancel_execution false sc))
                 = body sc) by (rewrite body_log; apply body_set_state).
    destruct (body_eq _ _ Bx) as (Bx1 & Bx2 & Bx3).
    split_ands; eauto; congruence.
Qed.

(** C5.  In a call that passes the precondition checks and gets to tick
    [i], if tick [i] finds [abort_execution] clear and [cancel_execution]
    set, then the tick clears the flag and leaves the loop, [execute] returns
    CANCELED, and the pose of the robot and of the object it holds are, when
    [execute] returns, the ones they had when the flag was read: the pose of
    sample [i]. *)
Theorem cancel_observed_returns_canceled sched path rf bu w ti s0 i smp s_i :
  prepared path w = Some (ti, s0) ->
  Qeq_bool rf 0 = false ->
  tick_entry sched bu ti s0 i = Some s_i ->
  ti !! i = Some smp ->
  abort_execution (flags (at_abort_check sched i smp s_i)) = false ->
  cancel_execution (flags (at_cancel_check sched i smp s_i)) = true ->
  exists s_exit s_end,
    (forall prev,
        tick sched bu i prev smp s_i = (Break CANCELED canceled_message, s_exit))
    /\ cancel_execution (flags s_exit) = false
    /\ execute sched path rf bu w
       = (Returned (mkResult CANCELED canceled_message), attach s_end)
    /\ pose (robot (at_cancel_check sched i smp s_i)) = smp.2
    /\ pose (robot s_end) = smp.2
    /\ manipulated_object (robot s_end)
       = manipulated_object (robot (at_cancel_check sched i smp s_i)).
Proof.
  intros P R E Ei A C.
  set (sc := at_cancel_check sched i smp s_i) in *.
  set (s_exit := log canceled_message (set_cancel_execution false sc)).
  exists s_exit, (finalize sched CANCELED canceled_message s_exit).2.
  destruct (finalize_spec sched CANCELED canceled_message s_exit)
    as (_ & B & _).
  assert (Bx : body s_exit = body sc).
  { unfold s_exit. rewrite body_log. apply body_set_state. }
  destruct (at_cancel_check_body sched i smp s_i) as (Bc1 & Bc2 & Bc3).
  fold sc in Bc1, Bc2, Bc3.
  rewrite Bx in B. destruct (body_eq _ _ B) as (B1 & B2 & B3).
  split_ands.
  - intros prev. apply tick_cancel; assumption.
  - unfold s_exit. destruct sc as [[? [] ? ? ?] []]. reflexivity.
  - rewrite (execute_prepared _ _ _ _ _ _ _ P).
    destruct (prev_pose_at_is_Some ti i smp Ei) as [prev Ep].
    rewrite (follow_break _ _ _ _ _ _ _ _ _ _ _ _ R E Ei Ep
               (tick_cancel _ _ _ prev _ _ A C)).
    reflexivity.
  - exact Bc1.
  - congruence.
  - congruence.
Qed.

(** ** Order of the steps of a tick *)

(** C9.  In every tick the pose of the sample is on the robot (and on the
    object it holds) and [current_traj_time] is the time of the sample when
    [abort_execution] is read, and still when [cancel_execution] is read.
    On a tick that finds one of the two flags set, the loop is left with the
    robot at the pose of that sample and with the battery level the tick
    started with. *)
Theorem sample_pushed_before_flag_checks sched bu i prev smp s :
  let sa := at_abort_check sched i smp s in
  let sc := at_cancel_check sched i smp s in
  let out := tick sched bu i prev smp s in
  let held := (fun _ : Pose => smp.2) <$> manipulated_object (robot s) in
  (pose (robot sa) = smp.2 /\ manipulated_object (robot sa) = held
   /\ current_traj_time (flags sa) = smp.1)
  /\ (pose (robot sc) = smp.2 /\ manipulated_object (robot sc) = held
      /\ current_traj_time (flags sc) = smp.1)
  /\ (abort_execution (flags sa) = true \/ cancel_execution (flags sc) = true ->
      (exists st msg, out.1 = Break st msg)
      /\ pose (robot out.2) = smp.2
      /\ manipulated_object (robot out.2) = held
      /\ current_traj_time (flags out.2) = smp.1
      /\ battery_level (robot out.2) = battery_level (robot s)).
Proof.
  cbn zeta.
  destruct (at_abort_check_body sched i smp s) as (Ba1 & Ba2 & Ba3).
  destruct (at_cancel_check_body sched i smp s) as (Bc1 & Bc2 & Bc3).
  destruct (push_sample_spec smp s) as (_ & T & _).
  pose proof (frame_time _ _ (at_abort_check_frame sched i smp s)) as Ta.
  pose proof (frame_time _ _ (at_cancel_check_frame sched i smp s)) as Tc.
  rewrite T in Ta, Tc.
  split_ands; auto.
  apply tick_flag_stop.
Qed.

(** ** Battery *)

Lemma battery_set_level b s : battery_level (robot (set_battery_level b s)) = b.
Proof. destruct s as [e r]. now destruct r. Qed.

Lemma battery_log msg s : battery_level (robot (log msg s)) = battery_level (robot s).
Proof. destruct s as [e r]. now destruct r. Qed.

(** What a tick does to the battery level. *)
Lemma tick_battery_spec sched bu i prev smp s :
  let b := battery_level (robot s) in
  let d := (b - bu * get_linear_distance smp.2 prev)%Q in
  let out := tick sched bu i prev smp s in
  (abort_execution (flags (at_abort_check sched i smp s)) = false ->
   cancel_execution (flags (at_cancel_check sched i smp s)) = false ->
   if Qle_bool d 0 then
     out.1 = Break EXECUTION_FAILURE depleted_message
     /\ battery_level (robot out.2) = 0%Q
   else
     out.1 = Continue /\ battery_level (robot out.2) = d)
  /\ ((0 <= b)%Q -> (0 <= battery_level (robot out.2))%Q)
  /\ ((0 <= b)%Q -> (0 <= bu)%Q -> (0 <= get_linear_distance smp.2 prev)%Q ->
      (battery_level (robot out.2) <= b)%Q).
Proof.
  cbn zeta.
  assert (D : drained sched bu i prev smp s
              = (battery_level (robot s) - bu * get_linear_distance smp.2 prev)%Q).
  { unfold drained. now rewrite at_cancel_check_battery. }
  assert (K : abort_execution (flags (at_abort_check sched i smp s)) = false ->
              cancel_execution (flags (at_cancel_check sched i smp s)) = false ->
              if Qle_bool (battery_level (robot s)
                           - bu * get_linear_distance smp.2 prev) 0
              then (tick sched bu i prev smp s).1
                   = Break EXECUTION_FAILURE depleted_message
                   /\ battery_level (robot (tick sched bu i prev smp s).2) = 0%Q
              else (tick sched bu i prev smp s).1 = Continue
                   /\ battery_level (robot (tick sched bu i prev smp s).2)
                      = (battery_level (robot s)
                         - bu * get_linear_distance smp.2 prev)%Q).
  { intros A C. rewrite tick_battery, D by assumption.
    destruct (Qle_bool _ _); cbn [fst snd]; split; auto.
    rewrite (frame_battery _ _ (interfere_frame _ _)).
    apply battery_set_level. }
  assert (U : abort_execution (flags (at_abort_check sched i smp s)) = true
              \/ cancel_execution (flags (at_cancel_check sched i smp s)) = true ->
              battery_level (robot (tick sched bu i prev smp s).2)
              = battery_level (robot s)).
  { intros O. now apply tick_flag_stop. }
  split_ands; [exact K | |].
  - intros Hb.
    destruct (abort_execution (flags (at_abort_check sched i smp s))) eqn:A;
      [rewrite U by auto; exact Hb|].
    destruct (cancel_execution (flags (at_cancel_check sched i smp s))) eqn:C;
      [rewrite U by auto; exact Hb|].
    specialize (K eq_refl eq_refl).
    destruct (Qle_bool _ _) eqn:Hq; destruct K as [_ ->].
    + apply Qle_refl.
    + apply Qle_bool_false in Hq. now apply Qlt_le_weak.
  - intros Hb Hu Hd.
    assert (0 <= bu * get_linear_distance smp.2 prev)%Q as Hp
      by now apply Qmult_le_0_compat.
    destruct (abort_execution (flags (at_abort_check sched i smp s))) eqn:A;
      [rewrite U by auto; apply Qle_refl|].
    destruct (cancel_execution (flags (at_cancel_check sched i smp s))) eqn:C;
      [rewrite U by auto; apply Qle_refl|].
    specialize (K eq_refl eq_refl).
    destruct (Qle_bool _ _) eqn:Hq; destruct K as [_ ->].
    + exact Hb.
    + rewrite <- (Qplus_0_r (battery_level (robot s))) at 2.
      unfold Qminus. apply Qplus_le_r.
      apply (Qopp_le_compat 0), Hp.
Qed.

(** Over a whole loop: a battery level that is not negative stays so, and
    does not go up when usage and distances are not negative. *)
Lemma main_loop_battery sched bu i prev samples s :
  let out := main_loop sched bu i prev samples s in
  (0 <= battery_level (robot s))%Q ->
  (0 <= battery_level (robot out.2))%Q
  /\ ((0 <= bu)%Q -> (forall p q, 0 <= get_linear_distance p q)%Q ->
      (battery_level (robot out.2) <= battery_level (robot s))%Q).
Proof.
  cbn zeta. revert i prev s.
  induction samples as [|smp rest IH]; intros i prev s Hb; cbn [main_loop].
  - split; [exact Hb | intros; apply Qle_refl].
  - destruct (tick_battery_spec sched bu i prev smp s) as (_ & N & M).
    destruct (tick sched bu i prev smp s) as [[| |] s'] eqn:T; cbn [fst snd] in *.
    + destruct (IH (S i) smp.2 s' (N Hb)) as [IH1 IH2]. split; [exact IH1|].
      intros Hu Hd. eapply Qle_trans; [apply IH2 | apply M]; auto.
    + split; auto.
    + split; auto.
Qed.

(** ** The end of a call *)

Lemma follow_returns sched rf bu ti s0 smp0 :
  Qeq_bool rf 0 = false ->
  ti !! 0 = Some smp0 ->
  let loop := main_loop sched bu 0 smp0.2 ti (interfere (sched AtStart) s0) in
  exists st msg,
    (loop.1 = Break st msg \/ (loop.1 = Continue /\ st = SUCCESS /\ msg = no_message))
    /\ follow sched rf bu ti s0
       = (Returned (mkResult st msg), attach (finalize sched st msg loop.2).2).
Proof.
  intros R E0. cbn zeta. unfold follow. rewrite R.
  destruct ti as [|smp0' rest] eqn:Eti; [discriminate|]. rewrite <- Eti in *.
  assert (smp0' = smp0) as -> by (rewrite Eti in E0; now injection E0).
  pose proof (main_loop_not_blocked sched bu 0 smp0.2 ti
                (interfere (sched AtStart) s0)) as NB.
  destruct (main_loop _ _ _ _ _ _) as [[|st msg|] s'] eqn:L; cbn [fst snd] in *.
  - exists SUCCESS, no_message. split; [right; auto | reflexivity].
  - exists st, msg. split; [left; auto | reflexivity].
  - congruence.
Qed.

(** The tick at which a loop breaks. *)
Lemma main_loop_break_at sched bu i prev samples s st msg s' :
  main_loop sched bu i prev samples s = (Break st msg, s') ->
  exists k smp s_k,
    samples !! k = Some smp
    /\ main_loop sched bu i prev (take k samples) s = (Continue, s_k)
    /\ tick sched bu (i + k) (pose_after prev (take k samples)) smp s_k
       = (Break st msg, s').
Proof.
  revert i prev s. induction samples as [|smp rest IH]; intros i prev s;
    cbn [main_loop]; [discriminate|].
  destruct (tick sched bu i prev smp s) as [[| |] s1] eqn:T.
  - intros L. destruct (IH _ _ _ L) as (k & smp' & s_k & Ek & Lk & Tk).
    exists (S k), smp', s_k. split_ands; [exact Ek | |].
    + cbn [take main_loop]. now rewrite T.
    + cbn [take]. rewrite pose_after_cons.
      now replace (i + S k) with (S i + k) by lia.
  - intros [= <- <- <-]. exists 0, smp, s. rewrite Nat.add_0_r.
    split_ands; [reflexivity | reflexivity | exact T].
  - discriminate.
Qed.

(** The branch a tick that breaks has taken. *)
Lemma tick_break_inv sched bu i prev smp s st msg s' :
  tick sched bu i prev smp s = (Break st msg, s') ->
  (abort_execution (flags (at_abort_check sched i smp s)) = true
   /\ st = EXECUTION_FAILURE /\ msg = aborted_message)
  \/ (abort_execution (flags (at_abort_check sched i smp s)) = false
      /\ ((st = CANCELED /\ msg = canceled_message)
          \/ (st = EXECUTION_FAILURE /\ msg = depleted_message))).
Proof.
  destruct (abort_execution (flags (at_abort_check sched i smp s))) eqn:A.
  - rewrite tick_abort by exact A. intros [= <- <- _]. auto.
  - destruct (cancel_execution (flags (at_cancel_check sched i smp s))) eqn:C.
    + rewrite tick_cancel by assumption. intros [= <- <- _]. auto.
    + rewrite tick_battery by assumption.
      destruct (Qle_bool _ _); [|discriminate].
      intros [= <- <- _]. auto.
Qed.

(** ** The abort, seen and unseen *)

(** C1, as amended.  In a call that passes the precondition checks: if it
    gets to a tick [i] that finds [abort_execution] set when it reads it,
    then the tick leaves the loop with [abort_execution] still set,
    [execute] returns EXECUTION_FAILURE, and both threads the call started
    have ended by then: the validator (started when validation is on and the
    robot has a world) and the tracker (started under fog); a thread that had
    ended before the call is not revived.  And if every tick the call gets
    to finds the flag clear when it reads it, then whatever is written to
    the flag at any other moment, a result that is returned is not the abort
    failure: it is the success, the cancellation or the battery depletion
    that the loop came to. *)
Theorem abort_observed_fails_and_joins sched path rf bu w ti s0 :
  prepared path w = Some (ti, s0) ->
  Qeq_bool rf 0 = false ->
  (forall i smp s_i,
      tick_entry sched bu ti s0 i = Some s_i ->
      ti !! i = Some smp ->
      abort_execution (flags (at_abort_check sched i smp s_i)) = true ->
      exists s_exit s_end,
        (forall prev,
            tick sched bu i prev smp s_i
            = (Break EXECUTION_FAILURE aborted_message, s_exit))
        /\ abort_execution (flags s_exit) = true
        /\ execute sched path rf bu w
           = (Returned (mkResult EXECUTION_FAILURE aborted_message),
              attach s_end)
        /\ (validate_during_execution (cfg s0) = true ->
            is_Some (world (robot s0)) ->
            validation_timer (self s_end) = Some VDone)
        /\ (fog_hallways (robot s0) = true ->
            lidar_sensor_timer (self s_end) = Some LDone)
        /\ (validator_stopped s0 -> validator_stopped s_end)
        /\ (tracker_stopped s0 -> tracker_stopped s_end))
  /\ ((forall i smp s_i,
          tick_entry sched bu ti s0 i = Some s_i ->
          ti !! i = Some smp ->
          abort_execution (flags (at_abort_check sched i smp s_i)) = false) ->
      forall res w',
        execute sched path rf bu w = (Returned res, w') ->
        res = mkResult SUCCESS no_message
        \/ res = mkResult CANCELED canceled_message
        \/ res = mkResult EXECUTION_FAILURE depleted_message).
Proof.
  intros P R. split.
  - intros i smp s_i E Ei A.
    set (sa := at_abort_check sched i smp s_i) in *.
    set (sj := (join_threads sched i sa).2).
    exists (log aborted_message sj), (finalize sched EXECUTION_FAILURE aborted_message
                            (log aborted_message sj)).2.
    destruct (join_threads_returns sched i sa A) as (_ & Fj & Jv & Jt).
    fold sj in Fj, Jv, Jt.
    pose proof (join_threads_steady sched i sa) as Sj. fold sj in Sj.
    pose proof (tick_entry_steady _ _ _ _ _ _ E) as S0.
    assert (Sa : steady s_i sa).
    { eapply steady_trans; [apply push_sample_steady | apply interfere_steady]. }
    pose proof (steady_trans _ _ _ S0 Sa) as S0a.
    destruct (finalize_spec sched EXECUTION_FAILURE aborted_message
                (log aborted_message sj)) as (F1 & _ & _ & _ & _ & Fv & Ft & Cv & Ct).
    destruct (prepared_start _ _ _ _ P) as (r & Er & Ec & _ & Erob & Ev & El).
    split_ands.
    + intros prev. apply tick_abort, A.
    + apply (frame_abort _ _ Fj A).
    + rewrite (execute_prepared _ _ _ _ _ _ _ P).
      destruct (prev_pose_at_is_Some ti i smp Ei) as [prev Ep].
      rewrite (follow_break _ _ _ _ _ _ _ _ _ _ _ _ R E Ei Ep
                 (tick_abort _ _ _ prev _ _ A)).
      reflexivity.
    + intros V W.
      apply validator_stopped_created.
      * apply Fv. apply Jv. left. now rewrite (steady_config _ _ S0a).
      * apply Cv. apply (steady_validator _ _ Sj), (steady_validator _ _ S0a).
        rewrite Ev, <- Ec, V, <- Erob. cbn [andb].
        rewrite bool_decide_eq_true_2 by exact W. eauto.
    + intros G.
      apply tracker_stopped_created.
      * apply Ft. apply Jt. left. now rewrite (steady_fog _ _ S0a).
      * apply Ct. apply (steady_tracker _ _ Sj), (steady_tracker _ _ S0a).
        rewrite El, <- Erob, G. eauto.
    + intros V. apply Fv, (steady_validator_stopped _ _ Sj),
        (steady_validator_stopped _ _ S0a), V.
    + intros V. apply Ft, (steady_tracker_stopped _ _ Sj),
        (steady_tracker_stopped _ _ S0a), V.
  - intros Clear res w' X.
    rewrite (execute_prepared _ _ _ _ _ _ _ P) in X.
    destruct ti as [|smp0 rest] eqn:Eti.
    { unfold follow in X. rewrite R in X. discriminate. }
    rewrite <- Eti in *.
    assert (E0 : ti !! 0 = Some smp0) by now rewrite Eti.
    destruct (follow_returns sched rf bu ti s0 smp0 R E0)
      as (st & msg & O & F).
    rewrite F in X. injection X as <- _.
    destruct O as [O|(_ & -> & ->)]; [|auto].
    destruct (main_loop sched bu 0 smp0.2 ti (interfere (sched AtStart) s0))
      as [o s'] eqn:L.
    cbn [fst] in O. subst o.
    destruct (main_loop_break_at _ _ _ _ _ _ _ _ _ L)
      as (k & smp & s_k & Ek & Lk & Tk).
    assert (E : tick_entry sched bu ti s0 k = Some s_k).
    { unfold tick_entry. rewrite Eti, <- Eti. now rewrite Lk. }
    cbn [Nat.add] in Tk.
    destruct (tick_break_inv _ _ _ _ _ _ _ _ _ Tk)
      as [(A & _)|(_ & [[-> ->]|[-> ->]])]; auto.
    rewrite (Clear k smp s_k E Ek) in A. discriminate.
Qed.

(** C7, as amended.  In a call that passes the precondition checks, the
    planner is not reset while the loop runs, and it is reset after the
    loop, once, exactly when [hallway_states_updated] (clear when the threads
    are started) is set at the moment [execute] reads it after the loop and
    the planner is a PRM or an A* planner. *)
Theorem planner_reset_once_after_loop sched path rf bu w ti s0 smp0 :
  prepared path w = Some (ti, s0) ->
  Qeq_bool rf 0 = false ->
  ti !! 0 = Some smp0 ->
  let loop := main_loop sched bu 0 smp0.2 ti (interfere (sched AtStart) s0) in
  exists res s_end,
    execute sched path rf bu w = (Returned res, attach s_end)
    /\ hallway_states_updated (flags s0) = false
    /\ planner_resets (robot loop.2) = planner_resets (robot s0)
    /\ planner_resets (robot s_end)
       = planner_resets (robot s0)
         + (if hallway_states_updated (flags (at_planner_check sched loop.2))
               && is_graph_planner (path_planner (robot s0))
            then 1 else 0).
Proof.
  intros P R E0. cbn zeta.
  destruct (follow_returns sched rf bu ti s0 smp0 R E0) as (st & msg & _ & F).
  set (loop := main_loop sched bu 0 smp0.2 ti (interfere (sched AtStart) s0)) in *.
  exists (mkResult st msg), (finalize sched st msg loop.2).2.
  destruct (finalize_spec sched st msg loop.2) as (_ & _ & Rs & _).
  assert (S : steady s0 loop.2).
  { eapply steady_trans; [apply interfere_steady | apply main_loop_steady]. }
  destruct (prepared_start _ _ _ _ P) as (r & _ & _ & Fl & _).
  split_ands.
  - now rewrite (execute_prepared _ _ _ _ _ _ _ P).
  - now rewrite Fl.
  - apply (steady_resets _ _ S).
  - now rewrite Rs, (steady_resets _ _ S), (steady_planner _ _ S).
Qed.

(** *** Requests that come late *)

Lemma scan_hallways_cancel hs pt s :
  cancel_execution (flags (scan_hallways hs pt s)) = cancel_execution (flags s).
Proof.
  induction hs as [|h hs IH]; cbn [scan_hallways]; [reflexivity|].
  repeat case_match; try exact IH; destruct s as [[? [] ? ? ?] []]; reflexivity.
Qed.

Lemma validator_step_cancel th s :
  cancel_execution (flags (validator_step th s).2) = cancel_execution (flags s).
Proof.
  destruct th; cbn [validator_step]; repeat case_match; cbn [snd];
    reflexivity.
Qed.

Lemma tracker_step_cancel th s :
  cancel_execution (flags (tracker_step th s).2) = cancel_execution (flags s).
Proof.
  destruct th as [|l|l [|pt pts]|]; cbn [tracker_step]; repeat case_match;
    cbn [snd]; try reflexivity; apply scan_hallways_cancel.
Qed.

Lemma act_cancel a s :
  a <> User ->
  cancel_execution (flags (act a s)) = cancel_execution (flags s).
Proof.
  intros N. destruct a; [| |congruence]; cbn [act].
  - destruct (validation_timer (self s)) as [th|]; [|reflexivity].
    pose proof (validator_step_cancel th s) as C.
    destruct (validator_step th s) as [th' s']. exact C.
  - destruct (lidar_sensor_timer (self s)) as [th|]; [|reflexivity].
    pose proof (tracker_step_cancel th s) as C.
    destruct (tracker_step th s) as [th' s']. exact C.
Qed.

Lemma interfere_cancel acts s :
  User ∉ acts ->
  cancel_execution (flags (interfere acts s)) = cancel_execution (flags s).
Proof.
  revert s. induction acts as [|a acts IH]; intros s N; [reflexivity|].
  change (interfere (a :: acts) s) with (interfere acts (act a s)).
  rewrite IH by (intros I; apply N; now right).
  apply act_cancel. intros ->. apply N. now left.
Qed.

(** Without a request before one of its flag checks, the loop does not end
    as canceled. *)
Lemma main_loop_not_canceled sched bu i prev samples s n :
  i + length samples = n ->
  (forall p, User ∈ sched p -> after_last_check n p = true) ->
  cancel_execution (flags s) = false ->
  forall msg, (main_loop sched bu i prev samples s).1 <> Break CANCELED msg.
Proof.
  intros Len Late. revert i prev s Len.
  assert (NU : forall p, after_last_check n p = false -> User ∉ sched p).
  { intros p L I. rewrite (Late p I) in L. discriminate. }
  induction samples as [|smp rest IH]; intros i prev s Len C msg;
    cbn [main_loop]; [discriminate|].
  cbn [length] in Len.
  assert (Cc : cancel_execution (flags (at_cancel_check sched i smp s)) = false).
  { unfold at_cancel_check, at_abort_check.
    rewrite !interfere_cancel by (apply NU; reflexivity).
    destruct (push_sample_spec smp s) as (_ & _ & _ & _ & _ & -> & _). exact C. }
  destruct (abort_execution (flags (at_abort_check sched i smp s))) eqn:A.
  - rewrite tick_abort by exact A. discriminate.
  - rewrite tick_battery by assumption.
    destruct (Qle_bool _ _); [discriminate|].
    destruct rest as [|smp' rest']; [discriminate|].
    apply IH; [cbn [length] in *; lia|].
    rewrite interfere_cancel.
    + destruct (at_cancel_check sched i smp s) as [[? [] ? ? ?] []]. exact Cc.
    + apply NU. cbn [after_last_check]. apply bool_decide_eq_false.
      cbn [length] in Len. lia.
Qed.

(** C10, as amended.  In a call that passes the precondition checks, when
    cancellation is requested only after the last flag check of the loop
    (while the last tick sleeps, while the abort branch waits for the
    threads, or after the loop), the result is not CANCELED; the five fields of the execution state are at their
    baseline right after the final [reset_state], and they are when
    [execute] returns if nobody runs during the grace period that follows.
    What is written during the grace period is still there when [execute]
    returns. *)
Theorem late_cancel_is_discarded sched path rf bu w ti s0 smp0 :
  prepared path w = Some (ti, s0) ->
  Qeq_bool rf 0 = false ->
  ti !! 0 = Some smp0 ->
  (forall p, User ∈ sched p -> after_last_check (num_points ti) p = true) ->
  let loop := main_loop sched bu 0 smp0.2 ti (interfere (sched AtStart) s0) in
  exists res s_end,
    execute sched path rf bu w = (Returned res, attach s_end)
    /\ status res <> CANCELED
    /\ flags (at_final_reset sched loop.2) = baseline
    /\ flags s_end
       = flags (interfere (sched DuringGrace) (at_final_reset sched loop.2))
    /\ (sched DuringGrace = [] -> flags s_end = baseline).
Proof.
  intros P R E0 Late. cbn zeta.
  destruct (follow_returns sched rf bu ti s0 smp0 R E0) as (st & msg & O & F).
  set (loop := main_loop sched bu 0 smp0.2 ti (interfere (sched AtStart) s0)) in *.
  exists (mkResult st msg), (finalize sched st msg loop.2).2.
  destruct (finalize_spec sched st msg loop.2) as (_ & _ & _ & _ & Fl & _).
  destruct (at_final_reset_spec sched loop.2) as (Bl & _).
  destruct (prepared_start _ _ _ _ P) as (r & _ & _ & F0 & _).
  assert (C0 : cancel_execution (flags (interfere (sched AtStart) s0)) = false).
  { rewrite interfere_cancel, F0; [reflexivity|].
    intros I. specialize (Late _ I). discriminate. }
  pose proof (main_loop_not_canceled sched bu 0 smp0.2 ti _ (num_points ti)
                eq_refl Late C0) as NC.
  fold loop in NC.
  split_ands.
  - now rewrite (execute_prepared _ _ _ _ _ _ _ P).
  - cbn [status]. intros ->.
    destruct O as [O|(_ & O & _)]; [apply (NC msg), O | discriminate].
  - exact Bl.
  - exact Fl.
  - intros G. rewrite Fl, G. exact Bl.
Qed.

(** ** Precondition failures *)

(** C6, as amended.  A call with no robot attached, with a path of fewer
    than two poses, or whose trajectory cannot be generated or interpolated,
    returns PRECONDITION_FAILURE and leaves untouched the execution state,
    the threads (none is started), and the pose, battery level, held object,
    hallway knowledge, planner and last result of the robot.  It is not
    without effect: the message is logged (on the robot, when there is
    one), and once a robot is attached and the path has two poses the
    attribute [traj] holds what the generation returned, [None] when it
    failed; before that [traj] is as it was. *)
Theorem precondition_failure_keeps_state sched path rf bu w :
  let c := config (sys_self w) in
  let generated :=
    get_constant_speed_trajectory path (linear_velocity c)
      (max_angular_velocity c) in
  sys_robot w = None
  \/ num_poses path < 2
  \/ generated = None
  \/ (exists tr, generated = Some tr /\ interpolate_trajectory tr (dt c) = None) ->
  exists msg,
    (execute sched path rf bu w).1 = Returned (mkResult PRECONDITION_FAILURE msg)
    /\ untouched w (execute sched path rf bu w).2
    /\ logger <$> sys_robot (execute sched path rf bu w).2
       = (fun r => logger r ++ [msg]) <$> sys_robot w
    /\ traj (sys_self (execute sched path rf bu w).2)
       = match sys_robot w with
         | None => traj (sys_self w)
         | Some _ =>
             if num_poses path <? 2 then traj (sys_self w) else generated
         end.
Proof.
  cbn zeta. intros Hf. unfold execute.
  destruct w as [e [r|]]; cbn [sys_robot sys_self] in *.
  2: { eexists. split_ands; try reflexivity. unfold untouched. cbn. auto 10. }
  assert (U : forall msg tr0,
             untouched (mkSystem e (Some r))
               (precondition_failure msg (set_traj tr0 (mkRun e r))).2).
  { intros msg tr0. destruct e, r. unfold untouched. cbn. auto 10. }
  assert (U' : forall msg,
             untouched (mkSystem e (Some r))
               (precondition_failure msg (mkRun e r)).2).
  { intros msg. destruct e, r. unfold untouched. cbn. auto 10. }
  destruct (num_poses path <? 2) eqn:Np.
  { eexists. split_ands; [reflexivity | apply U' | now destruct r | reflexivity]. }
  cbn [set_traj traj self cfg config].
  destruct (get_constant_speed_trajectory _ _ _) as [tr|] eqn:G.
  2: { eexists.
       split_ands; [reflexivity | apply U | now destruct r | reflexivity]. }
  destruct (interpolate_trajectory tr _) as [traj_interp|] eqn:I.
  2: { eexists.
       split_ands; [reflexivity | apply U | now destruct r | reflexivity]. }
  exfalso. apply Nat.ltb_ge in Np.
  destruct Hf as [Hf|[Hf|[Hf|(tr' & Hf & Hf')]]]; try discriminate; try lia.
  cbn [cfg self config] in *. congruence.
Qed.

(** ** The hallway tracker *)

Lemma analyse_pose_spec cur_pose max_range measured_angles measured_lengths :
  analyse_pose cur_pose max_range measured_angles measured_lengths
  = map (world_frame_point cur_pose)
      (List.filter (beam_in_range max_range)
         (zip measured_angles measured_lengths)).
Proof.
  revert measured_lengths.
  induction measured_angles as [|angle angles' IH];
    intros [|len lengths']; try reflexivity.
  cbn [analyse_pose zip zip_with List.filter]. rewrite IH.
  change (beam_in_range max_range (angle, len)) with (Qltb len max_range).
  destruct (Qltb len max_range); reflexivity.
Qed.

(** The update of the record, of the log and of the flag for hallway [h]. *)
Lemma scan_hallways_spec hs pt s :
  scan_hallways hs pt s
  = match first_disagreeing_hallway hs pt (recorded_closed_hallways (robot s)) with
    | None => s
    | Some h =>
        set_hallway_states_updated true
          (log (update_message h)
             (set_recorded_closed_hallways
                (updated_record h (recorded_closed_hallways (robot s))) s))
    end.
Proof.
  unfold first_disagreeing_hallway.
  induction hs as [|h hs IH]; cbn [scan_hallways List.find]; [reflexivity|].
  unfold state_disagrees at 1.
  destruct (intersects_xy _ _ _); cbn [andb]; [|exact IH].
  destruct (is_open h) eqn:O; cbn [negb];
    destruct (bool_decide _); cbn [negb]; try exact IH;
    unfold updated_record, update_message; rewrite O; reflexivity.
Qed.

Lemma first_disagreeing_hallway_disagrees hs pt recorded h :
  first_disagreeing_hallway hs pt recorded = Some h ->
  h ∈ hs
  /\ intersects_xy (internal_collision_polygon h) pt.1 pt.2 = true
  /\ state_disagrees recorded h = true.
Proof.
  unfold first_disagreeing_hallway. intros F.
  apply find_some in F as [I F]. apply andb_true_iff in F as [F1 F2].
  split_ands; auto. now apply list_elem_of_In.
Qed.

(** C4.  In an iteration of the tracker the points to test are the
    world-frame points, from the pose and yaw the robot has then, of exactly
    the beams whose range is below the maximum range of the sensor, in the
    order of the beams.  For each point, the first hallway that contains it
    and whose ground truth disagrees with the record is updated: added when
    closed and not recorded, removed when open and recorded, with
    [hallway_states_updated] set; no hallway of that kind, no change.  The
    record changes in at most one hallway per point. *)
Theorem tracker_updates_first_disagreeing_hallway lidar w pt pts s :
  world (robot s) = Some w ->
  let cur_pose := pose (robot s) in
  let recorded := recorded_closed_hallways (robot s) in
  let after := (tracker_step (LScan lidar (pt :: pts)) s).2 in
  let recorded' := recorded_closed_hallways (robot after) in
  (loop_condition s = true ->
   tracker_step (LLoop lidar) s
   = (LScan lidar
        (map (world_frame_point cur_pose)
           (List.filter (beam_in_range (max_range_m lidar))
              (zip (angles lidar) (get_measurement lidar w cur_pose)))), s))
  /\ (tracker_step (LScan lidar (pt :: pts)) s).1 = LScan lidar pts
  /\ match first_disagreeing_hallway (hallways w) pt recorded with
     | None => after = s
     | Some h =>
         h ∈ hallways w
         /\ intersects_xy (internal_collision_polygon h) pt.1 pt.2 = true
         /\ (if is_open h
             then (hallway_id h ∈ recorded)
                  /\ recorded' = recorded ∖ {[hallway_id h]}
             else (hallway_id h ∉ recorded)
                  /\ recorded' = recorded ∪ {[hallway_id h]})
         /\ hallway_states_updated (flags after) = true
         /\ after = set_hallway_states_updated true
                      (log (update_message h)
                         (set_recorded_closed_hallways (updated_record h recorded) s))
     end
  /\ size ((recorded' ∖ recorded) ∪ (recorded ∖ recorded')) <= 1.
Proof.
  intros W. cbn zeta. cbn [tracker_step]. rewrite W. cbn [fst snd].
  rewrite scan_hallways_spec.
  split_ands.
  - intros ->. now rewrite analyse_pose_spec.
  - reflexivity.
  - destruct (first_disagreeing_hallway _ _ _) as [h|] eqn:F; [|reflexivity].
    destruct (first_disagreeing_hallway_disagrees _ _ _ _ F) as (I & X & D).
    assert (R : recorded_closed_hallways
                  (robot (set_hallway_states_updated true
                            (log (update_message h)
                               (set_recorded_closed_hallways
                                  (updated_record h (recorded_closed_hallways (robot s))) s))))
                = updated_record h (recorded_closed_hallways (robot s))).
    { destruct s as [e r]. destruct r. reflexivity. }
    split_ands; auto.
    rewrite R. unfold state_disagrees in D. unfold updated_record.
    destruct (is_open h).
    + apply bool_decide_eq_true in D. auto.
    + apply negb_true_iff, bool_decide_eq_false in D. auto.
  - destruct (first_disagreeing_hallway _ _ _) as [h|] eqn:F.
    + destruct (first_disagreeing_hallway_disagrees _ _ _ _ F) as (_ & _ & D).
      replace (recorded_closed_hallways (robot _))
        with (updated_record h (recorded_closed_hallways (robot s)))
        by (destruct s as [e r]; now destruct r).
      rewrite (updated_record_changes_one _ _ D), size_singleton. lia.
    + rewrite unchanged_record_changes_none, size_empty. lia.
Qed.

(** ** The path validator *)

Lemma enumerate_break_spec cur ts i0 idx :
  enumerate_break cur i0 ts = Some idx ->
  i0 <= idx
  /\ idx - i0 < length ts
  /\ (forall j t, j < idx - i0 -> ts !! j = Some t -> (t < cur)%Q)
  /\ ((exists k t, ts !! k = Some t /\ (cur <= t)%Q) ->
      exists t, ts !! (idx - i0) = Some t /\ (cur <= t)%Q).
Proof.
  revert i0. induction ts as [|t ts' IH]; intros i0; cbn [enumerate_break];
    [discriminate|].
  destruct (Qle_bool cur t) eqn:Le.
  - intros [= <-]. rewrite Nat.sub_diag. cbn [length]. split_ands; try lia.
    intros _. exists t. split; [reflexivity | now apply Qle_bool_iff].
  - apply Qle_bool_false in Le. destruct ts' as [|t2 ts''].
    + intros [= <-]. rewrite Nat.sub_diag. cbn [length]. split_ands; try lia.
      intros (k & t' & Ek & Lk). destruct k as [|k]; [|discriminate].
      injection Ek as <-. exfalso. apply (Qlt_not_le _ _ Le Lk).
    + intros E. destruct (IH _ E) as (L1 & L2 & B & X).
      replace (idx - i0) with (S (idx - S i0)) by lia.
      cbn [length] in *. split_ands; try lia.
      * intros [|j] t' Hj Ej.
        -- now injection Ej as <-.
        -- apply (B j t'); [lia | exact Ej].
      * intros (k & t' & Ek & Lk). destruct k as [|k].
        -- injection Ek as <-. exfalso. apply (Qlt_not_le _ _ Le Lk).
        -- apply X. eauto.
Qed.

(** An index that is not the last was picked for its timestamp. *)
Lemma enumerate_break_early cur ts i0 idx :
  enumerate_break cur i0 ts = Some idx ->
  idx - i0 < length ts - 1 ->
  exists t, ts !! (idx - i0) = Some t /\ (cur <= t)%Q.
Proof.
  revert i0. induction ts as [|t ts' IH]; intros i0; cbn [enumerate_break];
    [discriminate|].
  destruct (Qle_bool cur t) eqn:Le.
  - intros [= <-] _. rewrite Nat.sub_diag. exists t.
    split; [reflexivity | now apply Qle_bool_iff].
  - destruct ts' as [|t2 ts''].
    + intros [= <-]. cbn [length]. lia.
    + intros E L. destruct (enumerate_break_spec _ _ _ _ E) as (L1 & _).
      destruct (IH _ E) as (t' & Et & Lt); [cbn [length] in *; lia|].
      exists t'. replace (idx - i0) with (S (idx - S i0)) by lia.
      split; [exact Et | exact Lt].
Qed.

(** The index is bound as soon as there is a timestamp. *)
Lemma enumerate_break_none cur ts i0 :
  enumerate_break cur i0 ts = None -> ts = [].
Proof.
  revert i0. induction ts as [|t ts' IH]; intros i0; cbn [enumerate_break];
    [reflexivity|].
  destruct (Qle_bool cur t); [discriminate|].
  destruct ts' as [|t2 ts'']; [discriminate|].
  intros E. discriminate (IH _ E).
Qed.

(** The only step of the validator that writes: the one after a failed
    check. *)
Lemma validator_step_effect th s :
  (validator_step th s).2 = s
  \/ (th = VAbortPending
      /\ (validator_step th s).2
         = set_abort_execution true (log collision_message s)).
Proof.
  destruct th; cbn [validator_step]; repeat case_match; cbn [snd]; auto.
Qed.

(** C3.  An iteration of the validator, with the loop condition true: on a
    trajectory that is not empty an index is picked, and it is that of the
    earliest sample whose timestamp is at least [current_traj_time] when
    there is one, that of the last sample when there is none; if it is the
    index of the last sample the thread ends and nothing has changed;
    otherwise the candidate
    path is the current pose of the robot followed by the poses from that
    index on, and the collision check is run on it exactly when it has more
    than 2 poses (and the robot has a world).  The iteration itself changes
    nothing; the thread goes on to write [abort_execution] exactly when the
    check ran and reported a collision, and that write (with its log
    message) is the only change a validator step ever makes. *)
Theorem validator_checks_remaining_path tr s :
  traj (self s) = Some tr ->
  loop_condition s = true ->
  let cur_pose := pose (robot s) in
  let cur_time := current_traj_time (flags s) in
  (forall idx,
      enumerate_break cur_time 0 (t_pts tr) = Some idx ->
      (forall j t, j < idx -> t_pts tr !! j = Some t -> (t < cur_time)%Q)
      /\ ((exists k t, t_pts tr !! k = Some t /\ (cur_time <= t)%Q) ->
          exists t, t_pts tr !! idx = Some t /\ (cur_time <= t)%Q)
      /\ (idx = num_points tr - 1 -> validator_step VLoop s = (VDone, s))
      /\ (idx <> num_points tr - 1 ->
          let remaining := cur_pose :: drop idx (poses tr) in
          validate_iteration tr s
          = if 2 <? length remaining then
              match world (robot s) with
              | None => ValidationSkipped
              | Some w =>
                  ValidationChecked remaining
                    (is_path_collision_free w remaining
                       (validation_step_dist (cfg s)) (fog_hallways (robot s))
                       (recorded_closed_hallways (robot s)))
              end
            else ValidationSkipped))
  /\ (validator_step VLoop s).2 = s
  /\ ((validator_step VLoop s).1 = VAbortPending <->
      exists remaining,
        validate_iteration tr s = ValidationChecked remaining false)
  /\ validator_step VAbortPending s
     = (VLoop, set_abort_execution true (log collision_message s))
  /\ (forall th,
        (validator_step th s).2 = s
        \/ (th = VAbortPending
            /\ (validator_step th s).2
               = set_abort_execution true (log collision_message s)))
  /\ (tr <> [] ->
      exists idx,
        enumerate_break cur_time 0 (t_pts tr) = Some idx
        /\ idx < num_points tr
        /\ ((forall k t, t_pts tr !! k = Some t -> (t < cur_time)%Q) ->
            idx = num_points tr - 1)).
Proof.
  intros T C. cbn zeta. split_ands.
  - intros idx E.
    destruct (enumerate_break_spec _ _ _ _ E) as (_ & _ & B & X).
    rewrite Nat.sub_0_r in *.
    split_ands; auto.
    + intros ->. cbn [validator_step]. rewrite C, T.
      unfold validate_iteration. rewrite E, Nat.eqb_refl. reflexivity.
    + intros N. unfold validate_iteration. rewrite E.
      apply Nat.eqb_neq in N. rewrite N. reflexivity.
  - cbn [validator_step]. rewrite C, T. repeat case_match; reflexivity.
  - cbn [validator_step]. rewrite C, T.
    destruct (validate_iteration tr s) as [|remaining [|]|]; cbn [fst];
      split; try discriminate; eauto;
      intros (remaining' & [=]).
  - reflexivity.
  - intros th. apply validator_step_effect.
  - intros Ne.
    assert (Ln : length (t_pts tr) = num_points tr)
      by (unfold t_pts, num_points; apply length_map).
    destruct (enumerate_break (current_traj_time (flags s)) 0 (t_pts tr))
      as [idx|] eqn:E.
    + destruct (enumerate_break_spec _ _ _ _ E) as (_ & L & _).
      rewrite Nat.sub_0_r in L. exists idx. split_ands; [reflexivity | lia |].
      intros Below.
      destruct (Nat.eq_dec idx (num_points tr - 1)) as [|N]; [assumption|].
      exfalso.
      destruct (enumerate_break_early _ _ _ _ E) as (t & Et & Lt); [lia|].
      apply (Qlt_not_le _ _ (Below _ _ Et) Lt).
    + apply enumerate_break_none in E. destruct tr; [congruence | discriminate].
Qed.

(** ** Battery depletion, for a whole call *)

(** In a call that gets to tick [i], if tick [i] gets past both flag checks
    and brings the battery level to 0 or below, [execute] returns
    EXECUTION_FAILURE with the battery level at 0. *)
Lemma battery_depleted_fails sched path rf bu w ti s0 i smp s_i prev :
  prepared path w = Some (ti, s0) ->
  Qeq_bool rf 0 = false ->
  tick_entry sched bu ti s0 i = Some s_i ->
  ti !! i = Some smp ->
  prev_pose_at ti i = Some prev ->
  abort_execution (flags (at_abort_check sched i smp s_i)) = false ->
  cancel_execution (flags (at_cancel_check sched i smp s_i)) = false ->
  (battery_level (robot s_i) - bu * get_linear_distance smp.2 prev <= 0)%Q ->
  exists s_end,
    execute sched path rf bu w
    = (Returned (mkResult EXECUTION_FAILURE depleted_message), attach s_end)
    /\ battery_level (robot s_end) = 0%Q.
Proof.
  intros P R E Ei Ep A C D.
  destruct (tick_battery_spec sched bu i prev smp s_i) as (K & _).
  specialize (K A C). apply Qle_bool_iff in D. rewrite D in K.
  destruct K as [K1 K2].
  destruct (tick sched bu i prev smp s_i) as [out s'] eqn:T.
  cbn [fst snd] in *. subst out.
  exists (finalize sched EXECUTION_FAILURE depleted_message s').2.
  destruct (finalize_spec sched EXECUTION_FAILURE depleted_message s')
    as (_ & B & _).
  destruct (body_eq _ _ B) as (_ & B2 & _).
  split; [|congruence].
  rewrite (execute_prepared _ _ _ _ _ _ _ P).
  now rewrite (follow_break _ _ _ _ _ _ _ _ _ _ _ _ R E Ei Ep T).
Qed.

(** ** The battery, tick by tick *)

(** The run gets from tick [i] to the next through the tick on sample [i]
    with the pose of the sample before. *)
Lemma tick_entry_next sched bu ti s0 i smp s_i prev :
  tick_entry sched bu ti s0 i = Some s_i ->
  ti !! i = Some smp ->
  prev_pose_at ti i = Some prev ->
  tick_entry sched bu ti s0 (S i)
  = match tick sched bu i prev smp s_i with
    | (Continue, s') => Some s'
    | _ => None
    end.
Proof.
  unfold tick_entry. intros E Ei Ep.
  destruct ti as [|smp0 rest] eqn:Eti; [discriminate|]. rewrite <- Eti in *.
  assert (E0 : ti !! 0 = Some smp0) by now rewrite Eti.
  rewrite (take_S_r _ _ _ Ei), main_loop_app.
  destruct (main_loop sched bu 0 smp0.2 (take i ti) _) as [[| |] s'];
    try discriminate.
  injection E as ->.
  assert (L : i < length ti) by (eapply lookup_lt_Some; eauto).
  rewrite length_take, Nat.min_l by lia. cbn [Nat.add].
  pose proof (pose_after_take ti smp0 i smp E0 Ei) as P.
  rewrite Ep in P. injection P as ->.
  cbn [main_loop].
  now destruct (tick sched bu i prev smp s_i) as [[| |] s'].
Qed.

(** The battery level a tick starts with, in a run. *)
Lemma tick_entry_battery sched bu ti s0 i s_i :
  tick_entry sched bu ti s0 i = Some s_i ->
  (0 <= battery_level (robot s0))%Q ->
  (0 <= battery_level (robot s_i))%Q
  /\ ((0 <= bu)%Q -> (forall p q, 0 <= get_linear_distance p q)%Q ->
      (battery_level (robot s_i) <= battery_level (robot s0))%Q).
Proof.
  unfold tick_entry. destruct ti as [|smp0 rest]; [discriminate|].
  intros E Hb.
  pose proof (frame_battery _ _ (interfere_frame (sched AtStart) s0)) as B.
  rewrite <- B in Hb |- *.
  pose proof (main_loop_battery sched bu 0 smp0.2 (take i (smp0 :: rest))
                (interfere (sched AtStart) s0) Hb) as M.
  destruct (main_loop _ _ _ _ _ _) as [[| |] s']; try discriminate.
  injection E as ->. exact M.
Qed.

(** C2.  In a call that passes the precondition checks and gets to tick [i],
    the tick is run on sample [i] with the pose of the sample before it (of
    the first sample at tick 0).  If it gets past both flag checks it lowers
    the battery level by [battery_usage] times the linear distance between
    the two poses; if the result is 0 or less the level is set to exactly 0,
    the loop ends there and [execute] returns EXECUTION_FAILURE with the
    level at 0; otherwise the run goes on to tick [i + 1] with the lowered
    level.  Whatever the tick does, a level that was not negative is not
    negative after it, and with a usage and a distance that are not negative
    such a level does not go up; and from a level that is not negative at
    the start of the call, the level at every tick is not negative and, with
    such usage and distances, not above the one at the start. *)
Theorem battery_drain_per_tick sched path rf bu w ti s0 i smp s_i prev :
  prepared path w = Some (ti, s0) ->
  Qeq_bool rf 0 = false ->
  tick_entry sched bu ti s0 i = Some s_i ->
  ti !! i = Some smp ->
  prev_pose_at ti i = Some prev ->
  let b := battery_level (robot s_i) in
  let d := (b - bu * get_linear_distance smp.2 prev)%Q in
  let out := tick sched bu i prev smp s_i in
  (abort_execution (flags (at_abort_check sched i smp s_i)) = false ->
   cancel_execution (flags (at_cancel_check sched i smp s_i)) = false ->
   if Qle_bool d 0 then
     out.1 = Break EXECUTION_FAILURE depleted_message
     /\ battery_level (robot out.2) = 0%Q
     /\ tick_entry sched bu ti s0 (S i) = None
     /\ exists s_end,
          execute sched path rf bu w
          = (Returned (mkResult EXECUTION_FAILURE depleted_message),
             attach s_end)
          /\ battery_level (robot s_end) = 0%Q
   else
     out.1 = Continue
     /\ battery_level (robot out.2) = d
     /\ tick_entry sched bu ti s0 (S i) = Some out.2)
  /\ ((0 <= b)%Q -> (0 <= battery_level (robot out.2))%Q)
  /\ ((0 <= b)%Q -> (0 <= bu)%Q -> (0 <= get_linear_distance smp.2 prev)%Q ->
      (battery_level (robot out.2) <= b)%Q)
  /\ ((0 <= battery_level (robot s0))%Q ->
      (0 <= b)%Q
      /\ ((0 <= bu)%Q -> (forall p q, 0 <= get_linear_distance p q)%Q ->
          (b <= battery_level (robot s0))%Q)).
Proof.
  intros P R E Ei Ep. cbn zeta.
  destruct (tick_battery_spec sched bu i prev smp s_i) as (K & N & M).
  pose proof (tick_entry_next sched bu ti s0 i smp s_i prev E Ei Ep) as Nx.
  split_ands; [|exact N | exact M | apply (tick_entry_battery _ _ _ _ _ _ E)].
  intros A C. specialize (K A C).
  destruct (Qle_bool _ 0) eqn:D.
  - destruct K as [K1 K2].
    destruct (battery_depleted_fails sched path rf bu w ti s0 i smp s_i prev
                P R E Ei Ep A C) as (s_end & X & B);
      [now apply Qle_bool_iff|].
    split_ands; [exact K1 | exact K2 | | exists s_end; split; assumption].
    rewrite Nx. destruct (tick sched bu i prev smp s_i) as [o s'].
    cbn [fst] in K1. now subst o.
  - destruct K as [K1 K2].
    split_ands; [exact K1 | exact K2 |].
    rewrite Nx. destruct (tick sched bu i prev smp s_i) as [o s'].
    cbn [fst snd] in *. now subst o.
Qed.

(** * Further properties *)

(** ** Invariants of a run *)

Lemma main_write_refl s : main_write s s.
Proof. constructor; reflexivity. Qed.

Lemma main_write_trans s1 s2 s3 :
  main_write s1 s2 -> main_write s2 s3 -> main_write s1 s3.
Proof. intros [] []. constructor; congruence. Qed.

Lemma main_write_push_sample smp s : main_write s (push_sample smp s).
Proof.
  destruct_run s. destruct r as [p b [o|] ? ? ? ? ? ? ? ?];
    constructor; reflexivity.
Qed.

Lemma main_write_log msg s : main_write s (log msg s).
Proof. destruct_run s. destruct r. constructor; reflexivity. Qed.

Lemma main_write_set_cancel b s : main_write s (set_cancel_execution b s).
Proof. destruct_run s. destruct st. constructor; reflexivity. Qed.

Lemma main_write_set_battery b s : main_write s (set_battery_level b s).
Proof. destruct_run s. destruct r. constructor; reflexivity. Qed.

Section Invariant.

(** A property of the state that every actor keeps, and that does not look
    at what the main loop writes. *)
Variable P : Run -> Prop.
Hypothesis P_act : forall a s, P s -> P (act a s).
Hypothesis P_main : forall s s', main_write s s' -> P s -> P s'.

Lemma interfere_inv acts s : P s -> P (interfere acts s).
Proof.
  revert s. induction acts as [|a acts IH]; intros s I; [exact I|].
  change (interfere (a :: acts) s) with (interfere acts (act a s)). auto.
Qed.

Lemma run_alone_inv a n s : P s -> P (run_alone a n s).2.
Proof.
  revert s. induction n as [|n IH]; intros s I; cbn [run_alone];
    destruct (finished a s); cbn [snd]; auto.
Qed.

Lemma join_inv a acts s : P s -> P (join a acts s).2.
Proof. intros I. unfold join. apply run_alone_inv, interfere_inv, I. Qed.

Lemma join_threads_inv sched i s : P s -> P (join_threads sched i s).2.
Proof.
  intros I. unfold join_threads.
  destruct (validate_during_execution (cfg s)
            && bool_decide (is_Some (validation_timer (self s)))).
  - pose proof (join_inv Validator (sched (DuringJoinValidator i)) s I) as I1.
    destruct (join Validator (sched (DuringJoinValidator i)) s) as [[] s1];
      cbn [snd] in *; [|exact I1].
    destruct (fog_hallways (robot s1)
              && bool_decide (is_Some (lidar_sensor_timer (self s1))));
      [apply join_inv, I1 | exact I1].
  - destruct (fog_hallways (robot s)
              && bool_decide (is_Some (lidar_sensor_timer (self s))));
      [apply join_inv, I | exact I].
Qed.

Lemma at_abort_check_inv sched i smp s : P s -> P (at_abort_check sched i smp s).
Proof.
  intros I. apply interfere_inv, (P_main s); [apply main_write_push_sample | exact I].
Qed.

Lemma at_cancel_check_inv sched i smp s :
  P s -> P (at_cancel_check sched i smp s).
Proof. intros I. apply interfere_inv, at_abort_check_inv, I. Qed.

Lemma tick_inv sched bu i prev smp s : P s -> P (tick sched bu i prev smp s).2.
Proof.
  intros I.
  pose proof (at_abort_check_inv sched i smp s I) as Ia.
  pose proof (at_cancel_check_inv sched i smp s I) as Ic.
  destruct (abort_execution (flags (at_abort_check sched i smp s))) eqn:A.
  - rewrite tick_abort by exact A. cbn [snd].
    eapply P_main; [apply main_write_log | apply join_threads_inv, Ia].
  - destruct (cancel_execution (flags (at_cancel_check sched i smp s))) eqn:C.
    + rewrite tick_cancel by assumption. cbn [snd].
      eapply P_main; [apply main_write_log|].
      eapply P_main; [apply main_write_set_cancel | exact Ic].
    + rewrite tick_battery by assumption.
      destruct (Qle_bool _ _); cbn [snd].
      * eapply P_main; [apply main_write_log|].
        eapply P_main; [apply main_write_set_battery|].
        eapply P_main; [apply main_write_set_battery | exact Ic].
      * apply interfere_inv.
        eapply P_main; [apply main_write_set_battery | exact Ic].
Qed.

Lemma main_loop_inv sched bu i prev samples s :
  P s -> P (main_loop sched bu i prev samples s).2.
Proof.
  revert i prev s. induction samples as [|smp rest IH]; intros i prev s I;
    cbn [main_loop]; [exact I|].
  pose proof (tick_inv sched bu i prev smp s I) as T.
  destruct (tick sched bu i prev smp s) as [[| |] s']; cbn [snd] in *; auto.
Qed.

(** If the property excludes a set abort flag, no tick takes the abort
    branch. *)
Hypothesis P_calm : forall s, P s -> abort_execution (flags s) = false.

Lemma tick_not_aborted sched bu i prev smp s :
  P s -> forall st, (tick sched bu i prev smp s).1 <> Break st aborted_message.
Proof.
  intros I st.
  pose proof (P_calm _ (at_abort_check_inv sched i smp s I)) as A.
  destruct (cancel_execution (flags (at_cancel_check sched i smp s))) eqn:C.
  - rewrite tick_cancel by assumption. cbn [fst].
    unfold canceled_message, aborted_message. congruence.
  - rewrite tick_battery by assumption.
    destruct (Qle_bool _ _); cbn [fst]; [|discriminate].
    unfold depleted_message, aborted_message. congruence.
Qed.

Lemma main_loop_not_aborted sched bu i prev samples s :
  P s ->
  forall st, (main_loop sched bu i prev samples s).1 <> Break st aborted_message.
Proof.
  revert i prev s. induction samples as [|smp rest IH]; intros i prev s I st;
    cbn [main_loop]; [discriminate|].
  pose proof (tick_inv sched bu i prev smp s I) as T.
  pose proof (tick_not_aborted sched bu i prev smp s I st) as N.
  destruct (tick sched bu i prev smp s) as [[| |] s']; cbn [fst snd] in *;
    auto.
Qed.

End Invariant.

(** ** What a call returns *)

Lemma tick_outcomes sched bu i prev smp s :
  let out := (tick sched bu i prev smp s).1 in
  out = Continue
  \/ out = Break EXECUTION_FAILURE aborted_message
  \/ out = Break CANCELED canceled_message
  \/ out = Break EXECUTION_FAILURE depleted_message.
Proof.
  cbn zeta.
  destruct (abort_execution (flags (at_abort_check sched i smp s))) eqn:A.
  - rewrite tick_abort by exact A. auto.
  - destruct (cancel_execution (flags (at_cancel_check sched i smp s))) eqn:C.
    + rewrite tick_cancel by assumption. auto.
    + rewrite tick_battery by assumption. destruct (Qle_bool _ _); auto.
Qed.

Lemma main_loop_outcomes sched bu i prev samples s :
  let out := (main_loop sched bu i prev samples s).1 in
  out = Continue
  \/ out = Break EXECUTION_FAILURE aborted_message
  \/ out = Break CANCELED canceled_message
  \/ out = Break EXECUTION_FAILURE depleted_message.
Proof.
  cbn zeta. revert i prev s.
  induction samples as [|smp rest IH]; intros i prev s; cbn [main_loop]; auto.
  pose proof (tick_outcomes sched bu i prev smp s) as T.
  destruct (tick sched bu i prev smp s) as [[| |] s']; cbn [fst] in *; auto.
Qed.

(** X1.  A call that passes the precondition checks never waits for ever
    in a join of the abort branch, whatever the other actors do: with
    [abort_execution] set both threads end.  And a result that the call
    returns is not a precondition failure, and it is the one recorded as the
    last navigation result of the robot. *)
Theorem execute_never_blocks_and_records sched path rf bu w ti s0 :
  prepared path w = Some (ti, s0) ->
  (execute sched path rf bu w).1 <> Hang
  /\ forall res w',
       execute sched path rf bu w = (Returned res, w') ->
       status res <> PRECONDITION_FAILURE
       /\ last_nav_result <$> sys_robot w' = Some (Some res).
Proof.
  intros P. rewrite (execute_prepared _ _ _ _ _ _ _ P).
  destruct (Qeq_bool rf 0) eqn:R.
  { unfold follow. rewrite R. split; [discriminate | intros ? ? [=]]. }
  destruct ti as [|smp0 rest] eqn:Eti.
  { unfold follow. rewrite R. split; [discriminate | intros ? ? [=]]. }
  rewrite <- Eti in *.
  assert (E0 : ti !! 0 = Some smp0) by now rewrite Eti.
  destruct (follow_returns sched rf bu ti s0 smp0 R E0) as (st & msg & O & F).
  set (loop := main_loop sched bu 0 smp0.2 ti (interfere (sched AtStart) s0)) in *.
  destruct (finalize_spec sched st msg loop.2) as (_ & _ & _ & L & _).
  rewrite F. split; [discriminate|].
  intros res w' [= <- <-]. split.
  - cbn [status]. intros ->.
    pose proof (main_loop_outcomes sched bu 0 smp0.2 ti
                  (interfere (sched AtStart) s0)) as M.
    fold loop in M. cbn zeta in M.
    destruct O as [O|(_ & O & _)]; [|discriminate].
    rewrite O in M. destruct M as [M|[M|[M|M]]]; discriminate.
  - unfold attach. cbn [sys_robot]. rewrite <- L. reflexivity.
Qed.

(** X2.  Whatever the system, the path and the schedule, a result that
    [execute] returns is one of eight: the four precondition failures, each
    with its message, success with an empty message, the abort, the
    cancellation and the battery depletion. *)
Theorem execute_result_is_listed sched path rf bu w res :
  (execute sched path rf bu w).1 = Returned res ->
  res ∈ possible_results.
Proof.
  intros E. apply list_elem_of_In. unfold possible_results.
  destruct (prepared path w) as [[ti s0]|] eqn:P.
  - rewrite (execute_prepared _ _ _ _ _ _ _ P) in E.
    destruct (Qeq_bool rf 0) eqn:R.
    { unfold follow in E. rewrite R in E. discriminate. }
    destruct ti as [|smp0 rest] eqn:Eti.
    { unfold follow in E. rewrite R in E. discriminate. }
    destruct (follow_returns sched rf bu (smp0 :: rest) s0 smp0 R eq_refl)
      as (st & msg & O & F).
    rewrite F in E. injection E as <-.
    pose proof (main_loop_outcomes sched bu 0 smp0.2 (smp0 :: rest)
                  (interfere (sched AtStart) s0)) as M.
    cbn zeta in M.
    destruct O as [O|(_ & -> & ->)]; [|cbn; auto 10].
    rewrite O in M.
    destruct M as [M|[M|[M|M]]]; try discriminate; injection M as -> ->;
      cbn; auto 10.
  - unfold prepared in P. unfold execute in E.
    destruct (sys_robot w) as [r|].
    2: { injection E as <-. cbn. auto. }
    destruct (num_poses path <? 2).
    { injection E as <-. cbn. auto. }
    cbn [set_traj traj self cfg config] in E.
    destruct (get_constant_speed_trajectory _ _ _) as [tr|].
    2: { injection E as <-. cbn. auto. }
    destruct (interpolate_trajectory _ _) as [traj_interp|]; [discriminate|].
    injection E as <-. cbn. auto 10.
Qed.

(** X3.  A call that passes the precondition checks raises, instead of
    returning, when the realtime factor is 0 (the division for the sleep
    time) or the interpolated trajectory is empty (its first pose): this is
    after the threads were started, and the execution state is left with
    [following_path] set, the robot not moved, no result recorded. *)
Theorem execute_raises_after_start sched path rf bu w ti s0 :
  prepared path w = Some (ti, s0) ->
  Qeq_bool rf 0 = true \/ ti = [] ->
  let s := interfere (sched AtStart) s0 in
  execute sched path rf bu w
  = (Raised (if Qeq_bool rf 0 then "ZeroDivisionError" else "IndexError"),
     attach s)
  /\ following_path (flags s) = true
  /\ body s = body s0
  /\ last_nav_result (robot s) = last_nav_result (robot s0).
Proof.
  intros P C. cbn zeta.
  rewrite (execute_prepared _ _ _ _ _ _ _ P). unfold follow.
  pose proof (interfere_frame (sched AtStart) s0) as F.
  destruct (prepared_start _ _ _ _ P) as (r & _ & _ & Fl & _).
  assert (Fp : following_path (flags (interfere (sched AtStart) s0)) = true)
    by now rewrite (frame_following _ _ F), Fl.
  split_ands; auto using frame_body; [|apply (frame_result _ _ F)].
  destruct (Qeq_bool rf 0) eqn:R; [reflexivity|].
  destruct C as [C| ->]; [discriminate | reflexivity].
Qed.

(** ** A run that reaches the end of the trajectory *)

(** A tick after which the loop goes on. *)
Lemma tick_continue sched bu i prev smp s s1 :
  tick sched bu i prev smp s = (Continue, s1) ->
  pose (robot s1) = smp.2
  /\ manipulated_object (robot s1)
     = (fun _ => smp.2) <$> manipulated_object (robot s)
  /\ battery_level (robot s1)
     = (battery_level (robot s) - bu * get_linear_distance smp.2 prev)%Q.
Proof.
  intros T.
  destruct (abort_execution (flags (at_abort_check sched i smp s))) eqn:A.
  { rewrite tick_abort in T by exact A. discriminate. }
  destruct (cancel_execution (flags (at_cancel_check sched i smp s))) eqn:C.
  { rewrite tick_cancel in T by assumption. discriminate. }
  rewrite tick_battery in T by assumption.
  destruct (Qle_bool _ _); [discriminate|]. injection T as <-.
  destruct (at_cancel_check_body sched i smp s) as (Bp & Bb & Bo).
  pose proof (interfere_frame (sched (DuringSleep i))
                (set_battery_level (drained sched bu i prev smp s)
                   (at_cancel_check sched i smp s))) as F.
  rewrite (frame_pose _ _ F), (frame_object _ _ F), (frame_battery _ _ F).
  rewrite battery_set_level. unfold drained. rewrite Bb.
  destruct (at_cancel_check sched i smp s) as [e r]. destruct r.
  cbn in *. auto.
Qed.

Lemma main_loop_continue sched bu i prev samples s s' :
  main_loop sched bu i prev samples s = (Continue, s') ->
  (forall smp, last samples = Some smp ->
     pose (robot s') = smp.2
     /\ manipulated_object (robot s')
        = (fun _ => smp.2) <$> manipulated_object (robot s))
  /\ (battery_level (robot s')
      == battery_level (robot s) - bu * travelled prev samples)%Q.
Proof.
  revert i prev s. induction samples as [|smp rest IH]; intros i prev s;
    cbn [main_loop travelled].
  - intros [= <-]. split; [discriminate | ring].
  - destruct (tick sched bu i prev smp s) as [[| |] s1] eqn:T;
      try discriminate.
    intros L. destruct (tick_continue _ _ _ _ _ _ _ T) as (Tp & To & Tb).
    destruct (IH _ _ _ L) as [IHp IHb]. split.
    + intros smpl El. destruct rest as [|smp2 rest'].
      * injection El as <-. cbn [main_loop] in L. injection L as <-. auto.
      * rewrite last_cons_cons in El. destruct (IHp smpl El) as [-> ->].
        split; [reflexivity|]. rewrite To.
        now destruct (manipulated_object (robot s)).
    + rewrite IHb, Tb. ring.
Qed.

(** X4.  When [execute] returns SUCCESS the loop has run off the end of the
    trajectory: the robot (and the object it holds) is at the last pose of
    the interpolated trajectory. *)
Theorem success_ends_at_last_pose sched path rf bu w ti s0 res w' :
  prepared path w = Some (ti, s0) ->
  execute sched path rf bu w = (Returned res, w') ->
  status res = SUCCESS ->
  exists smp r',
    last ti = Some smp
    /\ sys_robot w' = Some r'
    /\ pose r' = smp.2
    /\ manipulated_object r'
       = (fun _ => smp.2) <$> manipulated_object (robot s0).
Proof.
  intros P E S. rewrite (execute_prepared _ _ _ _ _ _ _ P) in E.
  destruct (Qeq_bool rf 0) eqn:R.
  { unfold follow in E. rewrite R in E. discriminate. }
  destruct ti as [|smp0 rest] eqn:Eti.
  { unfold follow in E. rewrite R in E. discriminate. }
  rewrite <- Eti in *.
  assert (E0 : ti !! 0 = Some smp0) by now rewrite Eti.
  destruct (follow_returns sched rf bu ti s0 smp0 R E0) as (st & msg & O & F).
  rewrite F in E. injection E as <- <-. cbn [status] in S. subst st.
  pose proof (main_loop_outcomes sched bu 0 smp0.2 ti
                (interfere (sched AtStart) s0)) as M. cbn zeta in M.
  set (loop := main_loop sched bu 0 smp0.2 ti (interfere (sched AtStart) s0)) in *.
  assert (C : loop.1 = Continue).
  { destruct O as [O|(O & _)]; [|exact O].
    rewrite O in M. destruct M as [M|[M|[M|M]]]; discriminate. }
  destruct loop as [out s_loop] eqn:L. cbn [fst snd] in *. subst out.
  destruct (main_loop_continue _ _ _ _ _ _ _ L) as [Lp _].
  destruct (last ti) as [smp|] eqn:El.
  2: { apply last_None in El. congruence. }
  destruct (Lp smp eq_refl) as [Lp1 Lp2].
  destruct (finalize_spec sched SUCCESS msg s_loop) as (_ & B & _).
  destruct (body_eq _ _ B) as (B1 & _ & B3).
  pose proof (interfere_frame (sched AtStart) s0) as Fr.
  exists smp, (robot (finalize sched SUCCESS msg s_loop).2).
  split_ands; auto; try congruence.
  rewrite B3, Lp2. now rewrite (frame_object _ _ Fr).
Qed.

(** X5.  When [execute] returns SUCCESS the battery level has gone down by
    [battery_usage] times the distance travelled along the interpolated
    trajectory. *)
Theorem success_drains_travelled_distance sched path rf bu w ti s0 smp0 res w' :
  prepared path w = Some (ti, s0) ->
  ti !! 0 = Some smp0 ->
  execute sched path rf bu w = (Returned res, w') ->
  status res = SUCCESS ->
  exists r',
    sys_robot w' = Some r'
    /\ (battery_level r'
        == battery_level (robot s0) - bu * travelled smp0.2 ti)%Q.
Proof.
  intros P E0 E S. rewrite (execute_prepared _ _ _ _ _ _ _ P) in E.
  destruct (Qeq_bool rf 0) eqn:R.
  { unfold follow in E. rewrite R in E. discriminate. }
  destruct (follow_returns sched rf bu ti s0 smp0 R E0) as (st & msg & O & F).
  rewrite F in E. injection E as <- <-. cbn [status] in S. subst st.
  pose proof (main_loop_outcomes sched bu 0 smp0.2 ti
                (interfere (sched AtStart) s0)) as M. cbn zeta in M.
  set (loop := main_loop sched bu 0 smp0.2 ti (interfere (sched AtStart) s0)) in *.
  assert (C : loop.1 = Continue).
  { destruct O as [O|(O & _)]; [|exact O].
    rewrite O in M. destruct M as [M|[M|[M|M]]]; discriminate. }
  destruct loop as [out s_loop] eqn:L. cbn [fst snd] in *. subst out.
  destruct (main_loop_continue _ _ _ _ _ _ _ L) as [_ Lb].
  destruct (finalize_spec sched SUCCESS msg s_loop) as (_ & B & _).
  destruct (body_eq _ _ B) as (_ & B2 & _).
  pose proof (interfere_frame (sched AtStart) s0) as Fr.
  exists (robot (finalize sched SUCCESS msg s_loop).2).
  split; [reflexivity|].
  rewrite B2, Lb. now rewrite (frame_battery _ _ Fr).
Qed.

(** X6.  Over a whole call that passes the precondition checks, whatever its
    outcome: a battery level that is not negative at the start is not
    negative at the end, and with a usage and distances that are not
    negative it is not higher at the end. *)
Theorem execute_keeps_battery_in_range sched path rf bu w ti s0 res w' :
  prepared path w = Some (ti, s0) ->
  execute sched path rf bu w = (Returned res, w') ->
  (0 <= battery_level (robot s0))%Q ->
  exists r',
    sys_robot w' = Some r'
    /\ (0 <= battery_level r')%Q
    /\ ((0 <= bu)%Q -> (forall p q, 0 <= get_linear_distance p q)%Q ->
        (battery_level r' <= battery_level (robot s0))%Q).
Proof.
  intros P E Hb. rewrite (execute_prepared _ _ _ _ _ _ _ P) in E.
  destruct (Qeq_bool rf 0) eqn:R.
  { unfold follow in E. rewrite R in E. discriminate. }
  destruct ti as [|smp0 rest] eqn:Eti.
  { unfold follow in E. rewrite R in E. discriminate. }
  rewrite <- Eti in *.
  assert (E0 : ti !! 0 = Some smp0) by now rewrite Eti.
  destruct (follow_returns sched rf bu ti s0 smp0 R E0) as (st & msg & _ & F).
  rewrite F in E. injection E as <- <-.
  pose proof (interfere_frame (sched AtStart) s0) as Fr.
  rewrite <- (frame_battery _ _ Fr) in Hb.
  destruct (main_loop_battery sched bu 0 smp0.2 ti _ Hb) as [N M].
  set (loop := main_loop sched bu 0 smp0.2 ti (interfere (sched AtStart) s0)) in *.
  destruct (finalize_spec sched st msg loop.2) as (_ & B & _).
  destruct (body_eq _ _ B) as (_ & B2 & _).
  exists (robot (finalize sched st msg loop.2).2).
  split_ands; [reflexivity | now rewrite B2 |].
  intros Hu Hd. rewrite B2, <- (frame_battery _ _ Fr). now apply M.
Qed.

(** A call that returns has gone through the loop and what follows it. *)
Lemma returned_from_loop sched path rf bu w ti s0 res w' :
  prepared path w = Some (ti, s0) ->
  execute sched path rf bu w = (Returned res, w') ->
  exists smp0 st msg,
    ti !! 0 = Some smp0
    /\ Qeq_bool rf 0 = false
    /\ (let loop := main_loop sched bu 0 smp0.2 ti (interfere (sched AtStart) s0) in
        (loop.1 = Break st msg
         \/ (loop.1 = Continue /\ st = SUCCESS /\ msg = no_message))
        /\ res = mkResult st msg
        /\ w' = attach (finalize sched st msg loop.2).2).
Proof.
  intros P E. rewrite (execute_prepared _ _ _ _ _ _ _ P) in E.
  destruct (Qeq_bool rf 0) eqn:R.
  { unfold follow in E. rewrite R in E. discriminate. }
  destruct ti as [|smp0 rest] eqn:Eti.
  { unfold follow in E. rewrite R in E. discriminate. }
  rewrite <- Eti in *.
  assert (E0 : ti !! 0 = Some smp0) by now rewrite Eti.
  destruct (follow_returns sched rf bu ti s0 smp0 R E0) as (st & msg & O & F).
  rewrite F in E. injection E as <- <-.
  exists smp0, st, msg. cbn zeta. auto.
Qed.

(** ** Battery depletion and the priority of the abort *)

(** X7.  In a call that gets to tick [i], if tick [i] gets past both flag
    checks and brings the battery level to 0 or below, [execute] returns
    EXECUTION_FAILURE for a depleted battery, with the level at exactly 0 and
    the robot at the pose of sample [i], where it ran out. *)
Theorem depletion_ends_the_call sched path rf bu w ti s0 i smp s_i prev :
  prepared path w = Some (ti, s0) ->
  Qeq_bool rf 0 = false ->
  tick_entry sched bu ti s0 i = Some s_i ->
  ti !! i = Some smp ->
  prev_pose_at ti i = Some prev ->
  abort_execution (flags (at_abort_check sched i smp s_i)) = false ->
  cancel_execution (flags (at_cancel_check sched i smp s_i)) = false ->
  (battery_level (robot s_i) - bu * get_linear_distance smp.2 prev <= 0)%Q ->
  exists s_end,
    execute sched path rf bu w
    = (Returned (mkResult EXECUTION_FAILURE depleted_message), attach s_end)
    /\ battery_level (robot s_end) = 0%Q
    /\ pose (robot s_end) = smp.2.
Proof.
  intros P R E Ei Ep A C D.
  pose proof (tick_battery sched bu i prev smp s_i A C) as T.
  assert (Dr : drained sched bu i prev smp s_i
               = (battery_level (robot s_i) - bu * get_linear_distance smp.2 prev)%Q).
  { unfold drained. now rewrite at_cancel_check_battery. }
  apply Qle_bool_iff in D. rewrite Dr, D in T.
  set (s' := log depleted_message
               (set_battery_level 0
                  (set_battery_level
                     (battery_level (robot s_i)
                      - bu * get_linear_distance smp.2 prev)
                     (at_cancel_check sched i smp s_i)))) in *.
  exists (finalize sched EXECUTION_FAILURE depleted_message s').2.
  destruct (finalize_spec sched EXECUTION_FAILURE depleted_message s')
    as (_ & B & _).
  destruct (body_eq _ _ B) as (B1 & B2 & _).
  destruct (at_cancel_check_body sched i smp s_i) as (Bp & _).
  split_ands.
  - rewrite (execute_prepared _ _ _ _ _ _ _ P).
    now rewrite (follow_break _ _ _ _ _ _ _ _ _ _ _ _ R E Ei Ep T).
  - rewrite B2. unfold s'. now rewrite battery_log, battery_set_level.
  - rewrite B1, <- Bp. unfold s'.
    destruct (at_cancel_check sched i smp s_i) as [e r]. now destruct r.
Qed.

(** X8.  The abort flag is read first: in a call that gets to tick [i], if
    both [abort_execution] and [cancel_execution] are set when tick [i]
    reads the abort flag, [execute] returns the abort failure, not CANCELED,
    and the tick leaves the cancel flag set instead of consuming it. *)
Theorem abort_takes_priority_over_cancel sched path rf bu w ti s0 i smp s_i :
  prepared path w = Some (ti, s0) ->
  Qeq_bool rf 0 = false ->
  tick_entry sched bu ti s0 i = Some s_i ->
  ti !! i = Some smp ->
  abort_execution (flags (at_abort_check sched i smp s_i)) = true ->
  cancel_execution (flags (at_abort_check sched i smp s_i)) = true ->
  (exists s_end,
      execute sched path rf bu w
      = (Returned (mkResult EXECUTION_FAILURE aborted_message), attach s_end))
  /\ (forall prev,
        cancel_execution (flags (tick sched bu i prev smp s_i).2) = true).
Proof.
  intros P R E Ei A C. split.
  - destruct (prev_pose_at_is_Some ti i smp Ei) as [prev Ep].
    eexists. rewrite (execute_prepared _ _ _ _ _ _ _ P).
    rewrite (follow_break _ _ _ _ _ _ _ _ _ _ _ _ R E Ei Ep
               (tick_abort _ _ _ prev _ _ A)).
    reflexivity.
  - intros prev. rewrite tick_abort by exact A. cbn [snd].
    destruct (join_threads_returns sched i _ A) as (_ & Fj & _).
    pose proof (frame_cancel _ _ Fj C) as Cj.
    destruct (join_threads sched i (at_abort_check sched i smp s_i)).2
      as [[? [] ? ? ?] []]. exact Cj.
Qed.

(** ** Who can abort a run *)

Lemma scan_hallways_abort hs pt s :
  abort_execution (flags (scan_hallways hs pt s)) = abort_execution (flags s).
Proof.
  induction hs as [|h hs IH]; cbn [scan_hallways]; [reflexivity|].
  repeat case_match; try exact IH; destruct s as [[? [] ? ? ?] []]; reflexivity.
Qed.

Lemma tracker_step_abort th s :
  abort_execution (flags (tracker_step th s).2) = abort_execution (flags s).
Proof.
  destruct th as [|l|l [|pt pts]|]; cbn [tracker_step]; repeat case_match;
    cbn [snd]; try reflexivity; apply scan_hallways_abort.
Qed.

(** Only the validator writes [abort_execution]. *)
Lemma act_abort a s :
  a <> Validator ->
  abort_execution (flags (act a s)) = abort_execution (flags s).
Proof.
  intros N. destruct a; [congruence| |]; cbn [act].
  - destruct (lidar_sensor_timer (self s)) as [th|]; [|reflexivity].
    pose proof (tracker_step_abort th s) as C.
    destruct (tracker_step th s) as [th' s']. exact C.
  - destruct s as [[? [] ? ? ?] []]. reflexivity.
Qed.

(** With no validator thread the abort flag stays clear. *)
Lemma no_validator_act a s :
  abort_execution (flags s) = false /\ validator_stopped s ->
  abort_execution (flags (act a s)) = false /\ validator_stopped (act a s).
Proof.
  intros [A V]. split; [|apply act_validator_stopped, V].
  destruct a; try (rewrite act_abort by discriminate; exact A).
  destruct V as [V|V].
  - rewrite act_validator_none by exact V. exact A.
  - cbn [act]. rewrite V. cbn. exact A.
Qed.

Lemma no_validator_main s s' :
  main_write s s' ->
  abort_execution (flags s) = false /\ validator_stopped s ->
  abort_execution (flags s') = false /\ validator_stopped s'.
Proof.
  intros M [A V]. split; [now rewrite (mw_abort _ _ M)|].
  pose proof (mw_threads _ _ M) as T. injection T as T _.
  unfold validator_stopped in *. now rewrite T.
Qed.

(** X9.  With validation during execution turned off, and no validator
    thread left over from an earlier call, no schedule makes [execute] return
    the abort failure. *)
Theorem no_validator_never_aborts sched path rf bu w ti s0 res w' :
  prepared path w = Some (ti, s0) ->
  validate_during_execution (config (sys_self w)) = false ->
  validation_timer (sys_self w) = None
  \/ validation_timer (sys_self w) = Some VDone ->
  execute sched path rf bu w = (Returned res, w') ->
  message res <> aborted_message.
Proof.
  intros P V Old E.
  destruct (returned_from_loop _ _ _ _ _ _ _ _ _ P E)
    as (smp0 & st & msg & E0 & R & O & -> & _).
  destruct (prepared_start _ _ _ _ P) as (r & _ & _ & Fl & _ & Tv & _).
  rewrite V in Tv. cbn [andb] in Tv.
  assert (I0 : abort_execution (flags s0) = false /\ validator_stopped s0).
  { split; [now rewrite Fl|]. unfold validator_stopped. now rewrite Tv. }
  pose proof (main_loop_not_aborted _ no_validator_act no_validator_main
                (fun s I => proj1 I) sched bu 0 smp0.2 ti _
                (interfere_inv _ no_validator_act (sched AtStart) s0 I0)) as N.
  cbn [message]. intros ->.
  destruct O as [O|(_ & _ & O)]; [apply (N st), O | discriminate O].
Qed.

(** When every collision check passes, the validator never gets to the write
    of the abort flag. *)
Lemma validate_iteration_free tr s remaining :
  (forall wd p d fog rc, is_path_collision_free wd p d fog rc = true) ->
  validate_iteration tr s <> ValidationChecked remaining false.
Proof.
  intros Free V. unfold validate_iteration in V.
  repeat case_match; try discriminate.
  injection V as _ V. rewrite Free in V. discriminate.
Qed.

Lemma validator_step_free th s :
  (forall wd p d fog rc, is_path_collision_free wd p d fog rc = true) ->
  th <> VAbortPending ->
  (validator_step th s).1 <> VAbortPending /\ (validator_step th s).2 = s.
Proof.
  intros Free N. destruct th; cbn [validator_step]; try congruence.
  - destruct (traj (self s)); cbn; split; auto; discriminate.
  - destruct (loop_condition s); [|cbn; split; auto; discriminate].
    destruct (traj (self s)) as [tr|]; [|cbn; split; auto; discriminate].
    destruct (validate_iteration tr s) as [|remaining [|]|] eqn:V;
      cbn; split; auto; try discriminate;
      exfalso; apply (validate_iteration_free tr s remaining Free V).
  - cbn. split; [discriminate | reflexivity].
Qed.

Lemma free_world_act :
  (forall wd p d fog rc, is_path_collision_free wd p d fog rc = true) ->
  forall a s,
    abort_execution (flags s) = false
    /\ validation_timer (self s) <> Some VAbortPending ->
    abort_execution (flags (act a s)) = false
    /\ validation_timer (self (act a s)) <> Some VAbortPending.
Proof.
  intros Free a s [A V]. rewrite act_validation_timer.
  destruct a; try (rewrite act_abort by discriminate; split; [exact A|];
                   now destruct (validation_timer (self s))).
  destruct (validation_timer (self s)) as [th|] eqn:T.
  2: { rewrite act_validator_none by exact T. auto. }
  assert (N : th <> VAbortPending) by congruence.
  destruct (validator_step_free th s Free N) as [S1 S2].
  split; [|congruence].
  cbn [act]. rewrite T.
  destruct (validator_step th s) as [th' s']. cbn [snd] in S2. subst s'.
  exact A.
Qed.

Lemma free_world_main s s' :
  main_write s s' ->
  abort_execution (flags s) = false
  /\ validation_timer (self s) <> Some VAbortPending ->
  abort_execution (flags s') = false
  /\ validation_timer (self s') <> Some VAbortPending.
Proof.
  intros M [A V]. split; [now rewrite (mw_abort _ _ M)|].
  pose proof (mw_threads _ _ M) as T. injection T as T _. now rewrite T.
Qed.

(** X10.  When every collision check of the world passes, and no validator
    of an earlier call is left about to raise the flag, no schedule makes
    [execute] return the abort failure. *)
Theorem collision_free_never_aborts sched path rf bu w ti s0 res w' :
  (forall wd p d fog rc, is_path_collision_free wd p d fog rc = true) ->
  prepared path w = Some (ti, s0) ->
  validation_timer (sys_self w) <> Some VAbortPending ->
  execute sched path rf bu w = (Returned res, w') ->
  message res <> aborted_message.
Proof.
  intros Free P Old E.
  destruct (returned_from_loop _ _ _ _ _ _ _ _ _ P E)
    as (smp0 & st & msg & E0 & R & O & -> & _).
  destruct (prepared_start _ _ _ _ P) as (r & _ & _ & Fl & _ & Tv & _).
  assert (I0 : abort_execution (flags s0) = false
               /\ validation_timer (self s0) <> Some VAbortPending).
  { split; [now rewrite Fl|]. rewrite Tv.
    destruct (_ && _); [discriminate | exact Old]. }
  pose proof (main_loop_not_aborted _ (free_world_act Free) free_world_main
                (fun s I => proj1 I) sched bu 0 smp0.2 ti _
                (interfere_inv _ (free_world_act Free) (sched AtStart) s0 I0))
    as N.
  cbn [message]. intros ->.
  destruct O as [O|(_ & _ & O)]; [apply (N st), O | discriminate O].
Qed.

(** ** A tracker that never measures *)

Lemma usable_lidar_frame s s' :
  cfg s' = cfg s -> world (robot s') = world (robot s) ->
  sensors (robot s') = sensors (robot s) ->
  usable_lidar s' = usable_lidar s.
Proof. unfold usable_lidar. now intros -> -> ->. Qed.

(** The checks before the tracker's loop stop a tracker without a usable
    lidar, and it has changed nothing but the log. *)
Lemma tracker_start_fails s :
  usable_lidar s = None ->
  (tracker_step LStart s).1 = LDone
  /\ recorded_closed_hallways (robot (tracker_step LStart s).2)
     = recorded_closed_hallways (robot s)
  /\ flags (tracker_step LStart s).2 = flags s.
Proof.
  unfold usable_lidar. cbn [tracker_step].
  destruct (world (robot s)); [|auto].
  destruct (lidar_sensor_name (cfg s)) as [nm|].
  - destruct (sensors (robot s) !! nm) as [[l|]|]; [discriminate| |];
      intros _; destruct s as [e r]; destruct r; cbn; auto.
  - intros _. destruct s as [e r]. destruct r. cbn. auto.
Qed.

(** Only the tracker writes the hallway knowledge and its flag. *)
Lemma act_knowledge a s :
  a <> Tracker ->
  recorded_closed_hallways (robot (act a s))
  = recorded_closed_hallways (robot s)
  /\ hallway_states_updated (flags (act a s))
     = hallway_states_updated (flags s).
Proof.
  intros N. destruct a; [|congruence|]; cbn [act].
  - destruct (validation_timer (self s)) as [th|]; [|auto].
    destruct (validator_step_effect th s) as [E|[_ E]];
      destruct (validator_step th s) as [th' s']; cbn [snd] in E; subst s';
      destruct s as [[? [] ? ? ?] []]; cbn; auto.
  - destruct s as [[? [] ? ? ?] []]. cbn. auto.
Qed.

Section IdleTracker.

Variable recorded0 : gset nat.

Lemma idle_act a s : idle_with recorded0 s -> idle_with recorded0 (act a s).
Proof.
  intros (I & Rc & U). unfold idle_with, tracker_idle in *.
  rewrite act_lidar_sensor_timer.
  pose proof (act_frame a s) as F.
  pose proof (usable_lidar_frame s (act a s) (frame_config _ _ F)
                (frame_world _ _ F) (frame_sensors _ _ F)) as Ul.
  destruct a.
  - destruct (act_knowledge Validator s ltac:(discriminate)) as [K1 K2].
    rewrite K1, K2, Ul. split_ands; auto.
  - destruct (lidar_sensor_timer (self s)) as [[|l|l pts|]|] eqn:T;
      try contradiction.
    + destruct (tracker_start_fails s I) as (S1 & S2 & S3).
      rewrite S1. cbn [act]. rewrite T.
      destruct (tracker_step LStart s) as [th' s']. cbn [fst snd] in *.
      split_ands; auto; [now rewrite <- Rc | ].
      change (flags (set_lidar_sensor_timer (Some th') s')) with (flags s').
      now rewrite S3.
    + cbn [act]. rewrite T. cbn. auto.
    + rewrite act_tracker_none by exact T. auto.
  - destruct (act_knowledge User s ltac:(discriminate)) as [K1 K2].
    rewrite K1, K2, Ul. split_ands; auto.
Qed.

Lemma idle_main s s' :
  main_write s s' -> idle_with recorded0 s -> idle_with recorded0 s'.
Proof.
  intros M (I & Rc & U). unfold idle_with, tracker_idle in *.
  pose proof (mw_threads _ _ M) as T. injection T as _ T.
  rewrite T, (mw_recorded _ _ M), (mw_updated _ _ M).
  rewrite (usable_lidar_frame s s' (mw_config _ _ M) (mw_world _ _ M)
             (mw_sensors _ _ M)).
  auto.
Qed.

Lemma idle_reset_state s :
  idle_with recorded0 s -> idle_with recorded0 (reset_state s).
Proof.
  intros (I & Rc & U). unfold idle_with, tracker_idle in *.
  destruct s as [[? [] ? ? ?] []]. cbn in *. auto.
Qed.

(** After the loop: no planner reset, and the knowledge as it was. *)
Lemma idle_finalize sched st msg s :
  idle_with recorded0 s ->
  recorded_closed_hallways (robot (finalize sched st msg s).2) = recorded0
  /\ planner_resets (robot (finalize sched st msg s).2)
     = planner_resets (robot s).
Proof.
  intros I.
  pose proof (interfere_inv _ idle_act (sched AfterLoop) s I) as I1.
  destruct (finalize_spec sched st msg s) as (_ & _ & R & _).
  destruct I1 as (I1 & Rc1 & U1).
  unfold at_planner_check in R. rewrite U1 in R. cbn [andb] in R.
  split; [|now rewrite R, Nat.add_0_r].
  unfold finalize, at_final_reset, at_planner_check, check_planner.
  rewrite U1. cbn [snd].
  assert (I4 : idle_with recorded0 (interfere (sched DuringGrace)
                       (reset_state
                          (interfere (sched BeforeFinalReset)
                             (interfere (sched AfterLoop) s))))).
  { apply (interfere_inv _ idle_act), idle_reset_state,
      (interfere_inv _ idle_act). unfold idle_with. auto. }
  destruct I4 as (_ & Rc4 & _). rewrite <- Rc4.
  destruct (interfere (sched DuringGrace) _) as [e r]. now destruct r.
Qed.

(** From a start with an idle tracker, a call that returns has left the
    knowledge and the planner alone. *)
Lemma idle_execute sched path rf bu w ti s0 res w' :
  prepared path w = Some (ti, s0) ->
  idle_with recorded0 s0 ->
  execute sched path rf bu w = (Returned res, w') ->
  exists r',
    sys_robot w' = Some r'
    /\ recorded_closed_hallways r' = recorded0
    /\ planner_resets r' = planner_resets (robot s0).
Proof.
  intros P I E.
  destruct (returned_from_loop _ _ _ _ _ _ _ _ _ P E)
    as (smp0 & st & msg & E0 & R & _ & _ & ->).
  pose proof (main_loop_inv _ idle_act idle_main sched bu 0 smp0.2 ti _
                (interfere_inv _ idle_act (sched AtStart) s0 I)) as Il.
  set (loop := main_loop sched bu 0 smp0.2 ti (interfere (sched AtStart) s0)) in *.
  destruct (idle_finalize sched st msg loop.2 Il) as [F1 F2].
  assert (S : steady s0 loop.2).
  { eapply steady_trans; [apply interfere_steady | apply main_loop_steady]. }
  eexists. split_ands; [reflexivity | exact F1 |].
  now rewrite F2, (steady_resets _ _ S).
Qed.

End IdleTracker.

(** X11.  Out of the fog, and with no tracker thread left over from an
    earlier call, no schedule makes a call change the hallway knowledge of
    the robot or reset its planner. *)
Theorem out_of_fog_keeps_knowledge sched path rf bu w ti s0 r res w' :
  prepared path w = Some (ti, s0) ->
  sys_robot w = Some r ->
  fog_hallways r = false ->
  lidar_sensor_timer (sys_self w) = None
  \/ lidar_sensor_timer (sys_self w) = Some LDone ->
  execute sched path rf bu w = (Returned res, w') ->
  exists r',
    sys_robot w' = Some r'
    /\ recorded_closed_hallways r' = recorded_closed_hallways r
    /\ planner_resets r' = planner_resets r.
Proof.
  intros P Er Fog Old E.
  destruct (prepared_start _ _ _ _ P) as (r0 & Er0 & Ec & Fl & Erob & _ & Tl).
  assert (r0 = r) as -> by congruence.
  rewrite Fog in Tl.
  destruct (idle_execute (recorded_closed_hallways r) sched path rf bu w ti s0
              res w' P) as (r' & X); [|exact E|].
  - unfold idle_with. split_ands; [|now rewrite Erob | now rewrite Fl].
    unfold tracker_idle. rewrite Tl. now destruct Old as [-> | ->].
  - exists r'. now rewrite Erob in X.
Qed.

(** X12.  In the fog but without a usable lidar (no sensor name configured,
    no sensor of that name, a sensor that is not a 2D lidar, or no world),
    and with no tracker thread left over from an earlier call, the tracker
    ends at its checks: no schedule makes the call change the hallway
    knowledge of the robot or reset its planner. *)
Theorem unusable_lidar_keeps_knowledge sched path rf bu w ti s0 r res w' :
  prepared path w = Some (ti, s0) ->
  sys_robot w = Some r ->
  fog_hallways r = true ->
  usable_lidar (mkRun (sys_self w) r) = None ->
  lidar_sensor_timer (sys_self w) = None
  \/ lidar_sensor_timer (sys_self w) = Some LDone ->
  execute sched path rf bu w = (Returned res, w') ->
  exists r',
    sys_robot w' = Some r'
    /\ recorded_closed_hallways r' = recorded_closed_hallways r
    /\ planner_resets r' = planner_resets r.
Proof.
  intros P Er Fog Ul _ E.
  destruct (prepared_start _ _ _ _ P) as (r0 & Er0 & Ec & Fl & Erob & _ & Tl).
  assert (r0 = r) as -> by congruence.
  rewrite Fog in Tl.
  destruct (idle_execute (recorded_closed_hallways r) sched path rf bu w ti s0
              res w' P) as (r' & X); [|exact E|].
  - unfold idle_with. split_ands; [|now rewrite Erob | now rewrite Fl].
    unfold tracker_idle. rewrite Tl. rewrite <- Ul.
    apply usable_lidar_frame; cbn; now rewrite ?Ec, ?Erob.
  - exists r'. now rewrite Erob in X.
Qed.

(** ** What a call only reads *)

Lemma steady_same_setup s s' :
  steady s s' -> same_setup s s' /\ traj (self s') = traj (self s).
Proof. intros []. unfold same_setup. split_ands; assumption. Qed.

Lemma finalize_same_setup sched st msg s :
  same_setup s (finalize sched st msg s).2
  /\ traj (self (finalize sched st msg s).2) = traj (self s).
Proof.
  unfold finalize, at_final_reset, at_planner_check. cbn [snd].
  pose proof (interfere_steady (sched AfterLoop) s) as S1.
  set (s1 := interfere (sched AfterLoop) s) in *.
  assert (S2 : same_setup s1 (check_planner s1)
               /\ traj (self (check_planner s1)) = traj (self s1)).
  { unfold check_planner, same_setup.
    destruct (hallway_states_updated (flags s1));
      [|split_ands; reflexivity].
    destruct (is_graph_planner (path_planner (robot s1)));
      [|split_ands; reflexivity].
    destruct s1 as [e r]. destruct r. cbn. split_ands; reflexivity. }
  set (s2 := check_planner s1) in *.
  pose proof (interfere_steady (sched BeforeFinalReset) s2) as S3.
  set (s3 := interfere (sched BeforeFinalReset) s2) in *.
  pose proof (interfere_steady (sched DuringGrace) (reset_state s3)) as S4.
  set (s4 := interfere (sched DuringGrace) (reset_state s3)) in *.
  apply steady_same_setup in S1, S3, S4.
  assert (S5 : same_setup s3 (reset_state s3)
               /\ traj (self (reset_state s3)) = traj (self s3)).
  { unfold same_setup. destruct s3 as [[] r]. cbn. split_ands; reflexivity. }
  assert (S6 : same_setup s4 (set_last_nav_result (mkResult st msg) s4)
               /\ traj (self (set_last_nav_result (mkResult st msg) s4))
                  = traj (self s4)).
  { unfold same_setup. destruct s4 as [e r]. destruct r. cbn.
    split_ands; reflexivity. }
  unfold same_setup in *. split_ands; intuition congruence.
Qed.

(** From the start of the threads on, the call ends on a state with the
    set-up and the trajectory it started with, whatever the outcome. *)
Lemma follow_same_setup sched rf bu ti s :
  exists s',
    (follow sched rf bu ti s).2 = attach s'
    /\ same_setup s s' /\ traj (self s') = traj (self s).
Proof.
  unfold follow.
  pose proof (steady_same_setup _ _ (interfere_steady (sched AtStart) s)) as S0.
  destruct (Qeq_bool rf 0); [eexists; split; [reflexivity | exact S0]|].
  destruct ti as [|smp0 rest]; [eexists; split; [reflexivity | exact S0]|].
  pose proof (steady_same_setup _ _
                (main_loop_steady sched bu 0 smp0.2 (smp0 :: rest)
                   (interfere (sched AtStart) s))) as S1.
  destruct (main_loop sched bu 0 smp0.2 (smp0 :: rest) _) as [[|st msg|] s1];
    cbn [snd] in S1.
  - pose proof (finalize_same_setup sched SUCCESS no_message s1) as S2.
    destruct (finalize sched SUCCESS no_message s1) as [res s2].
    cbn [snd] in *. eexists. split; [reflexivity|].
    unfold same_setup in *. split_ands; intuition congruence.
  - pose proof (finalize_same_setup sched st msg s1) as S2.
    destruct (finalize sched st msg s1) as [res s2].
    cbn [snd] in *. eexists. split; [reflexivity|].
    unfold same_setup in *. split_ands; intuition congruence.
  - cbn [snd]. eexists. split; [reflexivity|].
    unfold same_setup in *. split_ands; intuition congruence.
Qed.

Lemma to_dict_of_config e e' : config e' = config e -> to_dict e' = to_dict e.
Proof. unfold to_dict. now intros ->. Qed.

(** X13.  Whatever its outcome and whatever the threads and the user do
    meanwhile, a call of [execute] leaves the configuration of the executor
    as it was, so that [to_dict] gives the same record after the call as
    before it; and it assigns neither the world, nor the fog mode, nor the
    sensors of the robot. *)
Theorem execute_keeps_configuration sched path rf bu w :
  let w' := (execute sched path rf bu w).2 in
  config (sys_self w') = config (sys_self w)
  /\ to_dict (sys_self w') = to_dict (sys_self w)
  /\ world <$> sys_robot w' = world <$> sys_robot w
  /\ fog_hallways <$> sys_robot w' = fog_hallways <$> sys_robot w
  /\ sensors <$> sys_robot w' = sensors <$> sys_robot w.
Proof.
  cbv zeta.
  assert (K : config (sys_self (execute sched path rf bu w).2)
              = config (sys_self w)
              /\ world <$> sys_robot (execute sched path rf bu w).2
                 = world <$> sys_robot w
              /\ fog_hallways <$> sys_robot (execute sched path rf bu w).2
                 = fog_hallways <$> sys_robot w
              /\ sensors <$> sys_robot (execute sched path rf bu w).2
                 = sensors <$> sys_robot w).
  { unfold execute. destruct w as [e [r|]]; cbn [sys_robot sys_self]; [|auto].
    destruct (num_poses path <? 2); [destruct r; cbn; auto|].
    cbn [set_traj traj self cfg config robot].
    destruct (get_constant_speed_trajectory _ _ _) as [tr|];
      [|destruct r; cbn; auto].
    destruct (interpolate_trajectory _ _) as [traj_interp|];
      [|destruct r; cbn; auto].
    match goal with
    | |- context [follow sched rf bu traj_interp (start_run ?s)] =>
        destruct (follow_same_setup sched rf bu traj_interp (start_run s))
          as (s' & -> & (Sc & Sw & Sf & Ss & _) & _);
        destruct (start_run_spec s) as (Rc & _ & Rr & _)
    end.
    cbn [attach sys_self sys_robot fmap option_fmap option_map].
    unfold cfg in *. rewrite Rr in Sw, Sf, Ss. cbn in Rc, Sw, Sf, Ss.
    rewrite Sw, Sf, Ss, Sc, Rc. auto. }
  destruct K as (Kc & Kw & Kf & Ks).
  split_ands; auto using to_dict_of_config.
Qed.

(** X14.  The attribute [traj] is assigned as soon as a robot is attached
    and the path has two poses: after the call it holds what
    [get_constant_speed_trajectory] returned for the path, also when that is
    [None] and the call fails, and whatever the outcome of the run.  A call
    that fails one of the two earlier checks leaves [traj] as it was. *)
Theorem execute_stores_trajectory sched path rf bu w :
  traj (sys_self (execute sched path rf bu w).2)
  = match sys_robot w with
    | None => traj (sys_self w)
    | Some _ =>
        if num_poses path <? 2 then traj (sys_self w)
        else get_constant_speed_trajectory path
               (linear_velocity (config (sys_self w)))
               (max_angular_velocity (config (sys_self w)))
    end.
Proof.
  unfold execute. destruct w as [e [r|]]; cbn [sys_robot sys_self]; [|auto].
  destruct (num_poses path <? 2); [reflexivity|].
  cbn [set_traj traj self cfg config robot].
  destruct (get_constant_speed_trajectory _ _ _) as [tr|] eqn:G;
    [|reflexivity].
  destruct (interpolate_trajectory _ _) as [traj_interp|]; [|reflexivity].
  match goal with
  | |- context [follow sched rf bu traj_interp (start_run ?s)] =>
      destruct (follow_same_setup sched rf bu traj_interp (start_run s))
        as (s' & -> & _ & T);
      destruct (start_run_spec s) as (_ & _ & _ & Rt & _)
  end.
  cbn [attach sys_self]. now rewrite T, Rt.
Qed.

(** ** The validator's iteration *)

(** X15.  The guard [len(poses) > 2] of the validator never fails: an
    iteration that does not end the thread has picked an index before the
    last, so the pose of the robot and the poses from that index on are at
    least 3.  With a world on the robot, every iteration either ends the
    thread or runs the collision check. *)
Theorem validator_guard_always_passes tr s w :
  world (robot s) = Some w ->
  validate_iteration tr s = ValidationExit
  \/ exists remaining_path,
       3 <= num_poses remaining_path
       /\ validate_iteration tr s
          = ValidationChecked remaining_path
              (is_path_collision_free w remaining_path
                 (validation_step_dist (cfg s)) (fog_hallways (robot s))
                 (recorded_closed_hallways (robot s))).
Proof.
  intros W. unfold validate_iteration. rewrite W.
  destruct (enumerate_break _ 0 (t_pts tr)) as [idx|] eqn:E; [|now left].
  destruct (idx =? num_points tr - 1) eqn:Last; [now left|].
  apply Nat.eqb_neq in Last.
  destruct (enumerate_break_spec _ _ _ _ E) as (_ & L & _).
  unfold t_pts, num_points in *. rewrite length_map, Nat.sub_0_r in L.
  assert (Len : 3 <= length (pose (robot s) :: drop idx (poses tr))).
  { cbn [length]. unfold poses. rewrite length_drop, length_map. lia. }
  right. exists (pose (robot s) :: drop idx (poses tr)).
  split; [exact Len|].
  now rewrite (proj2 (Nat.ltb_lt _ _) Len).
Qed.

(** X16.  An iteration of the validator ends the thread exactly when every
    timestamp of the trajectory but the last is below the current
    trajectory time: the robot is on its way to the last sample, or at
    it. *)
Theorem validator_exits_on_last_leg tr s :
  validate_iteration tr s = ValidationExit
  <-> forall j t,
        j < num_points tr - 1 -> t_pts tr !! j = Some t ->
        (t < current_traj_time (flags s))%Q.
Proof.
  unfold validate_iteration.
  destruct (enumerate_break _ 0 (t_pts tr)) as [idx|] eqn:E.
  - destruct (enumerate_break_spec _ _ _ _ E) as (_ & L & B & _).
    rewrite Nat.sub_0_r in L, B.
    assert (Ln : length (t_pts tr) = num_points tr)
      by (unfold t_pts, num_points; apply length_map).
    destruct (idx =? num_points tr - 1) eqn:Last.
    + apply Nat.eqb_eq in Last. split; [|reflexivity].
      intros _ j t Hj. apply B. lia.
    + apply Nat.eqb_neq in Last. split.
      * destruct (2 <? _); [destruct (world (robot s))|]; discriminate.
      * intros A. exfalso.
        destruct (enumerate_break_early _ _ _ _ E) as (t & Et & Lt);
          [lia|].
        rewrite Nat.sub_0_r in Et.
        apply (Qlt_not_le _ _ (A idx t ltac:(lia) Et) Lt).
  - split; [|reflexivity]. intros _ j t Hj.
    apply enumerate_break_none in E.
    destruct tr as [|smp tr']; [cbn in Hj; lia | discriminate].
Qed.

(** ** The tracker and the truth *)

Lemma state_disagrees_updated h (recorded : gset nat) :
  state_disagrees (updated_record h recorded) h = false.
Proof.
  unfold state_disagrees, updated_record. destruct (is_open h).
  - apply bool_decide_eq_false. set_unfold. tauto.
  - apply negb_false_iff, bool_decide_eq_true. set_unfold. tauto.
Qed.

Lemma state_disagrees_other h h' (recorded : gset nat) :
  hallway_id h' <> hallway_id h ->
  state_disagrees (updated_record h recorded) h' = state_disagrees recorded h'.
Proof.
  intros N. unfold state_disagrees, updated_record.
  assert (M : bool_decide (hallway_id h' ∈ (if is_open h
                                            then recorded ∖ {[hallway_id h]}
                                            else recorded ∪ {[hallway_id h]}))
              = bool_decide (hallway_id h' ∈ recorded)).
  { apply bool_decide_ext. destruct (is_open h); set_unfold; tauto. }
  now rewrite M.
Qed.

Lemma disagreeing_hallways_other hs pt h (recorded : gset nat) :
  hallway_id h ∉ map hallway_id hs ->
  disagreeing_hallways hs pt (updated_record h recorded)
  = disagreeing_hallways hs pt recorded.
Proof.
  unfold disagreeing_hallways.
  induction hs as [|a hs IH]; intros N; [reflexivity|].
  cbn [map] in N. apply not_elem_of_cons in N as [N1 N2].
  cbn [List.filter]. rewrite (IH N2).
  now rewrite (state_disagrees_other h a recorded) by congruence.
Qed.

Lemma disagreeing_hallways_elem hs pt (recorded : gset nat) h :
  h ∈ hs ->
  intersects_xy (internal_collision_polygon h) pt.1 pt.2 = true ->
  state_disagrees recorded h = true ->
  0 < length (disagreeing_hallways hs pt recorded).
Proof.
  unfold disagreeing_hallways.
  induction hs as [|a hs IH]; intros I X D; [now apply elem_of_nil in I|].
  cbn [List.filter]. apply elem_of_cons in I as [<-|I].
  - rewrite X, D. cbn. lia.
  - destruct (_ && _); cbn [length]; [lia | now apply IH].
Qed.

(** The update of one hallway takes it, and nothing else, off the list of
    the hallways that disagree. *)
Lemma disagreeing_hallways_updated hs pt (recorded : gset nat) h :
  NoDup (map hallway_id hs) ->
  h ∈ hs ->
  intersects_xy (internal_collision_polygon h) pt.1 pt.2 = true ->
  state_disagrees recorded h = true ->
  length (disagreeing_hallways hs pt (updated_record h recorded))
  = pred (length (disagreeing_hallways hs pt recorded)).
Proof.
  induction hs as [|a hs IH]; intros U I X D; [now apply elem_of_nil in I|].
  cbn [map] in U. apply NoDup_cons in U as [U1 U2].
  destruct (decide (hallway_id a = hallway_id h)) as [E|N].
  - assert (a = h) as ->.
    { apply elem_of_cons in I as [->|I]; [reflexivity|].
      exfalso. apply U1. rewrite E. now apply list_elem_of_fmap_2. }
    unfold disagreeing_hallways in *. cbn [List.filter].
    rewrite state_disagrees_updated, X, D, andb_false_r. cbn [andb length pred].
    f_equal. now apply disagreeing_hallways_other.
  - assert (I' : h ∈ hs).
    { apply elem_of_cons in I as [->|I]; [congruence | exact I]. }
    pose proof (disagreeing_hallways_elem hs pt recorded h I' X D) as Pos.
    specialize (IH U2 I' X D).
    unfold disagreeing_hallways in *. cbn [List.filter].
    rewrite (state_disagrees_other h a recorded N).
    destruct (_ && _); cbn [length]; lia.
Qed.

Lemma first_disagreeing_hallway_none hs pt (recorded : gset nat) :
  first_disagreeing_hallway hs pt recorded = None
  <-> disagreeing_hallways hs pt recorded = [].
Proof.
  unfold first_disagreeing_hallway, disagreeing_hallways.
  induction hs as [|a hs IH]; cbn [List.find List.filter]; [tauto|].
  destruct (_ && _); [split; discriminate | exact IH].
Qed.

Lemma scan_hallways_settles_one hs pt s :
  NoDup (map hallway_id hs) ->
  length (disagreeing_hallways hs pt
            (recorded_closed_hallways (robot (scan_hallways hs pt s))))
  = pred (length (disagreeing_hallways hs pt
                    (recorded_closed_hallways (robot s)))).
Proof.
  intros U. rewrite scan_hallways_spec.
  destruct (first_disagreeing_hallway hs pt _) as [h|] eqn:F.
  - destruct (first_disagreeing_hallway_disagrees _ _ _ _ F) as (I & X & D).
    rewrite <- (disagreeing_hallways_updated hs pt _ h U I X D).
    destruct s as [e r]. now destruct r.
  - apply first_disagreeing_hallway_none in F. now rewrite F.
Qed.

(** X17.  Where the hallways of the world are distinct, one test of a point
    against them settles exactly one of the hallways that contain the point
    and disagree with the record, the first: after [n] tests of the point,
    [n] fewer of them disagree, and once none does a test changes
    nothing. *)
Theorem repeated_scans_settle_the_record hs pt s n :
  NoDup (map hallway_id hs) ->
  length (disagreeing_hallways hs pt
            (recorded_closed_hallways (robot (scan_repeatedly n hs pt s))))
  = length (disagreeing_hallways hs pt (recorded_closed_hallways (robot s))) - n
  /\ (disagreeing_hallways hs pt (recorded_closed_hallways (robot s)) = [] ->
      scan_repeatedly n hs pt s = s).
Proof.
  intros U. split.
  - revert s. induction n as [|n IH]; intros s; cbn [scan_repeatedly]; [lia|].
    rewrite IH, (scan_hallways_settles_one hs pt s U). lia.
  - intros E. induction n as [|n IH]; cbn [scan_repeatedly]; [reflexivity|].
    rewrite scan_hallways_spec.
    now rewrite (proj2 (first_disagreeing_hallway_none _ _ _) E).
Qed.

(** ** What a call does to the hallway knowledge *)

Section Knowledge.

(** A property of the world and of the hallway knowledge of the robot that
    every test of a point keeps. *)
Variable P : Run -> Prop.

Hypothesis P_only :
  forall s s',
    world (robot s') = world (robot s) ->
    recorded_closed_hallways (robot s') = recorded_closed_hallways (robot s) ->
    P s -> P s'.

Hypothesis P_scan :
  forall w pt s,
    world (robot s) = Some w -> P s -> P (scan_hallways (hallways w) pt s).

Lemma knowledge_tracker_step th s : P s -> P (tracker_step th s).2.
Proof.
  intros I. destruct th as [|l|l [|pt pts]|]; cbn [tracker_step];
    repeat case_match; cbn [snd]; auto;
    try (apply (P_only s); [now destruct s as [e []]..| exact I]).
Qed.

Lemma knowledge_act a s : P s -> P (act a s).
Proof.
  intros I. destruct a.
  - destruct (act_knowledge Validator s ltac:(discriminate)) as [K _].
    apply (P_only s); [apply frame_world, act_frame | exact K | exact I].
  - cbn [act]. destruct (lidar_sensor_timer (self s)) as [th|]; [|exact I].
    pose proof (knowledge_tracker_step th s I) as T.
    destruct (tracker_step th s) as [th' s']. cbn [snd] in T.
    apply (P_only s'); [now destruct s' as [[] r]..| exact T].
  - destruct (act_knowledge User s ltac:(discriminate)) as [K _].
    apply (P_only s); [apply frame_world, act_frame | exact K | exact I].
Qed.

Lemma knowledge_main s s' : main_write s s' -> P s -> P s'.
Proof. intros M. apply P_only; [apply (mw_world _ _ M) | apply (mw_recorded _ _ M)]. Qed.

Lemma knowledge_finalize sched st msg s : P s -> P (finalize sched st msg s).2.
Proof.
  intros I. unfold finalize, at_final_reset, at_planner_check. cbn [snd].
  pose proof (interfere_inv _ knowledge_act (sched AfterLoop) s I) as I1.
  set (s1 := interfere (sched AfterLoop) s) in *.
  assert (I2 : P (check_planner s1)).
  { unfold check_planner.
    destruct (hallway_states_updated (flags s1)); [|exact I1].
    destruct (is_graph_planner (path_planner (robot s1))); [|exact I1].
    apply (P_only s1); [now destruct s1 as [e []]..| exact I1]. }
  pose proof (interfere_inv _ knowledge_act (sched BeforeFinalReset) _ I2) as I3.
  set (s3 := interfere (sched BeforeFinalReset) (check_planner s1)) in *.
  assert (I4 : P (reset_state s3)).
  { apply (P_only s3); [now destruct s3 as [[] r]..| exact I3]. }
  pose proof (interfere_inv _ knowledge_act (sched DuringGrace) _ I4) as I5.
  set (s5 := interfere (sched DuringGrace) (reset_state s3)) in *.
  apply (P_only s5); [now destruct s5 as [e []]..| exact I5].
Qed.

Lemma knowledge_execute sched path rf bu w ti s0 res w' :
  prepared path w = Some (ti, s0) ->
  P s0 ->
  execute sched path rf bu w = (Returned res, w') ->
  exists s', w' = attach s' /\ P s'.
Proof.
  intros Pr I E.
  destruct (returned_from_loop _ _ _ _ _ _ _ _ _ Pr E)
    as (smp0 & st & msg & _ & _ & _ & _ & ->).
  eexists. split; [reflexivity|].
  apply knowledge_finalize,
    (main_loop_inv _ knowledge_act knowledge_main),
    (interfere_inv _ knowledge_act), I.
Qed.

End Knowledge.

Lemma updated_record_towards_truth hs h (before recorded : gset nat) :
  h ∈ hs ->
  moved_towards_truth hs before recorded ->
  moved_towards_truth hs before (updated_record h recorded).
Proof.
  intros I [In Out]. unfold updated_record.
  destruct (is_open h) eqn:O; split; intros i; set_unfold.
  - intros [Hi _] N. now apply In.
  - intros Hb N. destruct (decide (i = hallway_id h)) as [->|D].
    + now exists h.
    + apply Out; [exact Hb | tauto].
  - intros [Hi| ->] N; [now apply In | now exists h].
  - intros Hb N. apply Out; [exact Hb | tauto].
Qed.

(** X18.  A call that returns has moved the hallway knowledge of the robot
    towards the truth of its world only: every hallway that is in the record
    after the call and was not before is a closed hallway of the world, and
    every hallway that has left the record is an open one. *)
Theorem knowledge_moves_towards_truth sched path rf bu w ti s0 r res w' :
  prepared path w = Some (ti, s0) ->
  sys_robot w = Some r ->
  execute sched path rf bu w = (Returned res, w') ->
  exists r',
    sys_robot w' = Some r'
    /\ moved_towards_truth (world_hallways r)
         (recorded_closed_hallways r) (recorded_closed_hallways r').
Proof.
  intros Pr Er E.
  destruct (prepared_start _ _ _ _ Pr) as (r0 & Er0 & _ & _ & Erob & _).
  assert (r0 = r) as -> by congruence.
  set (P := fun s : Run =>
              world (robot s) = world r
              /\ moved_towards_truth (world_hallways r)
                   (recorded_closed_hallways r)
                   (recorded_closed_hallways (robot s))).
  assert (P_only : forall s s',
             world (robot s') = world (robot s) ->
             recorded_closed_hallways (robot s')
             = recorded_closed_hallways (robot s) ->
             P s -> P s').
  { unfold P. intros s s' -> ->. exact id. }
  assert (P_scan : forall w0 pt s,
             world (robot s) = Some w0 -> P s ->
             P (scan_hallways (hallways w0) pt s)).
  { unfold P. intros w0 pt s W [Ew M]. rewrite scan_hallways_spec.
    destruct (first_disagreeing_hallway _ _ _) as [h|] eqn:F; [|auto].
    destruct (first_disagreeing_hallway_disagrees _ _ _ _ F) as (I & _).
    split; [now destruct s as [e []]|].
    replace (recorded_closed_hallways (robot _))
      with (updated_record h (recorded_closed_hallways (robot s)))
      by now destruct s as [e []].
    apply updated_record_towards_truth; [|exact M].
    unfold world_hallways. now rewrite <- Ew, W. }
  destruct (knowledge_execute P P_only P_scan sched path rf bu w ti s0 res w'
              Pr) as (s' & -> & _ & M); [|exact E|].
  - unfold P. rewrite Erob. split; [reflexivity|]. split; intros i; tauto.
  - exists (robot s'). split; [reflexivity | exact M].
Qed.

(** ** The threads after the call *)

Lemma loop_condition_stopped s :
  following_path (flags s) = false -> loop_condition s = false.
Proof. unfold loop_condition. now intros ->. Qed.

Lemma validator_step_stopped th s :
  following_path (flags s) = false -> th <> VDone ->
  validator_steps_left (validator_step th s).1 < validator_steps_left th.
Proof.
  intros A N. destruct th; cbn [validator_step]; try congruence.
  - destruct (traj (self s)); cbn; lia.
  - rewrite (loop_condition_stopped s A). cbn. lia.
  - cbn. lia.
Qed.

Lemma tracker_step_stopped th s :
  following_path (flags s) = false -> th <> LDone ->
  tracker_steps_left (tracker_step th s).1 < tracker_steps_left th.
Proof.
  intros A N. destruct th as [|l|l [|pt pts]|]; cbn [tracker_step]; try congruence.
  - repeat case_match; cbn; lia.
  - rewrite (loop_condition_stopped s A). cbn. lia.
  - cbn. lia.
  - destruct (world (robot s)); cbn; lia.
Qed.

Lemma act_following a s :
  following_path (flags (act a s)) = following_path (flags s).
Proof. apply frame_following, act_frame. Qed.

(** With [following_path] cleared a thread running on ends by itself. *)
Lemma validator_winds_down n s th :
  following_path (flags s) = false ->
  validation_timer (self s) = Some th ->
  validator_steps_left th <= n ->
  (run_alone Validator n s).1 = true.
Proof.
  revert s th. induction n as [|n IH]; intros s th A E L.
  - destruct th; cbn in L; try lia. cbn. now rewrite E.
  - assert (D : th = VDone \/ th <> VDone)
      by (destruct th; auto; right; discriminate).
    destruct D as [->|N].
    + cbn. now rewrite E.
    + cbn [run_alone].
      replace (finished Validator s) with false
        by (cbn; rewrite E; now destruct th).
      destruct (act_validator_timer s th E) as [T _].
      apply (IH _ _ (eq_trans (act_following Validator s) A) T).
      pose proof (validator_step_stopped th s A N). lia.
Qed.

Lemma tracker_winds_down n s th :
  following_path (flags s) = false ->
  lidar_sensor_timer (self s) = Some th ->
  tracker_steps_left th <= n ->
  (run_alone Tracker n s).1 = true.
Proof.
  revert s th. induction n as [|n IH]; intros s th A E L.
  - destruct th; cbn in L; try lia. cbn. now rewrite E.
  - destruct th as [|l|l pts|] eqn:Eth.
    4: { cbn. now rewrite E. }
    all: cbn [run_alone];
      replace (finished Tracker s) with false by (cbn; now rewrite E);
      destruct (act_tracker_timer s _ E) as [T _];
      apply (IH _ _ (eq_trans (act_following Tracker s) A) T);
      match goal with
      | |- tracker_steps_left (tracker_step ?t ?s0).1 <= _ =>
          pose proof (tracker_step_stopped t s0 A ltac:(discriminate))
      end; lia.
Qed.

(** X19.  A call that returns has cleared [following_path] and the
    trajectory time for good, whatever ran during the final sleep; from that
    state each background thread that is still running ends by itself: the
    validator within 2 steps, the tracker after the points it still has to
    test. *)
Theorem returned_call_winds_threads_down sched path rf bu w ti s0 res w' :
  prepared path w = Some (ti, s0) ->
  execute sched path rf bu w = (Returned res, w') ->
  exists s',
    w' = attach s'
    /\ following_path (flags s') = false
    /\ current_traj_time (flags s') = 0%Q
    /\ (forall th n,
          validation_timer (self s') = Some th ->
          validator_steps_left th <= n ->
          (run_alone Validator n s').1 = true)
    /\ (forall th n,
          lidar_sensor_timer (self s') = Some th ->
          tracker_steps_left th <= n ->
          (run_alone Tracker n s').1 = true).
Proof.
  intros Pr E.
  destruct (returned_from_loop _ _ _ _ _ _ _ _ _ Pr E)
    as (smp0 & st & msg & _ & _ & _ & _ & ->).
  set (loop := main_loop sched bu 0 smp0.2 ti (interfere (sched AtStart) s0)).
  destruct (finalize_spec sched st msg loop.2) as (_ & _ & _ & _ & Fl & _).
  pose proof (interfere_frame (sched DuringGrace)
                (at_final_reset sched loop.2)) as F.
  assert (Fo : following_path (flags (finalize sched st msg loop.2).2) = false).
  { rewrite Fl, (frame_following _ _ F). unfold at_final_reset.
    now destruct (interfere (sched BeforeFinalReset) _) as [[] ?]. }
  eexists. split; [reflexivity|]. split_ands.
  - exact Fo.
  - rewrite Fl, (frame_time _ _ F). unfold at_final_reset.
    now destruct (interfere (sched BeforeFinalReset) _) as [[] ?].
  - intros th n. now apply validator_winds_down.
  - intros th n. now apply tracker_winds_down.
Qed.

End Properties.

(** ** The configuration record *)

(** C8.  The record of [to_dict] has exactly the nine fields of the
    configuration record; [type] is the constant-velocity variant and every
    other field holds the value the executor was constructed with; and
    reading the record back gives a fresh executor (baseline execution
    state, no thread) with the same configuration, whose record is the same
    record. *)
Theorem to_dict_fields_and_round_trip (e : Executor) :
  dom (to_dict e) = config_fields
  /\ to_dict e !! "type" = Some (VStr "constant_velocity")
  /\ to_dict e !! "dt" = Some (VFloat (dt (config e)))
  /\ to_dict e !! "linear_velocity" = Some (VFloat (linear_velocity (config e)))
  /\ to_dict e !! "max_angular_velocity"
     = Some (float_or_none (max_angular_velocity (config e)))
  /\ to_dict e !! "validate_during_execution"
     = Some (VBool (validate_during_execution (config e)))
  /\ to_dict e !! "validation_dt" = Some (VFloat (validation_dt (config e)))
  /\ to_dict e !! "validation_step_dist"
     = Some (VFloat (validation_step_dist (config e)))
  /\ to_dict e !! "lidar_sensor_name"
     = Some (str_or_none (lidar_sensor_name (config e)))
  /\ to_dict e !! "lidar_sensor_measurement_dt"
     = Some (VFloat (lidar_sensor_measurement_dt (config e)))
  /\ from_dict (to_dict e) = Some (mkExecutor (config e) baseline None None None)
  /\ (to_dict <$> from_dict (to_dict e)) = Some (to_dict e).
Proof.
  destruct e as [[d lv [mav|] vde vdt vsd [lsn|] lsd] st tr vt lt];
    split_ands; reflexivity.
Qed.

(** ** Plotting *)

Lemma plot_graphs_spec axes graph_artists graphs :
  plot_graphs axes graph_artists graphs
  = (axes ++ concat (map graph_artists_of graphs),
     graph_artists ++ concat (map graph_artists_of graphs)).
Proof.
  revert axes graph_artists.
  induction graphs as [|graph rest IH]; intros axes graph_artists;
    cbn [plot_graphs map concat].
  - now rewrite !app_nil_r.
  - rewrite IH. unfold graph_artists_of at 3 6. cbn [app].
    now rewrite <- !app_assoc.
Qed.

Lemma graph_artists_length graphs :
  length (concat (map graph_artists_of graphs)) = 2 * length graphs.
Proof.
  induction graphs as [|graph rest IH]; [reflexivity|].
  cbn [map concat length app graph_artists_of]. rewrite IH. lia.
Qed.

Lemma plot_path_spec axes path path_color :
  plot_path axes path path_color
  = match path with
    | Some (p0 :: rest) =>
        let artists :=
          [ PathLine (map pose_x (p0 :: rest)) (map pose_y (p0 :: rest))
              path_color;
            StartMarker (pose_x p0) (pose_y p0);
            GoalMarker (pose_x (default p0 (last rest)))
              (pose_y (default p0 (last rest))) ] in
        (axes ++ artists, artists)
    | _ => (axes, [])
    end.
Proof.
  destruct path as [[|p0 rest]|]; try reflexivity.
  unfold plot_path. cbn [num_poses length Nat.ltb Nat.leb].
  change (map ?f (p0 :: rest)) with (f <$> p0 :: rest).
  rewrite !fmap_last, !last_cons. cbn [head fmap list_fmap].
  now destruct (last rest).
Qed.

(** X20.  [plot_path_planner] returns two artists per graph, the nodes and
    then the edges, in the order of the graphs, under the key [graph]; the
    key is missing when there is no graph; and the record has no other key
    than [graph] and [path]. *)
Theorem plot_path_planner_graph_artists axes graphs path path_color :
  let artists := (plot_path_planner axes graphs path path_color).1 in
  artists !! "graph"
  = (if is_empty graphs then None
     else Some (concat (map graph_artists_of graphs)))
  /\ length (default [] (artists !! "graph")) = 2 * length graphs
  /\ dom artists ⊆ {[ "graph"; "path" ]}.
Proof.
  cbv zeta.
  assert (K : (plot_path_planner axes graphs path path_color).1 !! "graph"
              = (if is_empty graphs then None
                 else Some (concat (map graph_artists_of graphs)))).
  { unfold plot_path_planner.
    rewrite plot_graphs_spec, plot_path_spec. cbn [app].
    destruct path as [[|p0 rest]|]; cbv zeta; cbn [fst is_empty];
      destruct graphs as [|graph graphs']; cbn [is_empty map concat app];
      simplify_map_eq; reflexivity. }
  split; [exact K|]. split.
  - rewrite K. destruct graphs as [|graph graphs']; [reflexivity|].
    cbn [is_empty default]. apply graph_artists_length.
  - unfold plot_path_planner.
    rewrite plot_graphs_spec, plot_path_spec. cbn [app].
    destruct path as [[|p0 rest]|]; cbv zeta; cbn [fst is_empty];
      destruct (is_empty (concat _));
      rewrite ?dom_insert_L, ?dom_empty_L; apply elem_of_subseteq; intros k;
      set_unfold; tauto.
Qed.

(** X21.  For a path with at least one pose [plot_path_planner] returns,
    under the key [path], the line through all the poses, the start marker
    at the first pose and the goal marker at the last, in that order; for no
    path, or a path without poses, the key is missing. *)
Theorem plot_path_planner_path_artists axes graphs path path_color :
  (plot_path_planner axes graphs path path_color).1 !! "path"
  = match path with
    | Some (p0 :: rest) =>
        Some [ PathLine (map pose_x (p0 :: rest)) (map pose_y (p0 :: rest))
                 path_color;
               StartMarker (pose_x p0) (pose_y p0);
               GoalMarker (pose_x (default p0 (last rest)))
                 (pose_y (default p0 (last rest))) ]
    | _ => None
    end.
Proof.
  unfold plot_path_planner.
  rewrite plot_graphs_spec, plot_path_spec. cbn [app].
  destruct path as [[|p0 rest]|]; cbv zeta; cbn [fst is_empty];
    destruct (is_empty (concat _)); simplify_map_eq; reflexivity.
Qed.

(** X22.  What [plot_path_planner] draws is what it returns: the axes gain
    the artists under [graph] and then those under [path], nothing else, and
    nothing that was on the axes is removed. *)
Theorem plot_path_planner_draws_what_it_returns axes graphs path path_color :
  let out := plot_path_planner axes graphs path path_color in
  out.2 = axes ++ default [] (out.1 !! "graph") ++ default [] (out.1 !! "path").
Proof.
  cbv zeta. unfold plot_path_planner.
  rewrite plot_graphs_spec, plot_path_spec. cbn [app].
  assert (G : is_empty (concat (map graph_artists_of graphs)) = true ->
              concat (map graph_artists_of graphs) = [])
    by (destruct (concat _); [reflexivity | discriminate]).
  destruct path as [[|p0 rest]|]; cbv zeta; cbn [fst snd is_empty];
    destruct (is_empty (concat _)) eqn:Em;
    rewrite ?(G eq_refl); simplify_map_eq; cbn [default];
    rewrite ?app_nil_r, <- ?app_assoc; reflexivity.
Qed.

(** * The model at work *)

#[local] Existing Instance Demo.collaborators.

Ltac by_evaluation := vm_compute; reflexivity.

(** ** Where the description and the code part *)

(** C1, as stated, fails.  The validator finds the collision at the start,
    but writes [abort_execution] only after the last tick has read it: the
    loop runs off its end with the flag set, [execute] returns SUCCESS, and
    the validator thread has not ended when it returns. *)
Lemma late_abort_returns_success :
  let out := execute Demo.late_abort Demo.path3 1 1 Demo.system1 in
  let loop :=
    main_loop Demo.late_abort 1 0 Demo.origin Demo.traj3
      (interfere (Demo.late_abort AtStart) Demo.run1) in
  prepared Demo.path3 Demo.system1 = Some (Demo.traj3, Demo.run1)
  /\ loop.1 = Continue
  /\ abort_execution (flags loop.2) = true
  /\ logger (robot loop.2) = [collision_message]
  /\ out.1 = Returned (mkResult SUCCESS no_message)
  /\ validation_timer (sys_self out.2) = Some VLoop.
Proof. cbn zeta. split_ands; by_evaluation. Qed.

(** C7, as stated, fails.  The tracker records the closed hallway, and sets
    [hallway_states_updated], after [execute] has read the flag and before
    the final reset: the knowledge has changed during the call, the planner
    is a PRM planner, and it is not reset. *)
Lemma late_update_skips_planner_reset :
  let out := execute Demo.late_update Demo.path3 1 1 Demo.system0 in
  let loop :=
    main_loop Demo.late_update 1 0 Demo.origin Demo.traj3
      (interfere (Demo.late_update AtStart) Demo.run0) in
  let before_reset :=
    interfere (Demo.late_update BeforeFinalReset)
      (check_planner (at_planner_check Demo.late_update loop.2)) in
  prepared Demo.path3 Demo.system0 = Some (Demo.traj3, Demo.run0)
  /\ hallway_states_updated (flags before_reset) = true
  /\ out.1 = Returned (mkResult SUCCESS no_message)
  /\ (path_planner <$> sys_robot out.2) = Some (Some PRMPlanner)
  /\ (recorded_closed_hallways <$> sys_robot Demo.system0) = Some ∅
  /\ (recorded_closed_hallways <$> sys_robot out.2) = Some {[7]}
  /\ (planner_resets <$> sys_robot out.2) = Some 0.
Proof. cbn zeta. split_ands; by_evaluation. Qed.

(** C10, as stated, fails.  The user requests cancellation during the grace
    period, after the final reset: the result is SUCCESS and
    [cancel_execution] is still set when [execute] returns. *)
Lemma late_cancel_survives_return :
  let out := execute Demo.late_cancel Demo.path3 1 1 Demo.system0 in
  out.1 = Returned (mkResult SUCCESS no_message)
  /\ cancel_execution (state (sys_self out.2)) = true
  /\ state (sys_self out.2) <> baseline.
Proof. cbn zeta. split_ands; try by_evaluation. vm_compute. discriminate. Qed.

(** C6, as stated, fails.  The executor still holds the trajectory of an
    earlier call; at speed 0 no trajectory can be generated for the path, the
    call returns PRECONDITION_FAILURE, and the attribute [traj], the one the
    validator reads, has been overwritten with [None]. *)
Lemma failed_generation_overwrites_traj :
  let out := execute Demo.quiet Demo.path3 1 1 Demo.system_still in
  get_constant_speed_trajectory Demo.path3
    (linear_velocity (config Demo.executor_still))
    (max_angular_velocity (config Demo.executor_still)) = None
  /\ out.1
     = Returned (mkResult PRECONDITION_FAILURE
                   "Failed to get trajectory from path.")
  /\ traj (sys_self Demo.system_still) = Some Demo.traj3
  /\ traj (sys_self out.2) = None
  /\ sys_self out.2 <> sys_self Demo.system_still.
Proof. cbn zeta. split_ands; try by_evaluation. vm_compute. discriminate. Qed.

(** ** The theorems on a run *)

(** The validator's abort is seen at tick 1: EXECUTION_FAILURE, both threads
    ended.  And when the validator writes the flag while the last tick
    sleeps, every tick has read it clear: the result is not the abort
    failure. *)
Lemma abort_observed_fails_and_joins_witness :
  (exists s_end,
      execute Demo.abort_at_1 Demo.path3 1 1 Demo.system1
      = (Returned (mkResult EXECUTION_FAILURE aborted_message), attach s_end)
      /\ validation_timer (self s_end) = Some VDone
      /\ lidar_sensor_timer (self s_end) = Some LDone)
  /\ (forall res w',
        execute Demo.late_abort Demo.path3 1 1 Demo.system1 = (Returned res, w') ->
        res = mkResult SUCCESS no_message
        \/ res = mkResult CANCELED canceled_message
        \/ res = mkResult EXECUTION_FAILURE depleted_message).
Proof.
  assert (P : prepared Demo.path3 Demo.system1 = Some (Demo.traj3, Demo.run1))
    by by_evaluation.
  split.
  - eassert (E : tick_entry Demo.abort_at_1 1 Demo.traj3 Demo.run1 1 = Some _)
      by by_evaluation.
    assert (Ei : Demo.traj3 !! 1 = Some (1%Q, mkPose 1 0 0)) by reflexivity.
    lazymatch type of E with
    | _ = Some ?s_i =>
        assert (A : abort_execution
                      (flags (at_abort_check Demo.abort_at_1 1
                                (1%Q, mkPose 1 0 0) s_i)) = true)
          by by_evaluation
    end.
    destruct (abort_observed_fails_and_joins Demo.abort_at_1 Demo.path3 1 1
                Demo.system1 _ _ P eq_refl) as [Seen _].
    destruct (Seen 1 _ _ E Ei A) as (s_exit & s_end & _ & _ & X & V & L & _).
    exists s_end. split_ands.
    + exact X.
    + apply V; [reflexivity | eexists; reflexivity].
    + apply L. reflexivity.
  - destruct (abort_observed_fails_and_joins Demo.late_abort Demo.path3 1 1
                Demo.system1 _ _ P eq_refl) as [_ Unseen].
    apply Unseen. intros i smp s_i E Ei.
    destruct i as [|[|[|i]]]; [| | |discriminate Ei];
      vm_compute in Ei; injection Ei as <-;
      vm_compute in E; injection E as <-; by_evaluation.
Defined.

(** The user cancels before tick 1 reads the flag: CANCELED, and the robot
    stays at the pose of sample 1. *)
Lemma cancel_observed_returns_canceled_witness :
  exists s_end,
    execute Demo.cancel_at_1 Demo.path3 1 1 Demo.system0
    = (Returned (mkResult CANCELED canceled_message), attach s_end)
    /\ pose (robot s_end) = mkPose 1 0 0.
Proof.
  assert (P : prepared Demo.path3 Demo.system0 = Some (Demo.traj3, Demo.run0))
    by by_evaluation.
  eassert (E : tick_entry Demo.cancel_at_1 1 Demo.traj3 Demo.run0 1 = Some _)
    by by_evaluation.
  assert (Ei : Demo.traj3 !! 1 = Some (1%Q, mkPose 1 0 0)) by reflexivity.
  lazymatch type of E with
  | _ = Some ?s_i =>
      assert (A : abort_execution
                    (flags (at_abort_check Demo.cancel_at_1 1
                              (1%Q, mkPose 1 0 0) s_i)) = false)
        by by_evaluation;
      assert (C : cancel_execution
                    (flags (at_cancel_check Demo.cancel_at_1 1
                              (1%Q, mkPose 1 0 0) s_i)) = true)
        by by_evaluation
  end.
  destruct (cancel_observed_returns_canceled Demo.cancel_at_1 Demo.path3 1 1
              Demo.system0 _ _ 1 _ _ P eq_refl E Ei A C)
    as (s_exit & s_end & _ & _ & X & _ & Q & _).
  exists s_end. split; [exact X | exact Q].
Defined.

(** The tick that sees the cancellation has moved the robot and has not
    touched the battery. *)
Lemma sample_pushed_before_flag_checks_witness :
  let out := tick Demo.cancel_at_1 1 1 Demo.origin (1%Q, mkPose 1 0 0) Demo.run0 in
  cancel_execution
    (flags (at_cancel_check Demo.cancel_at_1 1 (1%Q, mkPose 1 0 0) Demo.run0))
  = true
  /\ pose (robot out.2) = mkPose 1 0 0
  /\ battery_level (robot out.2) = battery_level (robot Demo.run0).
Proof.
  cbn zeta.
  assert (C : cancel_execution
                (flags (at_cancel_check Demo.cancel_at_1 1 (1%Q, mkPose 1 0 0)
                          Demo.run0)) = true) by by_evaluation.
  destruct (sample_pushed_before_flag_checks Demo.cancel_at_1 1 1 Demo.origin
              (1%Q, mkPose 1 0 0) Demo.run0) as (_ & _ & S).
  destruct (S (or_intror C)) as (_ & Q & _ & _ & B).
  split_ands; [exact C | exact Q | exact B].
Defined.

(** Tick 1 of a quiet run: one unit of distance at usage 1, and the run goes
    on to tick 2 with the lowered level. *)
Lemma battery_drain_per_tick_witness :
  exists s_1 s_2,
    tick_entry Demo.quiet 1 Demo.traj3 Demo.run0 1 = Some s_1
    /\ prev_pose_at Demo.traj3 1 = Some Demo.origin
    /\ tick_entry Demo.quiet 1 Demo.traj3 Demo.run0 2 = Some s_2
    /\ battery_level (robot s_2)
       = (battery_level (robot s_1)
          - 1 * Demo.distance_x (mkPose 1 0 0) Demo.origin)%Q
    /\ (0 <= battery_level (robot s_2))%Q.
Proof.
  assert (P : prepared Demo.path3 Demo.system0 = Some (Demo.traj3, Demo.run0))
    by by_evaluation.
  eassert (E : tick_entry Demo.quiet 1 Demo.traj3 Demo.run0 1 = Some _)
    by by_evaluation.
  assert (Ei : Demo.traj3 !! 1 = Some (1%Q, mkPose 1 0 0)) by reflexivity.
  assert (Ep : prev_pose_at Demo.traj3 1 = Some Demo.origin) by reflexivity.
  lazymatch type of E with
  | _ = Some ?s_i =>
      assert (A : abort_execution
                    (flags (at_abort_check Demo.quiet 1
                              (1%Q, mkPose 1 0 0) s_i)) = false)
        by by_evaluation;
      assert (C : cancel_execution
                    (flags (at_cancel_check Demo.quiet 1
                              (1%Q, mkPose 1 0 0) s_i)) = false)
        by by_evaluation;
      assert (D : Qle_bool
                    (battery_level (robot s_i)
                     - 1 * get_linear_distance (1%Q, mkPose 1 0 0).2
                             Demo.origin) 0 = false)
        by by_evaluation;
      assert (B : (0 <= battery_level (robot s_i))%Q)
        by (vm_compute; discriminate)
  end.
  pose proof (battery_drain_per_tick Demo.quiet Demo.path3 1 1 Demo.system0
                _ _ 1 _ _ _ P eq_refl E Ei Ep) as H.
  cbv zeta in H. destruct H as (K & N & _).
  specialize (K A C). rewrite D in K. destruct K as (_ & K2 & K3).
  eexists _, _. split_ands; [exact E | exact Ep | exact K3 | exact K2 |].
  apply N, B.
Defined.

(** With the hallway believed closed, the first iteration of the validator
    picks an index, checks the whole path and finds the collision. *)
Lemma validator_checks_remaining_path_witness :
  loop_condition Demo.run1 = true
  /\ (validator_step VLoop Demo.run1).1 = VAbortPending
  /\ (validator_step VLoop Demo.run1).2 = Demo.run1
  /\ exists idx,
      enumerate_break (current_traj_time (flags Demo.run1)) 0
        (t_pts Demo.traj3) = Some idx
      /\ idx < num_points Demo.traj3.
Proof.
  assert (T : traj (self Demo.run1) = Some Demo.traj3) by reflexivity.
  assert (C : loop_condition Demo.run1 = true) by reflexivity.
  destruct (validator_checks_remaining_path Demo.traj3 Demo.run1 T C)
    as (_ & U & A & _ & _ & F).
  split_ands; [exact C | | exact U |].
  - apply A. exists [Demo.origin; Demo.origin; mkPose 1 0 0; mkPose 2 0 0].
    by_evaluation.
  - destruct (F ltac:(discriminate)) as (idx & E & L & _).
    exists idx. split; [exact E | exact L].
Defined.

(** The beam ends in the closed hallway, which is not recorded yet: it is
    added. *)
Lemma tracker_updates_first_disagreeing_hallway_witness :
  let after := (tracker_step (LScan Demo.lidar [(1%Q, 0%Q)]) Demo.run0).2 in
  world (robot Demo.run0) = Some Demo.the_world
  /\ recorded_closed_hallways (robot Demo.run0) = ∅
  /\ recorded_closed_hallways (robot after) = ∅ ∪ {[7]}
  /\ hallway_states_updated (flags after) = true.
Proof.
  cbn zeta.
  assert (W : world (robot Demo.run0) = Some Demo.the_world) by reflexivity.
  assert (F : first_disagreeing_hallway (hallways Demo.the_world) (1%Q, 0%Q)
                (recorded_closed_hallways (robot Demo.run0)) = Some Demo.hall)
    by by_evaluation.
  destruct (tracker_updates_first_disagreeing_hallway Demo.lidar Demo.the_world
              (1%Q, 0%Q) [] Demo.run0 W) as (_ & _ & M & _).
  rewrite F in M. destruct M as (_ & _ & U & G & _).
  split_ands; [exact W | reflexivity | exact (proj2 U) | exact G].
Defined.

(** A path of one waypoint: the state is kept, the warning is logged and
    [traj] is as it was. *)
Lemma precondition_failure_keeps_state_witness :
  num_poses [Demo.origin] < 2
  /\ exists msg,
      (execute Demo.quiet [Demo.origin] 1 1 Demo.system0).1
      = Returned (mkResult PRECONDITION_FAILURE msg)
      /\ untouched Demo.system0
           (execute Demo.quiet [Demo.origin] 1 1 Demo.system0).2
      /\ traj (sys_self (execute Demo.quiet [Demo.origin] 1 1 Demo.system0).2)
         = traj (sys_self Demo.system0).
Proof.
  assert (L : num_poses [Demo.origin] < 2) by (cbn; lia).
  split; [exact L|].
  destruct (precondition_failure_keeps_state Demo.quiet [Demo.origin] 1 1
              Demo.system0 (or_intror (or_introl L)))
    as (msg & X & U & _ & T).
  exists msg. split_ands; [exact X | exact U | exact T].
Defined.

(** The tracker records the hallway during the loop: the PRM planner is
    reset once. *)
Lemma planner_reset_once_after_loop_witness :
  exists res s_end,
    execute Demo.update_at_0 Demo.path3 1 1 Demo.system0
    = (Returned res, attach s_end)
    /\ planner_resets (robot s_end) = 1.
Proof.
  assert (P : prepared Demo.path3 Demo.system0 = Some (Demo.traj3, Demo.run0))
    by by_evaluation.
  destruct (planner_reset_once_after_loop Demo.update_at_0 Demo.path3 1 1
              Demo.system0 _ _ (0%Q, Demo.origin) P eq_refl eq_refl)
    as (res & s_end & X & _ & _ & R).
  exists res, s_end. split; [exact X|].
  rewrite R. by_evaluation.
Defined.

(** A request while the last tick sleeps, after the last flag check: not
    CANCELED, and the execution state is at its baseline when [execute]
    returns. *)
Lemma late_cancel_is_discarded_witness :
  exists res s_end,
    execute Demo.cancel_in_last_sleep Demo.path3 1 1 Demo.system0
    = (Returned res, attach s_end)
    /\ status res <> CANCELED
    /\ flags s_end = baseline.
Proof.
  assert (P : prepared Demo.path3 Demo.system0 = Some (Demo.traj3, Demo.run0))
    by by_evaluation.
  assert (Late : forall p, User ∈ Demo.cancel_in_last_sleep p ->
                           after_last_check (num_points Demo.traj3) p = true).
  { intros p I. destruct p as [ |i|i|i|i|i| | | ]; try reflexivity;
      try (cbn in I; apply elem_of_nil in I; destruct I).
    destruct i as [|[|[|i]]]; try reflexivity;
      cbn in I; apply elem_of_nil in I; destruct I. }
  destruct (late_cancel_is_discarded Demo.cancel_in_last_sleep Demo.path3 1 1
              Demo.system0 _ _ (0%Q, Demo.origin) P eq_refl eq_refl Late)
    as (res & s_end & X & N & _ & _ & G).
  exists res, s_end. split_ands; [exact X | exact N | apply G; reflexivity].
Defined.

(** ** The further properties on a run *)

Lemma returned_eq (out : Outcome * System) res :
  out.1 = Returned res -> out = (Returned res, out.2).
Proof. destruct out as [o w]. cbn. now intros ->. Defined.

(** A quiet run over [path3]. *)
Lemma execute_never_blocks_and_records_witness :
  (execute Demo.quiet Demo.path3 1 1 Demo.system0).1 <> Hang
  /\ last_nav_result
       <$> sys_robot (execute Demo.quiet Demo.path3 1 1 Demo.system0).2
     = Some (Some (mkResult SUCCESS no_message)).
Proof.
  assert (P : prepared Demo.path3 Demo.system0 = Some (Demo.traj3, Demo.run0))
    by by_evaluation.
  assert (E : execute Demo.quiet Demo.path3 1 1 Demo.system0
              = (Returned (mkResult SUCCESS no_message),
                 (execute Demo.quiet Demo.path3 1 1 Demo.system0).2))
    by (apply returned_eq; by_evaluation).
  destruct (execute_never_blocks_and_records Demo.quiet Demo.path3 1 1
              Demo.system0 _ _ P) as [N S].
  split; [exact N | exact (proj2 (S _ _ E))].
Defined.

Lemma execute_result_is_listed_witness :
  (execute Demo.quiet Demo.path3 1 1 Demo.system0).1
  = Returned (mkResult SUCCESS no_message)
  /\ mkResult SUCCESS no_message ∈ possible_results.
Proof.
  assert (E : (execute Demo.quiet Demo.path3 1 1 Demo.system0).1
              = Returned (mkResult SUCCESS no_message)) by by_evaluation.
  split; [exact E|].
  exact (execute_result_is_listed Demo.quiet Demo.path3 1 1 Demo.system0 _ E).
Defined.

(** A realtime factor of 0. *)
Lemma execute_raises_after_start_witness :
  (execute Demo.quiet Demo.path3 0 1 Demo.system0).1
  = Raised "ZeroDivisionError"
  /\ following_path (flags (interfere (Demo.quiet AtStart) Demo.run0)) = true.
Proof.
  assert (P : prepared Demo.path3 Demo.system0 = Some (Demo.traj3, Demo.run0))
    by by_evaluation.
  destruct (execute_raises_after_start Demo.quiet Demo.path3 0 1 Demo.system0
              _ _ P (or_introl eq_refl)) as (X & F & _).
  split; [|exact F]. rewrite X. reflexivity.
Defined.

(** The quiet run ends at the third waypoint. *)
Lemma success_ends_at_last_pose_witness :
  exists r',
    sys_robot (execute Demo.quiet Demo.path3 1 1 Demo.system0).2 = Some r'
    /\ pose r' = mkPose 2 0 0.
Proof.
  assert (P : prepared Demo.path3 Demo.system0 = Some (Demo.traj3, Demo.run0))
    by by_evaluation.
  assert (E : execute Demo.quiet Demo.path3 1 1 Demo.system0
              = (Returned (mkResult SUCCESS no_message),
                 (execute Demo.quiet Demo.path3 1 1 Demo.system0).2))
    by (apply returned_eq; by_evaluation).
  destruct (success_ends_at_last_pose Demo.quiet Demo.path3 1 1 Demo.system0
              _ _ _ _ P E eq_refl) as (smp & r' & L & R & Q & _).
  exists r'. split; [exact R|]. rewrite Q.
  cbn in L. injection L as <-. reflexivity.
Defined.

(** Two units of distance at usage 1. *)
Lemma success_drains_travelled_distance_witness :
  exists r',
    sys_robot (execute Demo.quiet Demo.path3 1 1 Demo.system0).2 = Some r'
    /\ (battery_level r'
        == battery_level (robot Demo.run0)
           - 1 * travelled Demo.origin Demo.traj3)%Q.
Proof.
  assert (P : prepared Demo.path3 Demo.system0 = Some (Demo.traj3, Demo.run0))
    by by_evaluation.
  assert (E : execute Demo.quiet Demo.path3 1 1 Demo.system0
              = (Returned (mkResult SUCCESS no_message),
                 (execute Demo.quiet Demo.path3 1 1 Demo.system0).2))
    by (apply returned_eq; by_evaluation).
  exact (success_drains_travelled_distance Demo.quiet Demo.path3 1 1
           Demo.system0 _ _ (0%Q, Demo.origin) _ _ P eq_refl E eq_refl).
Defined.

Lemma execute_keeps_battery_in_range_witness :
  exists r',
    sys_robot (execute Demo.quiet Demo.path3 1 1 Demo.system0).2 = Some r'
    /\ (0 <= battery_level r')%Q.
Proof.
  assert (P : prepared Demo.path3 Demo.system0 = Some (Demo.traj3, Demo.run0))
    by by_evaluation.
  assert (E : execute Demo.quiet Demo.path3 1 1 Demo.system0
              = (Returned (mkResult SUCCESS no_message),
                 (execute Demo.quiet Demo.path3 1 1 Demo.system0).2))
    by (apply returned_eq; by_evaluation).
  assert (B : (0 <= battery_level (robot Demo.run0))%Q)
    by (vm_compute; discriminate).
  destruct (execute_keeps_battery_in_range Demo.quiet Demo.path3 1 1
              Demo.system0 _ _ _ _ P E B) as (r' & R & N & _).
  exists r'. split; [exact R | exact N].
Defined.

(** At usage 100 the battery is empty after one unit of distance. *)
Lemma depletion_ends_the_call_witness :
  exists s_end,
    execute Demo.quiet Demo.path3 1 100 Demo.system0
    = (Returned (mkResult EXECUTION_FAILURE depleted_message), attach s_end)
    /\ battery_level (robot s_end) = 0%Q
    /\ pose (robot s_end) = mkPose 1 0 0.
Proof.
  assert (P : prepared Demo.path3 Demo.system0 = Some (Demo.traj3, Demo.run0))
    by by_evaluation.
  eassert (E : tick_entry Demo.quiet 100 Demo.traj3 Demo.run0 1 = Some _)
    by by_evaluation.
  assert (Ei : Demo.traj3 !! 1 = Some (1%Q, mkPose 1 0 0)) by reflexivity.
  assert (Ep : prev_pose_at Demo.traj3 1 = Some Demo.origin) by reflexivity.
  lazymatch type of E with
  | _ = Some ?s_i =>
      assert (A : abort_execution
                    (flags (at_abort_check Demo.quiet 1
                              (1%Q, mkPose 1 0 0) s_i)) = false)
        by by_evaluation;
      assert (C : cancel_execution
                    (flags (at_cancel_check Demo.quiet 1
                              (1%Q, mkPose 1 0 0) s_i)) = false)
        by by_evaluation;
      assert (B : (battery_level (robot s_i)
                   - 100 * get_linear_distance (1%Q, mkPose 1 0 0).2 Demo.origin
                   <= 0)%Q)
        by (vm_compute; discriminate)
  end.
  exact (depletion_ends_the_call Demo.quiet Demo.path3 1 100 Demo.system0
           _ _ 1 _ _ _ P eq_refl E Ei Ep A C B).
Defined.

(** The abort and the request are both there when tick 1 reads the flags. *)
Lemma abort_takes_priority_over_cancel_witness :
  exists s_end,
    execute Demo.abort_and_cancel_at_1 Demo.path3 1 1 Demo.system1
    = (Returned (mkResult EXECUTION_FAILURE aborted_message), attach s_end).
Proof.
  assert (P : prepared Demo.path3 Demo.system1 = Some (Demo.traj3, Demo.run1))
    by by_evaluation.
  eassert (E : tick_entry Demo.abort_and_cancel_at_1 1 Demo.traj3 Demo.run1 1
               = Some _) by by_evaluation.
  assert (Ei : Demo.traj3 !! 1 = Some (1%Q, mkPose 1 0 0)) by reflexivity.
  lazymatch type of E with
  | _ = Some ?s_i =>
      assert (A : abort_execution
                    (flags (at_abort_check Demo.abort_and_cancel_at_1 1
                              (1%Q, mkPose 1 0 0) s_i)) = true)
        by by_evaluation;
      assert (C : cancel_execution
                    (flags (at_abort_check Demo.abort_and_cancel_at_1 1
                              (1%Q, mkPose 1 0 0) s_i)) = true)
        by by_evaluation
  end.
  exact (proj1 (abort_takes_priority_over_cancel Demo.abort_and_cancel_at_1
                  Demo.path3 1 1 Demo.system1 _ _ 1 _ _ P eq_refl E Ei A C)).
Defined.

(** No validation configured, and a schedule that would run a validator at
    every point. *)
Lemma no_validator_never_aborts_witness :
  exists res,
    (execute Demo.busy_validator Demo.path3 1 1 Demo.system_plain).1
    = Returned res
    /\ message res <> aborted_message.
Proof.
  eassert (P : prepared Demo.path3 Demo.system_plain = Some (Demo.traj3, _))
    by by_evaluation.
  assert (E : execute Demo.busy_validator Demo.path3 1 1 Demo.system_plain
              = (Returned (mkResult SUCCESS no_message),
                 (execute Demo.busy_validator Demo.path3 1 1
                    Demo.system_plain).2))
    by (apply returned_eq; by_evaluation).
  exists (mkResult SUCCESS no_message). split; [now rewrite E|].
  exact (no_validator_never_aborts Demo.busy_validator Demo.path3 1 1
           Demo.system_plain _ _ _ _ P eq_refl (or_introl eq_refl) E).
Defined.

(** The hallway is believed closed, the validator runs at every point, and
    every collision check passes. *)
Lemma collision_free_never_aborts_witness :
  exists res,
    (execute (ext := Demo.open_collaborators) Demo.busy_validator Demo.path3
       1 1 Demo.system1).1 = Returned res
    /\ message res <> aborted_message.
Proof.
  eassert (P : prepared (ext := Demo.open_collaborators) Demo.path3
                 Demo.system1 = Some (Demo.traj3, _)) by by_evaluation.
  assert (E : execute (ext := Demo.open_collaborators) Demo.busy_validator
                Demo.path3 1 1 Demo.system1
              = (Returned (mkResult SUCCESS no_message),
                 (execute (ext := Demo.open_collaborators) Demo.busy_validator
                    Demo.path3 1 1 Demo.system1).2))
    by (apply returned_eq; by_evaluation).
  exists (mkResult SUCCESS no_message). split; [now rewrite E|].
  assert (N : validation_timer (sys_self Demo.system1) <> Some VAbortPending)
    by discriminate.
  exact (collision_free_never_aborts (ext := Demo.open_collaborators)
           Demo.busy_validator Demo.path3 1 1 Demo.system1 _ _ _ _
           (fun _ _ _ _ _ => eq_refl) P N E).
Defined.

(** Out of the fog, with a schedule that would run a tracker at every
    point. *)
Lemma out_of_fog_keeps_knowledge_witness :
  exists r',
    sys_robot (execute Demo.busy_tracker Demo.path3 1 1 Demo.system_plain).2
    = Some r'
    /\ recorded_closed_hallways r' = recorded_closed_hallways Demo.robot_clear
    /\ planner_resets r' = planner_resets Demo.robot_clear.
Proof.
  eassert (P : prepared Demo.path3 Demo.system_plain = Some (Demo.traj3, _))
    by by_evaluation.
  assert (E : execute Demo.busy_tracker Demo.path3 1 1 Demo.system_plain
              = (Returned (mkResult SUCCESS no_message),
                 (execute Demo.busy_tracker Demo.path3 1 1
                    Demo.system_plain).2))
    by (apply returned_eq; by_evaluation).
  exact (out_of_fog_keeps_knowledge Demo.busy_tracker Demo.path3 1 1
           Demo.system_plain _ _ Demo.robot_clear _ _ P eq_refl eq_refl
           (or_introl eq_refl) E).
Defined.

(** In the fog, with a tracker at every point and no lidar named. *)
Lemma unusable_lidar_keeps_knowledge_witness :
  exists r',
    sys_robot (execute Demo.busy_tracker Demo.path3 1 1 Demo.system_no_lidar).2
    = Some r'
    /\ recorded_closed_hallways r' = recorded_closed_hallways Demo.robot0
    /\ planner_resets r' = planner_resets Demo.robot0.
Proof.
  eassert (P : prepared Demo.path3 Demo.system_no_lidar
               = Some (Demo.traj3, _)) by by_evaluation.
  assert (E : execute Demo.busy_tracker Demo.path3 1 1 Demo.system_no_lidar
              = (Returned (mkResult SUCCESS no_message),
                 (execute Demo.busy_tracker Demo.path3 1 1
                    Demo.system_no_lidar).2))
    by (apply returned_eq; by_evaluation).
  exact (unusable_lidar_keeps_knowledge Demo.busy_tracker Demo.path3 1 1
           Demo.system_no_lidar _ _ Demo.robot0 _ _ P eq_refl eq_refl
           eq_refl (or_introl eq_refl) E).
Defined.

(** The first iteration of the validator on [path3]: the whole path and the
    pose of the robot, 4 poses. *)
Lemma validator_guard_always_passes_witness :
  world (robot Demo.run1) = Some Demo.the_world
  /\ validate_iteration Demo.traj3 Demo.run1 <> ValidationSkipped.
Proof.
  assert (W : world (robot Demo.run1) = Some Demo.the_world) by reflexivity.
  split; [exact W|].
  destruct (validator_guard_always_passes Demo.traj3 Demo.run1 Demo.the_world W)
    as [-> | (remaining & _ & ->)]; discriminate.
Defined.

(** The beam ends where two hallways overlap, the closed one not recorded
    and the open one recorded: two measurements settle the point. *)
Lemma repeated_scans_settle_the_record_witness :
  let hs := [Demo.hall; Demo.hall2] in
  let s := set_recorded_closed_hallways {[9]} Demo.run0 in
  length (disagreeing_hallways hs (1%Q, 0%Q)
            (recorded_closed_hallways (robot s))) = 2
  /\ length (disagreeing_hallways hs (1%Q, 0%Q)
               (recorded_closed_hallways
                  (robot (scan_repeatedly 1 hs (1%Q, 0%Q) s)))) = 2 - 1
  /\ length (disagreeing_hallways hs (1%Q, 0%Q)
               (recorded_closed_hallways
                  (robot (scan_repeatedly 2 hs (1%Q, 0%Q) s)))) = 2 - 2.
Proof.
  cbv zeta.
  assert (U : NoDup (map hallway_id [Demo.hall; Demo.hall2])).
  { cbn. apply NoDup_cons. split; [|apply NoDup_singleton].
    intros I. apply list_elem_of_singleton in I. discriminate. }
  assert (L : length (disagreeing_hallways [Demo.hall; Demo.hall2] (1%Q, 0%Q)
                        (recorded_closed_hallways
                           (robot (set_recorded_closed_hallways {[9]}
                                     Demo.run0)))) = 2) by by_evaluation.
  split_ands.
  - exact L.
  - rewrite <- L at 2.
    exact (proj1 (repeated_scans_settle_the_record [Demo.hall; Demo.hall2]
                    (1%Q, 0%Q) (set_recorded_closed_hallways {[9]} Demo.run0)
                    1 U)).
  - rewrite <- L at 2.
    exact (proj1 (repeated_scans_settle_the_record [Demo.hall; Demo.hall2]
                    (1%Q, 0%Q) (set_recorded_closed_hallways {[9]} Demo.run0)
                    2 U)).
Defined.

(** The tracker records the closed hallway during the first tick. *)
Lemma knowledge_moves_towards_truth_witness :
  exists r',
    sys_robot (execute Demo.update_at_0 Demo.path3 1 1 Demo.system0).2
    = Some r'
    /\ moved_towards_truth (world_hallways Demo.robot0)
         (recorded_closed_hallways Demo.robot0) (recorded_closed_hallways r').
Proof.
  assert (P : prepared Demo.path3 Demo.system0 = Some (Demo.traj3, Demo.run0))
    by by_evaluation.
  assert (E : execute Demo.update_at_0 Demo.path3 1 1 Demo.system0
              = (Returned (mkResult SUCCESS no_message),
                 (execute Demo.update_at_0 Demo.path3 1 1 Demo.system0).2))
    by (apply returned_eq; by_evaluation).
  exact (knowledge_moves_towards_truth Demo.update_at_0 Demo.path3 1 1
           Demo.system0 _ _ Demo.robot0 _ _ P eq_refl E).
Defined.

(** After the quiet run both threads are at their loop heads, and end at
    their next step. *)
Lemma returned_call_winds_threads_down_witness :
  exists s',
    (execute Demo.quiet Demo.path3 1 1 Demo.system0).2 = attach s'
    /\ following_path (flags s') = false.
Proof.
  assert (P : prepared Demo.path3 Demo.system0 = Some (Demo.traj3, Demo.run0))
    by by_evaluation.
  assert (E : execute Demo.quiet Demo.path3 1 1 Demo.system0
              = (Returned (mkResult SUCCESS no_message),
                 (execute Demo.quiet Demo.path3 1 1 Demo.system0).2))
    by (apply returned_eq; by_evaluation).
  destruct (returned_call_winds_threads_down Demo.quiet Demo.path3 1 1
              Demo.system0 _ _ _ _ P E) as (s' & X & F & _).
  exists s'. split; [exact X | exact F].
Defined.
